(** * ChatScraper: the capture engine of the KripTik import extension

    A shallow embedding of [ChatScraper] (the scroll-driven history loader,
    the content extractor, the fingerprint hasher and the finalisation pass)
    together with the properties of its deduplication, ordering, termination
    and progress reporting.

    Conventions of the embedding.
    - A JavaScript string is the list of its UTF-16 code units ([list N]).
    - A DOM element is a finite tree carrying the attributes and the layout
      facts the scraper reads; CSS selectors are taken in parsed form.
    - The host page is a record of transitions over an abstract world; the
      scraper's own fields are threaded explicitly next to it.
    - JavaScript numbers that stay integral are [Z], [N] or [nat]; pixel
      offsets and percentages are exact rationals ([Q]), the rounding of
      floating-point arithmetic is left out.
    - Selector strings are taken as parsed, so a string that is no valid
      selector has no counterpart here; an element is its own subtree, what
      lies above it in the document is seen only by queries from the
      document. *)

From Stdlib Require Import ZArith QArith Qminmax String Ascii List Lia.
From Stdlib Require Import DecimalN HexadecimalN DecimalFacts.
From stdpp Require Import base list sorting gmap.

Local Open Scope Z_scope.

(* ===================================================================== *)
(** ** JavaScript strings and numbers *)
(* ===================================================================== *)

Module JS.

Abbreviation jsstring := (list N).

(** A literal: the code units of an ASCII Rocq string. *)
Definition js (s : string) : jsstring :=
  List.map N_of_ascii (list_ascii_of_string s).

(** [String.prototype.slice(0, n)]. *)
Definition slice0 (n : nat) (s : jsstring) : jsstring := firstn n s.

(** WhiteSpace and LineTerminator code units of ECMAScript, the ones
    [String.prototype.trim] strips. *)
Definition isWhiteSpace (c : N) : bool :=
  ((9 <=? c) && (c <=? 13) || (c =? 32) || (c =? 160) || (c =? 5760)
   || (8192 <=? c) && (c <=? 8202) || (c =? 8232) || (c =? 8233)
   || (c =? 8239) || (c =? 8287) || (c =? 12288) || (c =? 65279))%N.

Fixpoint trimStart (s : jsstring) : jsstring :=
  match s with
  | c :: s' => if isWhiteSpace c then trimStart s' else s
  | [] => []
  end.

Definition trimEnd (s : jsstring) : jsstring := rev (trimStart (rev s)).

(** [String.prototype.trim]. *)
Definition trim (s : jsstring) : jsstring := trimEnd (trimStart s).

Fixpoint startsWith (p s : jsstring) : bool :=
  match p, s with
  | [], _ => true
  | a :: p', b :: s' => (a =? b)%N && startsWith p' s'
  | _ :: _, [] => false
  end.

(** [String.prototype.includes]. *)
Fixpoint includes (p s : jsstring) : bool :=
  startsWith p s ||
  match s with
  | [] => false
  | _ :: s' => includes p s'
  end.

Definition isWordChar (c : N) : bool :=
  ((48 <=? c) && (c <=? 57) || (65 <=? c) && (c <=? 90)
   || (97 <=? c) && (c <=? 122) || (c =? 95))%N.

Fixpoint takeWhile (f : N -> bool) (s : jsstring) : jsstring :=
  match s with
  | c :: s' => if f c then c :: takeWhile f s' else []
  | [] => []
  end.

(** ASCII white space, the separators of a class list. *)
Definition isAsciiSpace (c : N) : bool :=
  ((c =? 9) || (c =? 10) || (c =? 12) || (c =? 13) || (c =? 32))%N.

(** The tokens of a space-separated list ([tok] is the token being read,
    reversed). *)
Fixpoint tokensFrom (tok : jsstring) (s : jsstring) : list jsstring :=
  match s with
  | [] => match tok with [] => [] | _ => [rev tok] end
  | c :: s' =>
      if isAsciiSpace c
      then match tok with [] => tokensFrom [] s' | _ => rev tok :: tokensFrom [] s' end
      else tokensFrom (c :: tok) s'
  end.

Definition tokens (s : jsstring) : list jsstring := tokensFrom [] s.

(** ASCII case folding, as selectors with the [i] flag compare. *)
Definition asciiLower (s : jsstring) : jsstring :=
  List.map (fun c => if ((65 <=? c) && (c <=? 90))%N then (c + 32)%N else c) s.

(** Truthiness of a string: only the empty string is falsy. *)
Definition truthy (s : jsstring) : bool :=
  match s with [] => false | _ => true end.

(** [a || b] on strings. *)
Definition orElse (a b : jsstring) : jsstring := if truthy a then a else b.

(** ToInt32: reduction modulo 2^32 into the signed range. *)
Definition toInt32 (z : Z) : Z := (z + 2 ^ 31) mod 2 ^ 32 - 2 ^ 31.

(** [a << k] on numbers. *)
Definition shl (a : Z) (k : Z) : Z :=
  toInt32 (Z.shiftl (toInt32 a) (k mod 32)).

(** [a & b] on numbers. *)
Definition band (a b : Z) : Z := Z.land (toInt32 a) (toInt32 b).

Fixpoint hexDigits (u : Hexadecimal.uint) : jsstring :=
  match u with
  | Hexadecimal.Nil => []
  | Hexadecimal.D0 u => 48%N :: hexDigits u
  | Hexadecimal.D1 u => 49%N :: hexDigits u
  | Hexadecimal.D2 u => 50%N :: hexDigits u
  | Hexadecimal.D3 u => 51%N :: hexDigits u
  | Hexadecimal.D4 u => 52%N :: hexDigits u
  | Hexadecimal.D5 u => 53%N :: hexDigits u
  | Hexadecimal.D6 u => 54%N :: hexDigits u
  | Hexadecimal.D7 u => 55%N :: hexDigits u
  | Hexadecimal.D8 u => 56%N :: hexDigits u
  | Hexadecimal.D9 u => 57%N :: hexDigits u
  | Hexadecimal.Da u => 97%N :: hexDigits u
  | Hexadecimal.Db u => 98%N :: hexDigits u
  | Hexadecimal.Dc u => 99%N :: hexDigits u
  | Hexadecimal.Dd u => 100%N :: hexDigits u
  | Hexadecimal.De u => 101%N :: hexDigits u
  | Hexadecimal.Df u => 102%N :: hexDigits u
  end.

(** [Number.prototype.toString(16)] on an integer: a minus sign for a
    negative number, then the lower-case digits of its magnitude. *)
Definition toString16 (z : Z) : jsstring :=
  if z <? 0 then 45%N :: hexDigits (N.to_hex_uint (Z.abs_N z))
  else hexDigits (N.to_hex_uint (Z.abs_N z)).

Fixpoint decDigits (u : Decimal.uint) : jsstring :=
  match u with
  | Decimal.Nil => []
  | Decimal.D0 u => 48%N :: decDigits u
  | Decimal.D1 u => 49%N :: decDigits u
  | Decimal.D2 u => 50%N :: decDigits u
  | Decimal.D3 u => 51%N :: decDigits u
  | Decimal.D4 u => 52%N :: decDigits u
  | Decimal.D5 u => 53%N :: decDigits u
  | Decimal.D6 u => 54%N :: decDigits u
  | Decimal.D7 u => 55%N :: decDigits u
  | Decimal.D8 u => 56%N :: decDigits u
  | Decimal.D9 u => 57%N :: decDigits u
  end.

(** A non-negative integer inside a template literal. *)
Definition decimal (n : N) : jsstring := decDigits (N.to_uint n).

End JS.
Import JS.

(* ===================================================================== *)
(** ** hashString *)
(* ===================================================================== *)

(** One turn of the loop of [hashString]:
    [hash = ((hash << 5) - hash) + char; hash = hash & hash]. *)
Definition hashStep (hash : Z) (char : N) : Z :=
  let hash := (shl hash 5 - hash) + Z.of_N char in
  band hash hash.

(** [hashString(str)]: the loop runs over the code units from the left. *)
Definition hashLoop (str : jsstring) : Z := fold_left hashStep str 0.

Definition hashString (str : jsstring) : jsstring := toString16 (hashLoop str).

(* ===================================================================== *)
(** ** The element tree and the selectors the scraper queries *)
(* ===================================================================== *)

Module Dom.

(** What [getBoundingClientRect] and [getComputedStyle] report of an
    element, as far as [isVisible] reads it. *)
Record Box := {
  rectWidth : Q;
  rectHeight : Q;
  visibility : jsstring;
  display : jsstring;
  opacity : jsstring
}.

Inductive Element : Type :=
| Elem (tagName : jsstring) (attributes : list (jsstring * jsstring))
       (box : Box) (childNodes : list Node)
with Node : Type :=
| TextNode (data : jsstring)
| ElemNode (el : Element).

Definition tagName (e : Element) : jsstring := let 'Elem t _ _ _ := e in t.
Definition attributes (e : Element) := let 'Elem _ a _ _ := e in a.
Definition box (e : Element) : Box := let 'Elem _ _ b _ := e in b.
Definition childNodes (e : Element) : list Node := let 'Elem _ _ _ c := e in c.

(** [el.getAttribute(name)]; [None] stands for [null]. *)
Fixpoint lookupAttr (name : jsstring) (l : list (jsstring * jsstring)) : option jsstring :=
  match l with
  | [] => None
  | (k, v) :: l' => if bool_decide (k = name) then Some v else lookupAttr name l'
  end.

Definition getAttribute (name : string) (e : Element) : option jsstring :=
  lookupAttr (js name) (attributes e).

(** [el.getAttribute(name) || ...]: [null] and the empty string are falsy. *)
Definition attrOr (name : string) (e : Element) (other : jsstring) : jsstring :=
  match getAttribute name e with
  | Some v => orElse v other
  | None => other
  end.

(** [el.className]: the [class] attribute, or the empty string. *)
Definition className (e : Element) : jsstring :=
  match getAttribute "class" e with Some v => v | None => [] end.

(** [el.textContent]: the text of all descendants, in document order. *)
Fixpoint textContent (e : Element) : jsstring :=
  let 'Elem _ _ _ cs := e in
  (fix go (cs : list Node) : jsstring :=
     match cs with
     | [] => []
     | TextNode d :: cs' => d ++ go cs'
     | ElemNode e' :: cs' => textContent e' ++ go cs'
     end) cs.

(** The descendants of an element in document order, each with its chain of
    ancestors (nearest first) up to and including the queried root. *)
Fixpoint descendantsFrom (anc : list Element) (e : Element) : list (list Element * Element) :=
  let 'Elem _ _ _ cs := e in
  (fix go (cs : list Node) : list (list Element * Element) :=
     match cs with
     | [] => []
     | TextNode _ :: cs' => go cs'
     | ElemNode e' :: cs' => (e :: anc, e') :: descendantsFrom (e :: anc) e' ++ go cs'
     end) cs.

(** One test of a compound selector. *)
Inductive Test :=
| HasAttr (name : jsstring)                      (* [name] *)
| AttrIs (name value : jsstring)                 (* [name="value"] *)
| AttrHas (name value : jsstring)                (* [name*="value"] *)
| AttrHasCI (name value : jsstring)              (* [name*="value" i] *)
| HasClass (token : jsstring).                   (* .token *)

(** A compound selector: an optional type selector and its tests. *)
Record Compound := { onTag : option jsstring; tests : list Test }.

(** A complex selector built with the descendant combinator: the compound
    the subject must match, and the compounds its ancestors must match,
    nearest first. *)
Record Complex := { subject : Compound; within : list Compound }.

(** A selector list (the comma). *)
Abbreviation Selector := (list Complex).

Definition matchesTest (t : Test) (e : Element) : bool :=
  match t with
  | HasAttr n => bool_decide (is_Some (lookupAttr n (attributes e)))
  | AttrIs n v =>
      match lookupAttr n (attributes e) with
      | Some a => bool_decide (a = v)
      | None => false
      end
  | AttrHas n v =>
      match lookupAttr n (attributes e) with
      | Some a => truthy v && includes v a
      | None => false
      end
  | AttrHasCI n v =>
      match lookupAttr n (attributes e) with
      | Some a => truthy v && includes (asciiLower v) (asciiLower a)
      | None => false
      end
  | HasClass c => bool_decide (c ∈ tokens (className e))
  end.

Definition matchesCompound (c : Compound) (e : Element) : bool :=
  match onTag c with
  | Some t => bool_decide (tagName e = t)
  | None => true
  end && forallb (fun t => matchesTest t e) (tests c).

Fixpoint ancestorsMatch (cs : list Compound) (anc : list Element) : bool :=
  match cs with
  | [] => true
  | c :: cs' =>
      (fix climb (anc : list Element) : bool :=
         match anc with
         | [] => false
         | a :: anc' =>
             if matchesCompound c a then ancestorsMatch cs' anc' else climb anc'
         end) anc
  end.

Definition matchesComplex (anc : list Element) (e : Element) (c : Complex) : bool :=
  matchesCompound (subject c) e && ancestorsMatch (within c) anc.

Definition matches (sel : Selector) (anc : list Element) (e : Element) : bool :=
  existsb (matchesComplex anc e) sel.

(** [root.querySelectorAll(sel)]. *)
Definition querySelectorAll (sel : Selector) (root : Element) : list Element :=
  List.map snd (List.filter (fun p => matches sel (fst p) (snd p)) (descendantsFrom [] root)).

(** [root.querySelector(sel)]; [None] stands for [null]. *)
Definition querySelector (sel : Selector) (root : Element) : option Element :=
  head (querySelectorAll sel root).

(** Selector builders. *)
Definition tag (t : string) : Compound := {| onTag := Some (js t); tests := [] |}.
Definition attr (n : string) : Compound :=
  {| onTag := None; tests := [HasAttr (js n)] |}.
Definition attrIs (n v : string) : Compound :=
  {| onTag := None; tests := [AttrIs (js n) (js v)] |}.
Definition attrHas (n v : string) : Compound :=
  {| onTag := None; tests := [AttrHas (js n) (js v)] |}.
Definition cls (c : string) : Compound :=
  {| onTag := None; tests := [HasClass (js c)] |}.
Definition both (c d : Compound) : Compound :=
  {| onTag := match onTag c with Some t => Some t | None => onTag d end;
     tests := tests c ++ tests d |}.
Definition one (c : Compound) : Complex := {| subject := c; within := [] |}.
Definition inside (outer c : Compound) : Complex :=
  {| subject := c; within := [outer] |}.

End Dom.
Import Dom.

(* ===================================================================== *)
(** ** Platform profile and captured messages *)
(* ===================================================================== *)

(** [platform.selectors]: each override is optional; an absent or empty
    string is [None].  [chatMessage] is kept as the list of its comma
    separated pieces, since [findMessageElements] queries them one by one. *)
Record Selectors := {
  chatContainer : option Selector;
  chatMessage : option (list Complex);
  messageContent : option Selector;
  loadMoreButton : option Selector
}.

Record Platform := { selectors : option Selectors }.

(** [platform.selectors?.field], tested for truthiness. *)
Definition override {A} (field : Selectors -> option A) (platform : Platform) : option A :=
  match selectors platform with
  | Some s => field s
  | None => None
  end.

Inductive Role := user | assistant.

Module CodeBlock.
Record t := { id : jsstring; language : jsstring; content : jsstring }.
End CodeBlock.

Module Message.
Record t := {
  id : jsstring;
  role : Role;
  content : jsstring;
  timestamp : option jsstring;
  codeBlocks : list CodeBlock.t;
  artifacts : list jsstring;
  order : nat;
  rawHtml : option jsstring
}.
End Message.
Abbreviation CapturedMessage := Message.t.

(** The fields of the [ChatScraper] object ([maxScrollAttempts] is the
    constant below). *)
Record ChatScraper := {
  capturedMessages : list CapturedMessage;
  isCapturing : bool;
  seenMessageHashes : gset jsstring;
  scrollAttempts : nat
}.

Definition maxScrollAttempts : nat := 300.

(* ===================================================================== *)
(** ** Text cleaning and content extraction *)
(* ===================================================================== *)

Definition matchesAny (sel : list Compound) (e : Element) : bool :=
  existsb (fun c => matchesCompound c e) sel.

(** [[hidden], [style*="display: none"], [aria-hidden="true"]] *)
Definition hiddenSelector : list Compound :=
  [attr "hidden"; attrHas "style" "display: none"; attrIs "aria-hidden" "true"].

(** [nav, [class*="nav"], [class*="sidebar"], button, [role="button"]] *)
Definition navSelector : list Compound :=
  [tag "nav"; attrHas "class" "nav"; attrHas "class" "sidebar"; tag "button";
   attrIs "role" "button"].

(** [[class*="content"], [class*="message"], p] *)
Definition contentMarkers : Selector :=
  [one (attrHas "class" "content"); one (attrHas "class" "message"); one (tag "p")].

(** [pre, code, [class*="code-block"]] *)
Definition codeSelector : list Compound :=
  [tag "pre"; tag "code"; attrHas "class" "code-block"].

(** [clone.querySelectorAll(hidden).forEach(e => e.remove())]: a matching
    descendant goes with its whole subtree. *)
Fixpoint removeHidden (e : Element) : Element :=
  let 'Elem t a b cs := e in
  Elem t a b
    ((fix go (cs : list Node) : list Node :=
        match cs with
        | [] => []
        | TextNode d :: cs' => TextNode d :: go cs'
        | ElemNode c :: cs' =>
            if matchesAny hiddenSelector c then go cs'
            else ElemNode (removeHidden c) :: go cs'
        end) cs).

(** The navigation pass: a matching descendant is removed unless it
    contains a content marker.  The node list is taken before the pass and
    visited in document order, so a descendant is tested with its subtree
    still whole, and what happens below a removed node is of no effect. *)
Fixpoint removeNavigation (e : Element) : Element :=
  let 'Elem t a b cs := e in
  Elem t a b
    ((fix go (cs : list Node) : list Node :=
        match cs with
        | [] => []
        | TextNode d :: cs' => TextNode d :: go cs'
        | ElemNode c :: cs' =>
            if matchesAny navSelector c
               && bool_decide (querySelector contentMarkers c = None) then go cs'
            else ElemNode (removeNavigation c) :: go cs'
        end) cs).

(** [className?.match(/language-(\w+)/)?.[1]]: the word after the first
    [language-] that is followed by a word character. *)
Fixpoint languageOf (s : jsstring) : option jsstring :=
  match s with
  | [] => None
  | _ :: s' =>
      if startsWith (js "language-") s
      then match takeWhile isWordChar (skipn 9 s) with
           | [] => languageOf s'
           | w => Some w
           end
      else languageOf s'
  end.

(** The text a code-bearing element is rewritten to. *)
Definition fenced (code : Element) : jsstring :=
  let language :=
    attrOr "data-language" code
      (match languageOf (className code) with Some w => w | None => [] end) in
  let codeText := textContent code in
  [10%N] ++ js "```" ++ language ++ [10%N] ++ codeText ++ [10%N] ++ js "```" ++ [10%N].

(** The code pass: assigning [textContent] replaces the children of a
    matching element by one text node, so the matching elements below it
    leave the tree before their turn comes. *)
Fixpoint fenceCode (e : Element) : Element :=
  let 'Elem t a b cs := e in
  Elem t a b
    ((fix go (cs : list Node) : list Node :=
        match cs with
        | [] => []
        | TextNode d :: cs' => TextNode d :: go cs'
        | ElemNode c :: cs' =>
            (if matchesAny codeSelector c
             then ElemNode (Elem (tagName c) (attributes c) (box c) [TextNode (fenced c)])
             else ElemNode (fenceCode c)) :: go cs'
        end) cs).

Definition getCleanText (el : Element) : jsstring :=
  let clone := el in
  let clone := removeHidden clone in
  let clone := removeNavigation clone in
  let clone := fenceCode clone in
  orElse (trim (textContent clone)) [].

(** The generic content selectors, in the order they are tried. *)
Definition contentSelectors : list Selector :=
  [ [one (attrHas "class" "message-content")];
    [one (attrHas "class" "message-text")];
    [one (attrHas "class" "content")];
    [one (attrHas "class" "text-content")];
    [one (attrHas "class" "markdown")];
    [one (attrHas "class" "prose")];
    [one (tag "p")];
    [one (cls "text")] ].

(** The loop of [extractContent] over the generic selectors; [None] when it
    runs to its end. *)
Fixpoint genericContent (el : Element) (sels : list Selector) : option jsstring :=
  match sels with
  | [] => None
  | selector :: sels' =>
      match querySelector selector el with
      | Some contentEl =>
          let text := getCleanText contentEl in
          if (0 <? length text)%nat then Some text else genericContent el sels'
      | None => genericContent el sels'
      end
  end.

Definition extractContent (el : Element) (platform : Platform) : jsstring :=
  match
    match override messageContent platform with
    | Some sel =>
        match querySelector sel el with
        | Some contentEl => Some (getCleanText contentEl)
        | None => None
        end
    | None => None
    end
  with
  | Some text => text
  | None =>
      match genericContent el contentSelectors with
      | Some text => text
      | None => getCleanText el
      end
  end.

(* ===================================================================== *)
(** ** What the engine supplies *)
(* ===================================================================== *)

(** Two library functions are taken as given: the Unicode case mapping of
    [String.prototype.toLowerCase] and the HTML serialiser behind
    [innerHTML]. *)
Record Engine := {
  toLowerCase : jsstring -> jsstring;
  innerHTML : Element -> jsstring
}.

(* ===================================================================== *)
(** ** Role, timestamp, code blocks and artifacts *)
(* ===================================================================== *)

Section Extraction.
Context (engine : Engine).

Definition includesAny (patterns : list jsstring) (s : jsstring) : bool :=
  existsb (fun p => includes p s) patterns.

Definition extractRole (el : Element) (platform : Platform) : Role :=
  let dataRole :=
    attrOr "data-role" el (attrOr "data-message-role" el
      (attrOr "data-author" el (attrOr "data-testid" el []))) in
  if includesAny [js "user"; js "human"] (toLowerCase engine dataRole) then user
  else if includesAny [js "assistant"; js "ai"; js "bot"] (toLowerCase engine dataRole) then assistant
  else
    let className := orElse (toLowerCase engine (className el)) [] in
    if includesAny [js "user"; js "human"; js "you"] className then user
    else if includesAny [js "assistant"; js "ai"; js "bot"; js "agent"] className then assistant
    else
      let hasUserAvatar :=
        querySelector
          [one (attrHas "class" "user-avatar"); one (attrHas "class" "human-avatar");
           one {| onTag := Some (js "img"); tests := [AttrHasCI (js "alt") (js "you")] |}]
          el in
      if bool_decide (is_Some hasUserAvatar) then user
      else
        let hasAiAvatar :=
          querySelector
            [one (attrHas "class" "ai-avatar"); one (attrHas "class" "assistant-avatar");
             one (attrHas "class" "bot-avatar")]
            el in
        if bool_decide (is_Some hasAiAvatar) then assistant
        else
          let roleIndicator :=
            querySelector
              [one (attrHas "class" "role"); one (attrHas "class" "author");
               one (attrHas "class" "sender")]
              el in
          match roleIndicator with
          | Some r =>
              let roleText := orElse (toLowerCase engine (textContent r)) [] in
              if includesAny [js "you"; js "user"; js "human"] roleText then user else assistant
          | None => assistant
          end.

Definition timeSelectors : list Selector :=
  [ [one (tag "time")]; [one (attr "datetime")]; [one (attr "data-timestamp")];
    [one (attrHas "class" "timestamp")]; [one (attrHas "class" "time")];
    [one (attrHas "class" "date")] ].

(** [a || b || c || null] over the time element. *)
Definition timeOf (timeEl : Element) : option jsstring :=
  let t := attrOr "datetime" timeEl (attrOr "data-timestamp" timeEl
             (trim (textContent timeEl))) in
  if truthy t then Some t else None.

Fixpoint firstTime (el : Element) (sels : list Selector) : option jsstring :=
  match sels with
  | [] => None
  | selector :: sels' =>
      match querySelector selector el with
      | Some timeEl => timeOf timeEl
      | None => firstTime el sels'
      end
  end.

Definition extractTimestamp (el : Element) : option jsstring := firstTime el timeSelectors.

(** [code.closest('pre')]: the element itself or its nearest [pre]
    ancestor, among the ancestors the model sees. *)
Definition closestPre (anc : list Element) (code : Element) : option Element :=
  List.find (fun a => bool_decide (tagName a = js "pre")) (code :: anc).

(** [pre code, pre, [class*="code-block"], [class*="CodeBlock"]] *)
Definition codeElementsSelector : Selector :=
  [inside (tag "pre") (tag "code"); one (tag "pre");
   one (attrHas "class" "code-block"); one (attrHas "class" "CodeBlock")].

Definition extractCodeBlocks (el : Element) : list CodeBlock.t :=
  let codeElements :=
    List.filter (fun p => matches codeElementsSelector (fst p) (snd p))
                (descendantsFrom [] el) in
  omap (fun b => b)
    (imap (fun i p =>
             let code := snd p in
             let language :=
               attrOr "data-language" code
                 (match languageOf (className code) with
                  | Some w => w
                  | None =>
                      match closestPre (fst p) code with
                      | Some pre => attrOr "data-language" pre (js "text")
                      | None => js "text"
                      end
                  end) in
             let content := orElse (trim (textContent code)) [] in
             if (0 <? length content)%nat
             then Some {| CodeBlock.id := js "code_" ++ decimal (N.of_nat i);
                          CodeBlock.language := language;
                          CodeBlock.content := content |}
             else None)
          codeElements).

(** [[data-artifact], [data-artifact-id], [class*="artifact"], a[href*="artifact"]] *)
Definition artifactSelector : Selector :=
  [one (attr "data-artifact"); one (attr "data-artifact-id");
   one (attrHas "class" "artifact"); one (both (tag "a") (attrHas "href" "artifact"))].

Definition extractArtifacts (el : Element) : list jsstring :=
  omap (fun ae =>
          let id := attrOr "data-artifact" ae (attrOr "data-artifact-id" ae
                      (match getAttribute "href" ae with Some h => h | None => [] end)) in
          if truthy id then Some id else None)
       (querySelectorAll artifactSelector el).

(* ===================================================================== *)
(** ** Fingerprints *)
(* ===================================================================== *)

(** [hashElement] takes an element, or a plain object with a [textContent]
    field (so [processMessages] calls it). *)
Inductive HashArg :=
| OfElement (el : Element)
| OfPlain (textContent : jsstring).

Definition hashElement (arg : HashArg) : jsstring :=
  match arg with
  | OfPlain text =>
      let content := trim (slice0 300 (orElse text [])) in
      hashString content
  | OfElement el =>
      let content := trim (slice0 300 (orElse (textContent el) [])) in
      let className := orElse (className el) [] in
      let dataId := attrOr "data-message-id" el (attrOr "data-id" el []) in
      if truthy dataId then js "id_" ++ dataId
      else hashString (content ++ (if truthy className then slice0 50 className else []))
  end.

Definition extractMessage (el : Element) (platform : Platform) (index : nat) : CapturedMessage :=
  {| Message.id := js "msg_" ++ hashElement (OfElement el) ++ js "_" ++ decimal (N.of_nat index);
     Message.role := extractRole el platform;
     Message.content := extractContent el platform;
     Message.timestamp := extractTimestamp el;
     Message.codeBlocks := extractCodeBlocks el;
     Message.artifacts := extractArtifacts el;
     Message.order := index;
     Message.rawHtml := Some (slice0 500 (innerHTML engine el)) |}.

End Extraction.

(* ===================================================================== *)
(** ** The message accumulator *)
(* ===================================================================== *)

Section Accumulator.
Context (engine : Engine).

(** The generic message selectors, in the order they are tried. *)
Definition genericSelectors : list Complex :=
  [ one (attrHas "data-testid" "message");
    one (attr "data-message-id");
    one (attrHas "class" "message-container");
    one (attrHas "class" "chat-message");
    one (attrHas "class" "conversation-message");
    one (both (attrIs "role" "listitem") (attrHas "class" "message"));
    one (attrHas "class" "MessageRow");
    one (attrHas "class" "message-row");
    one (attrHas "class" "chat-row");
    one (cls "message");
    one (attrHas "class" "turn");
    one (attrHas "class" "prose") ].

(** The first selector of the list with a match decides. *)
Fixpoint firstNonEmpty (sels : list Complex) (document : Element) : option (list Element) :=
  match sels with
  | [] => None
  | selector :: sels' =>
      match querySelectorAll [selector] document with
      | [] => firstNonEmpty sels' document
      | elements => Some elements
      end
  end.

Definition findMessageElements (platform : Platform) (document : Element) : list Element :=
  match
    match override chatMessage platform with
    | Some sels => firstNonEmpty sels document
    | None => None
    end
  with
  | Some elements => elements
  | None =>
      match firstNonEmpty genericSelectors document with
      | Some elements => elements
      | None => []
      end
  end.

Definition markSeen (hash : jsstring) (s : ChatScraper) : ChatScraper :=
  {| capturedMessages := capturedMessages s;
     isCapturing := isCapturing s;
     seenMessageHashes := {[ hash ]} ∪ seenMessageHashes s;
     scrollAttempts := scrollAttempts s |}.

Definition push (message : CapturedMessage) (s : ChatScraper) : ChatScraper :=
  {| capturedMessages := capturedMessages s ++ [message];
     isCapturing := isCapturing s;
     seenMessageHashes := seenMessageHashes s;
     scrollAttempts := scrollAttempts s |}.

(** The body of the [forEach] of [captureVisibleMessages]: one observed
    element, the counter [newMessages] and the scraper. *)
Definition captureCounting (platform : Platform) (acc : nat * ChatScraper) (el : Element)
  : nat * ChatScraper :=
  let '(newMessages, s) := acc in
  let hash := hashElement (OfElement el) in
  if negb (bool_decide (hash ∈ seenMessageHashes s)) then
    let s := markSeen hash s in
    let message := extractMessage engine el platform (length (capturedMessages s)) in
    if truthy (Message.content message)
       && (0 <? length (trim (Message.content message)))%nat
    then (S newMessages, push message s)
    else (newMessages, s)
  else (newMessages, s).

(** What one observed element does to the scraper. *)
Definition captureElement (platform : Platform) (s : ChatScraper) (el : Element) : ChatScraper :=
  snd (captureCounting platform (0%nat, s) el).

(** One capture pass over the elements found. *)
Definition capturePass (platform : Platform) (s : ChatScraper) (messageElements : list Element)
  : nat * ChatScraper :=
  fold_left (captureCounting platform) messageElements (0%nat, s).

Definition captureVisibleMessages (platform : Platform) (document : Element) (s : ChatScraper)
  : nat * ChatScraper :=
  capturePass platform s (findMessageElements platform document).

(** [sort((a, b) => a.order - b.order)]: the sort is stable, so its result
    is the one of insertion from the right. *)
Fixpoint insertByOrder (m : CapturedMessage) (l : list CapturedMessage) : list CapturedMessage :=
  match l with
  | [] => [m]
  | x :: l' =>
      if (Message.order m <=? Message.order x)%nat then m :: l
      else x :: insertByOrder m l'
  end.

Definition sortByOrder (l : list CapturedMessage) : list CapturedMessage :=
  fold_right insertByOrder [] l.

Definition contentHashOf (msg : CapturedMessage) : jsstring :=
  hashElement (OfPlain (Message.content msg)).

(** The loop of [processMessages]: [unique] and [contentHashes]. *)
Definition dedupStep (acc : list CapturedMessage * gset jsstring) (msg : CapturedMessage)
  : list CapturedMessage * gset jsstring :=
  let '(unique, contentHashes) := acc in
  let contentHash := contentHashOf msg in
  if negb (bool_decide (contentHash ∈ contentHashes))
     && (0 <? length (trim (Message.content msg)))%nat
  then (unique ++ [msg], {[ contentHash ]} ∪ contentHashes)
  else (unique, contentHashes).

Definition dedup (sorted : list CapturedMessage) : list CapturedMessage :=
  fst (fold_left dedupStep sorted ([], ∅)).

(** [{ ...msg, order: i, rawHtml: undefined }] *)
Definition renumber (i : nat) (msg : CapturedMessage) : CapturedMessage :=
  {| Message.id := Message.id msg;
     Message.role := Message.role msg;
     Message.content := Message.content msg;
     Message.timestamp := Message.timestamp msg;
     Message.codeBlocks := Message.codeBlocks msg;
     Message.artifacts := Message.artifacts msg;
     Message.order := i;
     Message.rawHtml := None |}.

Definition processMessages (s : ChatScraper) : list CapturedMessage :=
  let sorted := sortByOrder (capturedMessages s) in
  let unique := dedup sorted in
  imap renumber unique.

End Accumulator.

(* ===================================================================== *)
(** ** Locating the container and the load-more control *)
(* ===================================================================== *)

Definition isVisible (el : Element) : bool :=
  let rect := box el in
  let style := box el in
  negb (Qle_bool (rectWidth rect) 0)
  && negb (Qle_bool (rectHeight rect) 0)
  && negb (bool_decide (visibility style = js "hidden"))
  && negb (bool_decide (display style = js "none"))
  && negb (bool_decide (opacity style = js "0")).

(** [el.disabled]: the form controls reflect the attribute; on any other
    element the property is undefined. *)
Definition disabled (el : Element) : bool :=
  bool_decide (tagName el ∈ [js "button"; js "input"; js "select"; js "textarea";
                             js "optgroup"; js "option"; js "fieldset"])
  && bool_decide (is_Some (getAttribute "disabled" el)).

Definition containerSelectors : list Selector :=
  [ [one (attrHas "data-testid" "chat")];
    [one (attrHas "class" "chat-container")];
    [one (attrHas "class" "conversation-container")];
    [one (attrHas "class" "messages-container")];
    [one (attrHas "class" "message-list")];
    [one (attrIs "role" "log")];
    [inside (attrIs "role" "main") (attrHas "class" "chat")];
    [inside (tag "main") (attrHas "class" "messages")] ].

Fixpoint firstMatch (sels : list Selector) (document : Element) : option Element :=
  match sels with
  | [] => None
  | sel :: sels' =>
      match querySelector sel document with
      | Some el => Some el
      | None => firstMatch sels' document
      end
  end.

Definition findChatContainer (platform : Platform) (document : Element) : option Element :=
  match
    match override chatContainer platform with
    | Some sel => querySelector sel document
    | None => None
    end
  with
  | Some el => Some el
  | None => firstMatch containerSelectors document
  end.

Section LoadMore.
Context (engine : Engine).

Definition loadMorePatterns : list Selector :=
  [ [one (both (tag "button") (attrHas "class" "load-more"))];
    [one (both (tag "button") (attrHas "class" "loadmore"))];
    [one (both (tag "button") (attrHas "class" "load-earlier"))];
    [one (both (tag "button") (attrHas "class" "show-more"))];
    [one (both (tag "button") (attrHas "class" "view-more"))];
    [one (both (tag "button") (attrHas "class" "older"))];
    [inside (attrHas "class" "load-more") (tag "button")];
    [one (attrHas "class" "load-more-trigger")];
    [one (attrHas "data-testid" "load-more")];
    [one (attrHas "data-testid" "load-earlier")];
    [one (both (tag "a") (attrHas "class" "load-more"))];
    [one (both (attrIs "role" "button") (attrHas "class" "load"))] ].

Definition textPatterns : list jsstring :=
  [js "load more"; js "load earlier"; js "show more"; js "view more"; js "see more";
   js "older messages"; js "previous messages"; js "load previous"].

(** The first pattern whose first match is visible and enabled. *)
Fixpoint firstClickable (sels : list Selector) (document : Element) : option Element :=
  match sels with
  | [] => None
  | selector :: sels' =>
      match querySelector selector document with
      | Some element =>
          if isVisible element && negb (disabled element) then Some element
          else firstClickable sels' document
      | None => firstClickable sels' document
      end
  end.

(** [button, a, [role="button"], [class*="btn"], [class*="button"]] *)
Definition clickableSelector : Selector :=
  [one (tag "button"); one (tag "a"); one (attrIs "role" "button");
   one (attrHas "class" "btn"); one (attrHas "class" "button")].

Definition labelledLoadMore (element : Element) : bool :=
  let text := orElse (trim (toLowerCase engine (textContent element))) [] in
  let ariaLabel :=
    match getAttribute "aria-label" element with
    | Some a => orElse (toLowerCase engine a) []
    | None => []
    end in
  existsb (fun pattern =>
             (includes pattern text || includes pattern ariaLabel) && isVisible element)
          textPatterns.

(** The element [tryClickLoadMore] clicks, if it finds one. *)
Definition findLoadMore (platform : Platform) (document : Element) : option Element :=
  match
    match override loadMoreButton platform with
    | Some sel =>
        match querySelector sel document with
        | Some btn => if isVisible btn && negb (disabled btn) then Some btn else None
        | None => None
        end
    | None => None
    end
  with
  | Some btn => Some btn
  | None =>
      match firstClickable loadMorePatterns document with
      | Some element => Some element
      | None => List.find labelledLoadMore (querySelectorAll clickableSelector document)
      end
  end.

Definition hasLoadMoreButton (platform : Platform) (document : Element) : bool :=
  match override loadMoreButton platform with
  | Some sel =>
      match querySelector sel document with
      | Some btn => isVisible btn
      | None => false
      end
  | None => false
  end
  ||
  existsb (fun btn =>
             let text := orElse (toLowerCase engine (textContent btn)) [] in
             includesAny [js "load more"; js "load earlier"; js "show more"] text
             && isVisible btn)
          (querySelectorAll [one (tag "button"); one (tag "a"); one (attrIs "role" "button")]
                            document).

End LoadMore.

(* ===================================================================== *)
(** ** The host page and the progress callback *)
(* ===================================================================== *)

Inductive Phase := initializing | scrolling | extracting | finalizing | complete.

Record Progress := {
  phase : Phase;
  message : jsstring;
  progress : Q;
  count : option nat
}.

(** The page under capture, over a world [W] of its own.  The scroll
    operations and readings are those of the element that
    [findScrollableElement] hands to the two phases.  Code of the extension
    itself runs during a wait and inside the progress callback only; both
    report whether [ChatScraper.stop()] was called meanwhile. *)
Record Page (W : Type) := {
  document : W -> Element;
  scrollHeight : W -> N;
  scrollTop : W -> Q;
  clientHeight : W -> N;
  setScrollTop : Q -> W -> W;
  scrollTo : Q -> W -> W;
  scrollBy : Q -> W -> W;
  dispatchEvent : jsstring -> W -> W;
  click : Element -> W -> W;
  wait : nat -> W -> W * bool;
  onProgress : Progress -> W -> W * bool
}.
Arguments document {W}. Arguments scrollHeight {W}. Arguments scrollTop {W}.
Arguments clientHeight {W}. Arguments setScrollTop {W}. Arguments scrollTo {W}.
Arguments scrollBy {W}. Arguments dispatchEvent {W}. Arguments click {W}.
Arguments wait {W}. Arguments onProgress {W}.

(** The scraper, the world, and the progress events emitted so far. *)
Record Machine (W : Type) := {
  scraper : ChatScraper;
  world : W;
  trace : list Progress
}.
Arguments scraper {W}. Arguments world {W}. Arguments trace {W}.

Section Machinery.
Context {W : Type} (page : Page W) (engine : Engine).

Definition stop (s : ChatScraper) : ChatScraper :=
  {| capturedMessages := capturedMessages s;
     isCapturing := false;
     seenMessageHashes := seenMessageHashes s;
     scrollAttempts := scrollAttempts s |}.

Definition setAttempts (n : nat) (s : ChatScraper) : ChatScraper :=
  {| capturedMessages := capturedMessages s;
     isCapturing := isCapturing s;
     seenMessageHashes := seenMessageHashes s;
     scrollAttempts := n |}.

(** A page transition. *)
Definition onWorld (f : W -> W) (m : Machine W) : Machine W :=
  {| scraper := scraper m; world := f (world m); trace := trace m |}.

(** A scraper update. *)
Definition onScraper (f : ChatScraper -> ChatScraper) (m : Machine W) : Machine W :=
  {| scraper := f (scraper m); world := world m; trace := trace m |}.

(** [await this.wait(ms)] *)
Definition waitFor (ms : nat) (m : Machine W) : Machine W :=
  let '(w, stopped) := wait page ms (world m) in
  {| scraper := if stopped then stop (scraper m) else scraper m;
     world := w; trace := trace m |}.

(** [onProgress({...})] *)
Definition report (p : Progress) (m : Machine W) : Machine W :=
  let '(w, stopped) := onProgress page p (world m) in
  {| scraper := if stopped then stop (scraper m) else scraper m;
     world := w; trace := trace m ++ [p] |}.

Definition triggerScrollEvents (m : Machine W) : Machine W :=
  fold_left (fun m eventType => onWorld (dispatchEvent page eventType) m)
            [js "scroll"; js "wheel"; js "mousewheel"] m.

Definition tryClickLoadMore (platform : Platform) (m : Machine W) : bool * Machine W :=
  match findLoadMore engine platform (document page (world m)) with
  | Some element => (true, onWorld (click page element) m)
  | None => (false, m)
  end.

Definition capture (platform : Platform) (m : Machine W) : Machine W :=
  onScraper (fun s => snd (captureVisibleMessages engine platform (document page (world m)) s)) m.

(* --------------------------------------------------------------------- *)
(** *** Phase 1: scrollToAbsoluteTop *)

Record TopVars := {
  previousScrollHeight : Z;
  previousScrollTop : Q;
  stableCount : nat;
  iteration : nat
}.

(** [Math.min(45, 2 + (iteration / this.maxScrollAttempts) * 43)] *)
Definition topProgress (iteration : nat) : Q :=
  Qmin 45 (2 + (inject_Z (Z.of_nat iteration) / inject_Z (Z.of_nat maxScrollAttempts)) * 43)%Q.

Definition topMessage (iteration : nat) (currentScrollHeight : N) : jsstring :=
  js "Loading complete history... (" ++ decimal (N.of_nat iteration) ++ js " cycles, "
  ++ decimal currentScrollHeight ++ js "px)".

(** One turn of the loop; the boolean tells whether it ended in [break]. *)
Definition topBody (platform : Platform) (v : TopVars) (m : Machine W)
  : bool * TopVars * Machine W :=
  let iteration := S (iteration v) in
  let m := onScraper (setAttempts iteration) m in
  let '(loadMoreClicked, m) := tryClickLoadMore platform m in
  let m := onWorld (scrollTo page 0) m in
  let m := onWorld (setScrollTop page 0) m in
  let m := onWorld (scrollTo page (-1000)) m in
  let m := waitFor (if loadMoreClicked then 1200 else 400)%nat m in
  let m := triggerScrollEvents m in
  let currentScrollHeight := scrollHeight page (world m) in
  let currentScrollTop := scrollTop page (world m) in
  let m :=
    if (iteration mod 10 =? 0)%nat
    then report {| phase := scrolling;
                   message := topMessage iteration currentScrollHeight;
                   progress := topProgress iteration;
                   count := None |} m
    else m in
  let heightStable := Z.of_N currentScrollHeight =? previousScrollHeight v in
  let positionAtTop := Qle_bool currentScrollTop 5 in
  let stable := heightStable && positionAtTop && negb loadMoreClicked in
  let stableCount := if stable then S (stableCount v) else 0%nat in
  if stable && (5 <=? stableCount)%nat
  then (true,
        {| previousScrollHeight := previousScrollHeight v;
           previousScrollTop := previousScrollTop v;
           stableCount := stableCount; iteration := iteration |},
        m)
  else
    let v := {| previousScrollHeight := Z.of_N currentScrollHeight;
                previousScrollTop := currentScrollTop;
                stableCount := stableCount; iteration := iteration |} in
    if (3 <=? stableCount)%nat
       && negb (hasLoadMoreButton engine platform (document page (world m)))
    then (true, v, m)
    else (false, v, m).

(** The [while] loop, run for at most [fuel] turns.  The boolean tells
    whether the loop ended; [false] means the fuel ran out first. *)
Fixpoint topLoop (fuel : nat) (platform : Platform) (v : TopVars) (m : Machine W)
  : bool * TopVars * Machine W :=
  if (iteration v <? maxScrollAttempts)%nat && isCapturing (scraper m) then
    match fuel with
    | O => (false, v, m)
    | S fuel' =>
        let '(broke, v', m') := topBody platform v m in
        if broke then (true, v', m') else topLoop fuel' platform v' m'
    end
  else (true, v, m).

Definition scrollToAbsoluteTop (fuel : nat) (platform : Platform) (m : Machine W)
  : bool * TopVars * Machine W :=
  let v := {| previousScrollHeight := -1; previousScrollTop := -1;
              stableCount := 0; iteration := 0 |} in
  let m := onWorld (setScrollTop page 0) m in
  let m := waitFor 300 m in
  topLoop fuel platform v m.

(* --------------------------------------------------------------------- *)
(** *** Phase 2: scrollAndCaptureAll *)

Record SweepVars := {
  totalScrolled : Q;
  previousMessageCount : nat;
  sweepStableCount : nat
}.

(** How the loop of phase 2 was left: by the [break] of the bottom branch,
    by the [break] of the stability branch, or by its condition
    [this.isCapturing] turning false. *)
Inductive Exit := ReachedBottom | Stalled | Cancelled.

Definition maxStable : nat := 8.

(** [Math.max(200, scrollable.clientHeight * 0.6)] *)
Definition scrollStepOf (clientHeight : N) : Q :=
  Qmax 200 (inject_Z (Z.of_N clientHeight) * (6 # 10))%Q.

(** [50 + Math.min(45, (totalScrolled / scrollable.scrollHeight) * 45)].
    A division of a positive number by zero is [Infinity], and the minimum
    is then 45 ([totalScrolled] is positive wherever this is computed). *)
Definition sweepProgress (totalScrolled : Q) (scrollHeight : N) : Q :=
  (50 + (if (scrollHeight =? 0)%N then 45
         else Qmin 45 ((totalScrolled / inject_Z (Z.of_N scrollHeight)) * 45)))%Q.

Definition sweepMessage (n : nat) : jsstring :=
  js "Extracting quantum signatures... " ++ decimal (N.of_nat n) ++ js " messages".

(** [scrollTop + clientHeight >= scrollHeight - 20] *)
Definition atBottomOf (w : W) : bool :=
  let scrollPosition := (scrollTop page w + inject_Z (Z.of_N (clientHeight page w)))%Q in
  Qle_bool (inject_Z (Z.of_N (scrollHeight page w)) - 20)%Q scrollPosition.

(** The first half of a turn: scroll on, let the page settle, capture, and
    report. *)
Definition sweepAdvance (platform : Platform) (scrollStep : Q) (v : SweepVars) (m : Machine W)
  : Q * Machine W :=
  let m := onWorld (scrollBy page scrollStep) m in
  let totalScrolled := (totalScrolled v + scrollStep)%Q in
  let m := waitFor 250 m in
  let m := triggerScrollEvents m in
  let m := waitFor 100 m in
  let m := capture platform m in
  let progress := sweepProgress totalScrolled (scrollHeight page (world m)) in
  let m := report {| phase := extracting;
                     message := sweepMessage (length (capturedMessages (scraper m)));
                     progress := progress;
                     count := Some (length (capturedMessages (scraper m))) |} m in
  (totalScrolled, m).

(** One turn of the loop; [Some e] tells by which [break] it ended. *)
Definition sweepBody (platform : Platform) (scrollStep : Q) (v : SweepVars) (m : Machine W)
  : option Exit * SweepVars * Machine W :=
  let '(totalScrolled, m) := sweepAdvance platform scrollStep v m in
  let atBottom := atBottomOf (world m) in
  if atBottom then
    let m := waitFor 500 m in
    let m := capture platform m in
    let m := onWorld (scrollBy page 100) m in
    let m := waitFor 300 m in
    let m := capture platform m in
    (Some ReachedBottom,
     {| totalScrolled := totalScrolled;
        previousMessageCount := previousMessageCount v;
        sweepStableCount := sweepStableCount v |}, m)
  else
    let unchanged :=
      (length (capturedMessages (scraper m)) =? previousMessageCount v)%nat in
    let stableCount := if unchanged then S (sweepStableCount v) else 0%nat in
    if unchanged && (maxStable <=? stableCount)%nat && atBottom
    then (Some Stalled,
          {| totalScrolled := totalScrolled;
             previousMessageCount := previousMessageCount v;
             sweepStableCount := stableCount |}, m)
    else (None,
          {| totalScrolled := totalScrolled;
             previousMessageCount := length (capturedMessages (scraper m));
             sweepStableCount := stableCount |}, m).

(** The [while (this.isCapturing)] loop, run for at most [fuel] turns;
    [None] for the exit means the fuel ran out with the loop still going. *)
Fixpoint sweepLoop (fuel : nat) (platform : Platform) (scrollStep : Q)
  (v : SweepVars) (m : Machine W) : option Exit * SweepVars * Machine W :=
  if isCapturing (scraper m) then
    match fuel with
    | O => (None, v, m)
    | S fuel' =>
        let '(exit, v', m') := sweepBody platform scrollStep v m in
        match exit with
        | Some e => (Some e, v', m')
        | None => sweepLoop fuel' platform scrollStep v' m'
        end
    end
  else (Some Cancelled, v, m).

Definition scrollAndCaptureAll (fuel : nat) (platform : Platform) (m : Machine W)
  : option Exit * SweepVars * Machine W :=
  let m := onWorld (setScrollTop page 0) m in
  let m := waitFor 500 m in
  let m := capture platform m in
  let scrollStep := scrollStepOf (clientHeight page (world m)) in
  let v := {| totalScrolled := 0; previousMessageCount := 0; sweepStableCount := 0 |} in
  sweepLoop fuel platform scrollStep v m.

(* --------------------------------------------------------------------- *)
(** *** captureFullHistory *)

(** How a call ends: it throws for want of a chat container, or returns the
    final messages. *)
Inductive Outcome :=
| NoContainer
| Returned (finalMessages : list CapturedMessage).

Definition fresh : ChatScraper :=
  {| capturedMessages := []; isCapturing := true;
     seenMessageHashes := ∅; scrollAttempts := 0 |}.

Definition completeMessage (n : nat) : jsstring :=
  js "Extraction complete: " ++ decimal (N.of_nat n) ++ js " messages captured".

(** [None] means the fuel given to the two loops ran out. *)
Definition captureFullHistory (fuel : nat) (platform : Platform) (w : W)
  : option (Outcome * Machine W) :=
  let m := {| scraper := fresh; world := w; trace := [] |} in
  let m := report {| phase := initializing;
                     message := js "Initializing neural extraction matrix...";
                     progress := 0; count := None |} m in
  match findChatContainer platform (document page (world m)) with
  | None => Some (NoContainer, m)
  | Some chatContainer =>
      let m := report {| phase := scrolling;
                         message := js "Locating temporal message origin point...";
                         progress := 2; count := None |} m in
      match scrollToAbsoluteTop fuel platform m with
      | (false, _, _) => None
      | (true, _, m) =>
          let m := report {| phase := extracting;
                             message := js "Initiating quantum message extraction...";
                             progress := 50; count := None |} m in
          match scrollAndCaptureAll fuel platform m with
          | (None, _, _) => None
          | (Some _, _, m) =>
              let m := report {| phase := finalizing;
                                 message := js "Crystallizing message data structures...";
                                 progress := 95; count := None |} m in
              let finalMessages := processMessages (scraper m) in
              let m := report {| phase := complete;
                                 message := completeMessage (length finalMessages);
                                 progress := 100;
                                 count := Some (length finalMessages) |} m in
              let m := onScraper stop m in
              Some (Returned finalMessages, m)
          end
      end
  end.

End Machinery.

(* ===================================================================== *)
(** ** Concrete engines, elements and pages *)
(* ===================================================================== *)

Module Sample.

Definition plainBox : Box :=
  {| rectWidth := 100; rectHeight := 20; visibility := js "visible";
     display := js "block"; opacity := js "1" |}.

Definition kv (k v : string) : jsstring * jsstring := (js k, js v).

Definition el (t : string) (attrs : list (jsstring * jsstring)) (children : list Node) : Element :=
  Elem (js t) attrs plainBox children.

Definition text (s : string) : Node := TextNode (js s).

(** A serialiser for trees without void elements and without characters
    that need escaping. *)
Fixpoint outerHTML (e : Element) : jsstring :=
  let 'Elem t a _ cs := e in
  js "<" ++ t
  ++ List.concat (List.map (fun kv => js " " ++ fst kv ++ js "='" ++ snd kv ++ js "'") a)
  ++ js ">"
  ++ (fix go (cs : list Node) : jsstring :=
        match cs with
        | [] => []
        | TextNode d :: cs' => d ++ go cs'
        | ElemNode c :: cs' => outerHTML c ++ go cs'
        end) cs
  ++ js "</" ++ t ++ js ">".

Definition serialize (e : Element) : jsstring :=
  List.concat (List.map (fun n => match n with
                                  | TextNode d => d
                                  | ElemNode c => outerHTML c
                                  end) (childNodes e)).

(** An engine for ASCII text. *)
Definition engine : Engine :=
  {| toLowerCase := asciiLower; innerHTML := serialize |}.

(** A platform without overrides. *)
Definition generic : Platform := {| selectors := None |}.

(** [<div class="message" data-message-id="m<i>"><p>Message number <i></p></div>] *)
Definition messageElement (i : nat) : Element :=
  el "div"
     [kv "class" "message"; (js "data-message-id", js "m" ++ decimal (N.of_nat i))]
     [ElemNode (el "p" [] [TextNode (js "Message number " ++ decimal (N.of_nat i))])].

Definition documentOf (messages : list Element) : Element :=
  el "#document" []
     [ElemNode (el "html" []
        [ElemNode (el "body" []
           [ElemNode (el "div" [kv "class" "chat-container"]
                         (List.map ElemNode messages))])])].

Definition rendered (n : nat) : list Element := List.map messageElement (seq 0 n).

(** A page that never changes: its messages rendered from the start, a
    scroll height of 4000px seen through a viewport of 800px, no
    load-more control, nobody calling [stop()].  The world is the scroll
    offset. *)
Definition clamp (q : Q) : Q := Qmax 0 (Qmin 3200 q).

Definition still (messages : list Element) : Page Q :=
  {| document := fun _ => documentOf messages;
     scrollHeight := fun _ => 4000%N;
     scrollTop := fun w => w;
     clientHeight := fun _ => 800%N;
     setScrollTop := fun q _ => clamp q;
     scrollTo := fun q _ => clamp q;
     scrollBy := fun q w => clamp (w + q);
     dispatchEvent := fun _ w => w;
     click := fun _ w => w;
     wait := fun _ w => (w, false);
     onProgress := fun _ w => (w, false) |}.

(** A page that never settles: the scroll height differs at every wait,
    and a visible load-more button is always there.  The world counts the
    waits. *)
Definition loadMoreControl : Element :=
  el "button" [kv "class" "load-more"] [text "Load more"].

Definition restless : Page nat :=
  {| document := fun _ =>
       el "#document" []
          [ElemNode (el "div" [kv "class" "chat-container"]
                        [ElemNode loadMoreControl; ElemNode (messageElement 0)])];
     scrollHeight := fun w => (1000 + N.of_nat w)%N;
     scrollTop := fun _ => 0%Q;
     clientHeight := fun _ => 800%N;
     setScrollTop := fun _ w => w;
     scrollTo := fun _ w => w;
     scrollBy := fun _ w => w;
     dispatchEvent := fun _ w => w;
     click := fun _ w => w;
     wait := fun _ w => (S w, false);
     onProgress := fun _ w => (w, false) |}.



Definition start {W} (w : W) : Machine W :=
  {| scraper := fresh; world := w; trace := [] |}.

(** An element without a stable id: one space, then 300 letters. *)
Definition padded : Element :=
  el "div" [kv "class" "message"] [TextNode (32%N :: repeat 97%N 300)].

(** A platform whose content selector is [.body], and a message whose
    [.body] is empty while its paragraph is not:
    [<div class="message"><span class="body"></span><p>Hello</p></div>]. *)
Definition withBody : Platform :=
  {| selectors := Some {| chatContainer := None; chatMessage := None;
                          messageContent := Some [one (cls "body")];
                          loadMoreButton := None |} |}.

Definition hollow : Element :=
  el "div" [kv "class" "message"]
     [ElemNode (el "span" [kv "class" "body"] []);
      ElemNode (el "p" [] [text "Hello"])].

(** A message that is first seen empty and later with its text, under the
    same stable id. *)
Definition pending : Element :=
  el "div" [kv "class" "message"; kv "data-message-id" "m7"] [].

Definition arrived : Element :=
  el "div" [kv "class" "message"; kv "data-message-id" "m7"]
     [ElemNode (el "p" [] [text "Streamed answer"])].

End Sample.

(* ===================================================================== *)
(** ** Vocabulary of the properties *)
(* ===================================================================== *)

(** The rolling hash in the words of the specification: signed 32-bit
    overflow arithmetic, [hash = hash * 31 + charCode] per character. *)
Definition rolling31 (str : jsstring) : Z :=
  fold_left (fun hash char => toInt32 (hash * 31 + Z.of_N char)) str 0.

(** The fingerprint in the words of the specification: the hash of the
    first 300 characters of the trimmed text, followed by up to 50
    characters of the class name. *)
Definition fingerprintAsSpecified (el : Element) : jsstring :=
  toString16 (rolling31 (slice0 300 (trim (textContent el)) ++ slice0 50 (className el))).

(** The element exposes no stable identifier. *)
Definition noStableId (el : Element) : Prop :=
  attrOr "data-message-id" el (attrOr "data-id" el []) = [].

(** The fingerprint of an element. *)
Definition fingerprint (el : Element) : jsstring := hashElement (OfElement el).

(** The identifier [extractMessage] gives to the message of an element
    with fingerprint [h] captured at index [k]. *)
Definition msgId (h : jsstring) (k : nat) : jsstring :=
  js "msg_" ++ h ++ js "_" ++ decimal (N.of_nat k).

(** The message was made from an element with fingerprint [h]. *)
Definition hasFingerprint (h : jsstring) (msg : CapturedMessage) : Prop :=
  exists k, Message.id msg = msgId h k.

(** The content of a message is not empty after trimming. *)
Definition hasText (msg : CapturedMessage) : Prop :=
  trim (Message.content msg) <> [].

(** The elements observed one after the other, whatever the pass. *)
Definition observe (engine : Engine) (platform : Platform)
  (s : ChatScraper) (observed : list Element) : ChatScraper :=
  fold_left (captureElement engine platform) observed s.

(** A sequence of capture passes, each over the elements it finds. *)
Definition runPasses (engine : Engine) (platform : Platform)
  (s : ChatScraper) (passes : list (list Element)) : ChatScraper :=
  fold_left (fun s els => snd (capturePass engine platform s els)) passes s.

(** What the loop of [processMessages] keeps of a list, given the content
    hashes already emitted. *)
Fixpoint dedupFrom (contentHashes : gset jsstring) (l : list CapturedMessage)
  : list CapturedMessage :=
  match l with
  | [] => []
  | msg :: l' =>
      if negb (bool_decide (contentHashOf msg ∈ contentHashes))
         && (0 <? length (trim (Message.content msg)))%nat
      then msg :: dedupFrom ({[ contentHashOf msg ]} ∪ contentHashes) l'
      else dedupFrom contentHashes l'
  end.

(** The test guarding the push in [captureVisibleMessages]. *)
Definition keeps (content : jsstring) : bool :=
  truthy content && (0 <? length (trim content))%nat.

(** The accumulator holds, in order, the messages of the elements [srcs]:
    their fingerprints differ, all are in the seen-set, and each has text. *)
Definition sourced (engine : Engine) (platform : Platform)
  (srcs : list Element) (s : ChatScraper) : Prop :=
  capturedMessages s = imap (fun i el => extractMessage engine el platform i) srcs
  /\ NoDup (fingerprint <$> srcs)
  /\ (forall el, el ∈ srcs ->
       fingerprint el ∈ seenMessageHashes s /\ trim (extractContent el platform) <> []).

(** What capture reads and writes of the scraper: the accumulator and the
    seen-set. *)
Definition store (s : ChatScraper) : list CapturedMessage * gset jsstring :=
  (capturedMessages s, seenMessageHashes s).

(** The store is the one some sequence of capture passes leaves. *)
Definition reached (engine : Engine) (platform : Platform) (s : ChatScraper) : Prop :=
  exists passes, store s = store (runPasses engine platform fresh passes).


(** The orders are [0 .. N-1], in this order. *)
Definition dense (out : list CapturedMessage) : Prop :=
  Message.order <$> out = seq 0 (length out).

(** The page never gets higher: no transition increases the scroll height. *)
Definition neverGrows {W} (page : Page W) : Prop :=
  forall w : W,
    (forall q, scrollHeight page (setScrollTop page q w) <= scrollHeight page w)%N
    /\ (forall q, scrollHeight page (scrollTo page q w) <= scrollHeight page w)%N
    /\ (forall q, scrollHeight page (scrollBy page q w) <= scrollHeight page w)%N
    /\ (forall e, scrollHeight page (dispatchEvent page e w) <= scrollHeight page w)%N
    /\ (forall el, scrollHeight page (click page el w) <= scrollHeight page w)%N
    /\ (forall ms, scrollHeight page (fst (wait page ms w)) <= scrollHeight page w)%N
    /\ (forall p, scrollHeight page (fst (onProgress page p w)) <= scrollHeight page w)%N.

(** A set of worlds the page never leaves, and in which nobody calls
    [stop()]. *)
Definition undisturbed {W} (page : Page W) (inv : W -> Prop) : Prop :=
  forall w : W, inv w ->
    (forall q, inv (setScrollTop page q w))
    /\ (forall q, inv (scrollTo page q w))
    /\ (forall q, inv (scrollBy page q w))
    /\ (forall e, inv (dispatchEvent page e w))
    /\ (forall el, inv (click page el w))
    /\ (forall ms, inv (fst (wait page ms w)) /\ snd (wait page ms w) = false)
    /\ (forall p, inv (fst (onProgress page p w)) /\ snd (onProgress page p w) = false).

(** The machine is in such a world and still capturing. *)
Definition live {W} (inv : W -> Prop) (m : Machine W) : Prop :=
  inv (world m) /\ isCapturing (scraper m) = true.

(** The page is at rest: it stays in [inv], where there is no load-more
    control to click or to see and the scroll height is [height]; and a
    scroll to the top brings it to [atTop], where it stays through waits
    and scroll events, within 5px of the top. *)
Definition atRest {W} (page : Page W) (engine : Engine) (platform : Platform)
  (inv atTop : W -> Prop) (height : N) : Prop :=
  undisturbed page inv
  /\ (forall w, inv w ->
        findLoadMore engine platform (document page w) = None
        /\ hasLoadMoreButton engine platform (document page w) = false
        /\ scrollHeight page w = height
        /\ atTop (scrollTo page (-1000) w))
  /\ (forall w, atTop w ->
        (forall ms, atTop (fst (wait page ms w)))
        /\ (forall e, atTop (dispatchEvent page e w))
        /\ Qle_bool (scrollTop page w) 5 = true).

(** Every capture pass finds the elements [els]. *)
Definition rendersOnly {W} (page : Page W) (platform : Platform)
  (inv : W -> Prop) (els : list Element) : Prop :=
  forall w, inv w -> findMessageElements platform (document page w) = els.

(** The elements differ in fingerprint and in content hash, and each has
    text. *)
Definition distinctMessages (platform : Platform) (els : list Element) : Prop :=
  NoDup (fingerprint <$> els)
  /\ NoDup ((fun e => hashElement (OfPlain (extractContent e platform))) <$> els)
  /\ forall e, e ∈ els -> trim (extractContent e platform) <> [].

(** The machine is live and its store is the one a pass over [els] leaves. *)
Definition settled {W} (engine : Engine) (platform : Platform) (inv : W -> Prop)
  (els : list Element) (m : Machine W) : Prop :=
  live inv m /\ store (scraper m) = store (observe engine platform fresh els).

(** Each event is at least as far as all the events before it. *)
Definition ascending (events : list Progress) : Prop :=
  StronglySorted (fun p q => (progress p <= progress q)%Q) events.


(* ===================================================================== *)
(** ** Further code: the scrollable element, the overlay's view *)
(* ===================================================================== *)

(** What the browser computes of an element for [isScrollable]:
    [getComputedStyle(el).overflowY], [el.scrollHeight], [el.clientHeight]. *)
Record Layout := {
  overflowY : Element -> jsstring;
  scrollHeightOf : Element -> N;
  clientHeightOf : Element -> N
}.

(** The local [isScrollable] of [findScrollableElement]. *)
Definition isScrollable (layout : Layout) (el : Element) : bool :=
  (bool_decide (overflowY layout el = js "auto")
   || bool_decide (overflowY layout el = js "scroll"))
  && (clientHeightOf layout el <? scrollHeightOf layout el)%N.

(** The local [checkChildren(el, depth)]: the children in order, each
    before its own subtree; nothing below [depth > 3]. *)
Fixpoint checkChildren (layout : Layout) (el : Element) (depth : nat) : option Element :=
  if (3 <? depth)%nat then None
  else
    (fix each (children : list Node) : option Element :=
       match children with
       | [] => None
       | TextNode _ :: rest => each rest
       | ElemNode child :: rest =>
           if isScrollable layout child then Some child
           else match checkChildren layout child (S depth) with
                | Some found => Some found
                | None => each rest
                end
       end) (childNodes el).

(** [findScrollableElement(container)].  [parents] is the chain of
    [parentElement] from the container upwards, as far as the loop follows
    it: up to [document.body], which is not in it. *)
Definition findScrollableElement (layout : Layout) (container : Element)
  (parents : list Element) : Element :=
  if isScrollable layout container then container
  else
    match checkChildren layout container 0 with
    | Some childScrollable => childScrollable
    | None =>
        match List.find (isScrollable layout) parents with
        | Some parent => parent
        | None => container
        end
    end.

(** The element children of a list of nodes, with the depth of each below
    the starting element (1 for a child). *)
Fixpoint descendantsToDepth (el : Element) (level : nat) : list (nat * Element) :=
  let 'Elem _ _ _ cs := el in
  (fix go (cs : list Node) : list (nat * Element) :=
     match cs with
     | [] => []
     | TextNode _ :: cs' => go cs'
     | ElemNode c :: cs' => (S level, c) :: descendantsToDepth c (S level) ++ go cs'
     end) cs.

Module Overlay.

(** The loop at the end of [addLog]:
    [while (logContent.children.length > 50) removeChild(firstChild)]. *)
Fixpoint keepLast (entries : list jsstring) : list jsstring :=
  if (50 <? length entries)%nat then
    match entries with
    | _ :: rest => keepLast rest
    | [] => []
    end
  else entries.

(** [addLog(message)] on the entries of the log. *)
Definition addLog (message : jsstring) (logContent : list jsstring) : list jsstring :=
  keepLast (logContent ++ [message]).

(** What the progress callback of [startCapture] writes: the phase message
    and the text of the Messages stat. *)
Record View := {
  phaseMessage : jsstring;
  statMessages : jsstring
}.

(** The callback [startCapture] hands to [captureFullHistory], without its
    call to the progress animation:
    [updatePhaseMessage(progress.message);
     if (progress.count) updateStat('messages', progress.count)]. *)
Definition onCaptureProgress (view : View) (p : Progress) : View :=
  {| phaseMessage := message p;
     statMessages :=
       match count p with
       | Some n => if (n =? 0)%nat then statMessages view else decimal (N.of_nat n)
       | None => statMessages view
       end |}.

End Overlay.

(** Induction over the element tree. *)
Fixpoint Element_tree_ind (P : Element -> Prop)
  (step : forall t a b cs,
      Forall (fun n => match n with ElemNode c => P c | TextNode _ => True end) cs ->
      P (Elem t a b cs))
  (e : Element) : P e :=
  match e as e0 return P e0 with
  | Elem t a b cs =>
  step t a b cs
    ((fix all (cs : list Node)
        : Forall (fun n => match n with ElemNode c => P c | TextNode _ => True end) cs :=
        match cs as cs0
              return Forall (fun n => match n with ElemNode c => P c | TextNode _ => True end)
                            cs0
        with
        | [] => @List.Forall_nil _ _
        | n :: cs' =>
            @List.Forall_cons _ _ n cs'
              (match n return match n with ElemNode c => P c | TextNode _ => True end with
               | ElemNode c => Element_tree_ind P step c
               | TextNode _ => I
               end)
              (all cs')
        end) cs)
  end.

(** The stable identifier [hashElement] reads. *)
Definition stableId (el : Element) : jsstring :=
  attrOr "data-message-id" el (attrOr "data-id" el []).

(** A character [toString(16)] can produce. *)
Definition isHexChar (c : N) : Prop :=
  (c = 45 \/ (48 <= c <= 57) \/ (97 <= c <= 102))%N.

(** The selectors [findMessageElements] goes through, in its order. *)
Definition messageSelectors (platform : Platform) : list Complex :=
  match override chatMessage platform with
  | Some sels => sels
  | None => []
  end ++ genericSelectors.

(** The platform's content selector finds nothing in the element. *)
Definition noPlatformContent (el : Element) (platform : Platform) : Prop :=
  match override messageContent platform with
  | Some sel => querySelector sel el = None
  | None => True
  end.

(** The element has no descendant that one of the cleaning passes touches. *)
Definition plain (el : Element) : Prop :=
  Forall (fun p => matchesAny hiddenSelector (snd p) = false
                   /\ matchesAny navSelector (snd p) = false
                   /\ matchesAny codeSelector (snd p) = false)
         (descendantsFrom [] el).


(** The five events [captureFullHistory] emits itself. *)
Definition eventInitializing : Progress :=
  {| phase := initializing; message := js "Initializing neural extraction matrix...";
     progress := 0; count := None |}.
Definition eventScrolling : Progress :=
  {| phase := scrolling; message := js "Locating temporal message origin point...";
     progress := 2; count := None |}.
Definition eventExtracting : Progress :=
  {| phase := extracting; message := js "Initiating quantum message extraction...";
     progress := 50; count := None |}.
Definition eventFinalizing : Progress :=
  {| phase := finalizing; message := js "Crystallizing message data structures...";
     progress := 95; count := None |}.
Definition eventComplete (n : nat) : Progress :=
  {| phase := complete; message := completeMessage n; progress := 100; count := Some n |}.

(** The accumulator replaced by [l]. *)
Definition withMessages (l : list CapturedMessage) (s : ChatScraper) : ChatScraper :=
  {| capturedMessages := l; isCapturing := isCapturing s;
     seenMessageHashes := seenMessageHashes s; scrollAttempts := scrollAttempts s |}.

(** The count an event carries; 0 when it carries none. *)
Definition reported (p : Progress) : nat :=
  match count p with Some n => n | None => 0%nat end.

(** The variables of phase 1 before its first turn. *)
Definition firstTurn : TopVars :=
  {| previousScrollHeight := -1; previousScrollTop := -1;
     stableCount := 0; iteration := 0 |}.

(** The stability counter of phase 1 is behind its turn counter. *)
Definition behind (v : TopVars) : Prop :=
  (stableCount v < iteration v)%nat
  \/ (iteration v = 0%nat /\ stableCount v = 0%nat /\ previousScrollHeight v < 0).

(** The id of the code block made from the code element of index [i]. *)
Definition codeLabel (i : nat) : jsstring := js "code_" ++ decimal (N.of_nat i).

Module Cases.


(** A layout in which the elements of class [scroller] scroll. *)
Definition layout : Layout :=
  {| overflowY := fun el => if includes (js "scroller") (className el)
                            then js "auto" else js "visible";
     scrollHeightOf := fun _ => 4000%N;
     clientHeightOf := fun _ => 800%N |}.

(** [<div class="chat-container"><div><div class="scroller"></div></div></div>] *)
Definition nested : Element :=
  Sample.el "div" [Sample.kv "class" "chat-container"]
    [ElemNode (Sample.el "div" []
       [ElemNode (Sample.el "div" [Sample.kv "class" "scroller"] [])])].

(** A message with a fenced block:
    [<div class="message"><pre class="language-js"><code>let x</code></pre></div>] *)
Definition withCode : Element :=
  Sample.el "div" [Sample.kv "class" "message"]
    [ElemNode (Sample.el "pre" [Sample.kv "class" "language-js"]
       [ElemNode (Sample.el "code" [] [Sample.text "let x"])])].

(** Two renderings of one text under different stable ids. *)
Definition remountA : Element :=
  Sample.el "div" [Sample.kv "class" "message"; Sample.kv "data-message-id" "a"]
    [ElemNode (Sample.el "p" [] [Sample.text "Same text"])].
Definition remountB : Element :=
  Sample.el "div" [Sample.kv "class" "message"; Sample.kv "data-message-id" "b"]
    [ElemNode (Sample.el "p" [] [Sample.text "Same text"])].

(** A message of text only. *)
Definition simple : Element :=
  Sample.el "div" [Sample.kv "class" "message"]
    [ElemNode (Sample.el "span" [] [Sample.text "  Plain words  "])].

(** A page like [Sample.still] on which the progress callback calls
    [stop()] at every event. *)
Definition stopping : Page Q :=
  {| document := fun _ => Sample.documentOf (Sample.rendered 3);
     scrollHeight := fun _ => 4000%N;
     scrollTop := fun w => w;
     clientHeight := fun _ => 800%N;
     setScrollTop := fun q _ => Sample.clamp q;
     scrollTo := fun q _ => Sample.clamp q;
     scrollBy := fun q w => Sample.clamp (w + q);
     dispatchEvent := fun _ w => w;
     click := fun _ w => w;
     wait := fun _ w => (w, false);
     onProgress := fun _ w => (w, true) |}.

End Cases.

(* ===================================================================== *)
(** * Properties *)
(* ===================================================================== *)

(* --------------------------------------------------------------------- *)
(** ** The rolling hash *)

Section Hashing.

Lemma toInt32_range z : - 2 ^ 31 <= toInt32 z < 2 ^ 31.
Proof.
  unfold toInt32.
  pose proof (Z.mod_pos_bound (z + 2 ^ 31) (2 ^ 32) ltac:(lia)). lia.
Qed.

Lemma toInt32_small z : - 2 ^ 31 <= z < 2 ^ 31 -> toInt32 z = z.
Proof. intros H. unfold toInt32. rewrite Z.mod_small; lia. Qed.

Lemma toInt32_add_l a b : toInt32 (toInt32 a + b) = toInt32 (a + b).
Proof.
  unfold toInt32. f_equal.
  replace ((a + 2 ^ 31) mod 2 ^ 32 - 2 ^ 31 + b + 2 ^ 31)
    with ((a + 2 ^ 31) mod 2 ^ 32 + b) by lia.
  rewrite Zplus_mod_idemp_l. f_equal. lia.
Qed.

Lemma toInt32_mul_l a k : toInt32 (toInt32 a * k) = toInt32 (a * k).
Proof.
  unfold toInt32. f_equal.
  replace (((a + 2 ^ 31) mod 2 ^ 32 - 2 ^ 31) * k + 2 ^ 31)
    with ((a + 2 ^ 31) mod 2 ^ 32 * k + (2 ^ 31 - 2 ^ 31 * k)) by lia.
  rewrite Zplus_mod, Zmult_mod_idemp_l, <- Zplus_mod. f_equal. lia.
Qed.

Lemma band_diag z : band z z = toInt32 z.
Proof. unfold band. apply Z.land_diag. Qed.

Lemma shl_5 z : shl z 5 = toInt32 (z * 32).
Proof.
  unfold shl. change (5 mod 32) with 5. rewrite Z.shiftl_mul_pow2 by lia.
  change (2 ^ 5) with 32. apply toInt32_mul_l.
Qed.

(** The loop body of [hashString] is multiplication by 31 and addition of
    the code unit, wrapped to a signed 32-bit integer. *)
Lemma hashStep_wraps hash char : hashStep hash char = toInt32 (hash * 31 + Z.of_N char).
Proof.
  unfold hashStep. rewrite band_diag, shl_5.
  replace (toInt32 (hash * 32) - hash + Z.of_N char)
    with (toInt32 (hash * 32) + (- hash + Z.of_N char)) by lia.
  rewrite toInt32_add_l. f_equal. lia.
Qed.

End Hashing.

Lemma hashLoop_rolling31 str : hashLoop str = rolling31 str.
Proof.
  unfold hashLoop, rolling31. generalize 0.
  induction str as [|c str IH]; intros h; simpl; [reflexivity|].
  rewrite hashStep_wraps. apply IH.
Qed.

Lemma orElse_nil s : orElse s [] = s.
Proof. destruct s; reflexivity. Qed.

Lemma slice0_if_truthy n s : (if truthy s then slice0 n s else []) = slice0 n s.
Proof. destruct s; [destruct n|]; reflexivity. Qed.

(** Without a stable id the fingerprint is [hashString] of the trimmed cut
    of the text followed by the cut of the class name. *)
Lemma hashElement_content (el : Element) :
  noStableId el ->
  hashElement (OfElement el)
  = hashString (trim (slice0 300 (textContent el)) ++ slice0 50 (className el)).
Proof.
  intros Hid. unfold hashElement, noStableId in *. rewrite Hid. simpl truthy. cbv iota.
  now rewrite !orElse_nil, slice0_if_truthy.
Qed.

(** C4, as the code has it: without a stable id the fingerprint is the
    hexadecimal rendering of the rolling hash (multiply by 31, add the code
    unit, wrap to 32 bits signed) of the text cut to its first 300 code
    units and then trimmed, followed by the first 50 code units of the class
    name.  [hashElement] is a function, so equal inputs give equal
    fingerprints. *)
Theorem hashElement_rolling (el : Element) :
  noStableId el ->
  hashElement (OfElement el)
  = toString16 (rolling31 (trim (slice0 300 (textContent el)) ++ slice0 50 (className el))).
Proof.
  intros Hid. rewrite (hashElement_content el Hid). unfold hashString.
  now rewrite hashLoop_rolling31.
Qed.

Lemma hashElement_rolling_witness :
  noStableId Sample.padded /\
  hashElement (OfElement Sample.padded)
  = toString16 (rolling31 (trim (slice0 300 (textContent Sample.padded))
                           ++ slice0 50 (className Sample.padded))).
Proof.
  split; [reflexivity | apply (hashElement_rolling Sample.padded); reflexivity].
Defined.

Lemma trimStart_length s : (length (trimStart s) <= length s)%nat.
Proof.
  induction s as [|c s IH]; simpl; [lia|]. destruct (isWhiteSpace c); simpl; lia.
Qed.

Lemma trim_length s : (length (trim s) <= length s)%nat.
Proof.
  unfold trim, trimEnd. rewrite length_rev.
  etransitivity; [apply trimStart_length|]. rewrite length_rev. apply trimStart_length.
Qed.

(** For a text of at most 300 code units the cut does nothing, and the
    fingerprint is the one the specification words. *)
Lemma hashElement_as_specified_when_short (el : Element) :
  noStableId el -> (length (textContent el) <= 300)%nat ->
  hashElement (OfElement el) = fingerprintAsSpecified el.
Proof.
  intros Hid Hlen. rewrite (hashElement_content el Hid).
  unfold hashString, fingerprintAsSpecified, slice0. rewrite hashLoop_rolling31.
  rewrite (firstn_all2 (textContent el)) by exact Hlen.
  rewrite (firstn_all2 (trim (textContent el))); [reflexivity|].
  etransitivity; [apply trim_length | exact Hlen].
Qed.

(** C4, as the specification words it, fails: trimming before the cut and
    cutting before the trim differ once the text is longer than 300. *)
Lemma hashElement_not_as_specified :
  noStableId Sample.padded /\
  hashElement (OfElement Sample.padded) <> fingerprintAsSpecified Sample.padded.
Proof. split; [reflexivity | vm_compute; discriminate]. Qed.

(* --------------------------------------------------------------------- *)
(** ** Message identifiers determine the fingerprint *)

Section Identifiers.

Lemma decDigits_digit u c : c ∈ decDigits u -> (48 <= c <= 57)%N.
Proof.
  induction u; simpl; intros H;
    try (apply elem_of_cons in H as [-> | H]; [lia | auto]).
  inversion H.
Qed.

Lemma decDigits_inj u u' : decDigits u = decDigits u' -> u = u'.
Proof.
  revert u'. induction u; intros u' H; destruct u'; simpl in H;
    try discriminate; try reflexivity;
    injection H as H; f_equal; auto.
Qed.

Lemma decimal_inj n n' : decimal n = decimal n' -> n = n'.
Proof.
  unfold decimal. intros H%decDigits_inj.
  rewrite <- (DecimalN.Unsigned.of_to n), <- (DecimalN.Unsigned.of_to n').
  now f_equal.
Qed.

(** A separator that occurs in neither tail splits a list in one way. *)
Lemma split_at_separator {A} (x : A) (l l' r r' : list A) :
  x ∉ r -> x ∉ r' -> l ++ x :: r = l' ++ x :: r' -> l = l' /\ r = r'.
Proof.
  revert l'. induction l as [|a l IH]; intros [|a' l'] Hr Hr' H; simpl in H.
  - injection H as ->. auto.
  - injection H as <- ->. exfalso. apply Hr. apply elem_of_app. right. left.
  - injection H as -> <-. exfalso. apply Hr'. apply elem_of_app. right. left.
  - injection H as -> H. destruct (IH l' Hr Hr' H) as [-> ->]. auto.
Qed.

Lemma msgId_inj h k h' k' : msgId h k = msgId h' k' -> h = h' /\ k = k'.
Proof.
  unfold msgId. intros H. apply app_inv_head in H.
  change (js "_") with [95%N] in H. simpl in H.
  apply split_at_separator in H.
  - destruct H as [-> H%decimal_inj]. split; [reflexivity | lia].
  - intros Hin%decDigits_digit. lia.
  - intros Hin%decDigits_digit. lia.
Qed.

Lemma hasFingerprint_unique h h' msg :
  hasFingerprint h msg -> hasFingerprint h' msg -> h = h'.
Proof.
  intros [k Hk] [k' Hk']. rewrite Hk in Hk'. now apply msgId_inj in Hk'.
Qed.

End Identifiers.

(* --------------------------------------------------------------------- *)
(** ** One observed element *)

Section Capture.
Context (engine : Engine) (platform : Platform).

Local Abbreviation extract := (extractMessage engine).
Local Abbreviation step := (captureElement engine platform).

Lemma trim_nil : trim [] = [].
Proof. reflexivity. Qed.

Lemma keeps_true content : keeps content = true <-> trim content <> [].
Proof.
  unfold keeps. destruct content as [|c content]; simpl truthy.
  - simpl. split; [discriminate | intros H; now contradiction H].
  - rewrite andb_true_l, Nat.ltb_lt.
    destruct (trim (c :: content)); simpl; split; intros; try lia; congruence.
Qed.

Lemma extract_id el k : Message.id (extract el platform k) = msgId (fingerprint el) k.
Proof. reflexivity. Qed.

Lemma extract_content el k :
  Message.content (extract el platform k) = extractContent el platform.
Proof. reflexivity. Qed.

Lemma extract_order el k : Message.order (extract el platform k) = k.
Proof. reflexivity. Qed.

Lemma snd_captureCounting n s el :
  snd (captureCounting engine platform (n, s) el) = step s el.
Proof.
  unfold captureElement, captureCounting.
  repeat match goal with |- context [if ?b then _ else _] => destruct b end; reflexivity.
Qed.

Lemma step_seen s el :
  fingerprint el ∈ seenMessageHashes s -> step s el = s.
Proof.
  intros H. unfold captureElement, captureCounting. fold (fingerprint el).
  rewrite bool_decide_eq_true_2 by exact H. reflexivity.
Qed.

Lemma step_kept s el :
  fingerprint el ∉ seenMessageHashes s ->
  trim (extractContent el platform) <> [] ->
  step s el = push (extract el platform (length (capturedMessages s)))
                   (markSeen (fingerprint el) s).
Proof.
  intros H Hc. unfold captureElement, captureCounting. fold (fingerprint el).
  rewrite bool_decide_eq_false_2 by exact H. simpl negb. cbv iota.
  apply keeps_true in Hc. unfold keeps in Hc. rewrite extract_content.
  simpl capturedMessages. rewrite Hc. reflexivity.
Qed.

Lemma step_dropped s el :
  fingerprint el ∉ seenMessageHashes s ->
  trim (extractContent el platform) = [] ->
  step s el = markSeen (fingerprint el) s.
Proof.
  intros H Hc. unfold captureElement, captureCounting. fold (fingerprint el).
  rewrite bool_decide_eq_false_2 by exact H. simpl negb. cbv iota.
  rewrite extract_content.
  assert (keeps (extractContent el platform) = false) as Hk.
  { destruct (keeps (extractContent el platform)) eqn:E; [|reflexivity].
    apply keeps_true in E. contradiction. }
  unfold keeps in Hk. rewrite Hk. reflexivity.
Qed.

(** The three cases of an observation. *)
Lemma step_cases s el :
  (step s el = s /\ fingerprint el ∈ seenMessageHashes s)
  \/ (step s el = markSeen (fingerprint el) s
      /\ (fingerprint el ∉ seenMessageHashes s) /\ trim (extractContent el platform) = [])
  \/ (step s el = push (extract el platform (length (capturedMessages s)))
                       (markSeen (fingerprint el) s)
      /\ (fingerprint el ∉ seenMessageHashes s) /\ trim (extractContent el platform) <> []).
Proof.
  destruct (decide (fingerprint el ∈ seenMessageHashes s)) as [Hs|Hs].
  - left. auto using step_seen.
  - destruct (decide (trim (extractContent el platform) = [])) as [Hc|Hc].
    + right; left. auto using step_dropped.
    + right; right. auto using step_kept.
Qed.

Lemma capturePass_observe s els :
  snd (capturePass engine platform s els) = observe engine platform s els.
Proof.
  unfold capturePass, observe. generalize 0%nat. revert s.
  induction els as [|el els IH]; intros s n; cbn [fold_left]; [reflexivity|].
  rewrite <- (snd_captureCounting n).
  destruct (captureCounting engine platform (n, s) el) as [n' s'].
  apply IH.
Qed.

Lemma observe_app s l l' :
  observe engine platform s (l ++ l') = observe engine platform (observe engine platform s l) l'.
Proof. apply fold_left_app. Qed.

(** Passes are observations in a row. *)
Lemma runPasses_observe s passes :
  runPasses engine platform s passes = observe engine platform s (concat passes).
Proof.
  revert s. induction passes as [|els passes IH]; intros s; simpl; [reflexivity|].
  rewrite observe_app, <- (capturePass_observe s els). apply IH.
Qed.

End Capture.

(* --------------------------------------------------------------------- *)
(** ** The accumulator during capture *)

Section Accumulation.
Context (engine : Engine) (platform : Platform).

Local Abbreviation extract := (extractMessage engine).
Local Abbreviation step := (captureElement engine platform).
Local Abbreviation observe := (observe engine platform).

Lemma sourced_fresh : sourced engine platform [] fresh.
Proof.
  split; [reflexivity|]. split; [apply NoDup_nil_2|].
  intros el H. inversion H.
Qed.

Lemma step_marks s el : fingerprint el ∈ seenMessageHashes (step s el).
Proof.
  destruct (step_cases engine platform s el) as [[-> H]|[[-> _]|[-> _]]];
    [exact H | simpl; set_solver | simpl; set_solver].
Qed.

Lemma step_seen_mono s el h :
  h ∈ seenMessageHashes s -> h ∈ seenMessageHashes (step s el).
Proof.
  intros Hh. destruct (step_cases engine platform s el) as [[-> H]|[[-> _]|[-> _]]];
    [exact Hh | simpl; set_solver | simpl; set_solver].
Qed.

Lemma sourced_step srcs s el :
  sourced engine platform srcs s ->
  exists srcs', sourced engine platform srcs' (step s el)
                /\ (srcs' = srcs \/ srcs' = srcs ++ [el]).
Proof.
  intros (Hcap & Hnd & Hall).
  destruct (step_cases engine platform s el) as [[-> H]|[[-> (Hs & Hc)]|[-> (Hs & Hc)]]].
  - exists srcs. split; [|now left]. exact (conj Hcap (conj Hnd Hall)).
  - exists srcs. split; [|now left]. repeat split; try assumption.
    + simpl. apply elem_of_union_r. now apply Hall.
    + now apply Hall.
  - exists (srcs ++ [el]). split; [|now right]. repeat split.
    + simpl. rewrite Hcap, imap_app, length_imap. simpl.
      now rewrite Nat.add_0_r.
    + rewrite fmap_app. apply NoDup_app. repeat split; [assumption| |].
      * intros h Hh Hh'. apply list_elem_of_fmap in Hh as (el' & -> & Hel').
        simpl in Hh'. apply list_elem_of_singleton in Hh'.
        pose proof (Hall el' Hel') as [Hin _]. rewrite Hh' in Hin. contradiction.
      * simpl. apply NoDup_singleton.
    + simpl. apply elem_of_app in H as [H|H].
      * apply elem_of_union_r. now apply Hall.
      * apply list_elem_of_singleton in H as ->.
        apply elem_of_union_l. now apply elem_of_singleton.
    + apply elem_of_app in H as [H|H].
      * now apply Hall.
      * now apply list_elem_of_singleton in H as ->.
Qed.

Lemma sourced_observe srcs s observed :
  sourced engine platform srcs s ->
  exists srcs', sourced engine platform srcs' (observe s observed).
Proof.
  revert srcs s. induction observed as [|el observed IH]; intros srcs s H; simpl.
  - eauto.
  - destruct (sourced_step srcs s el H) as (srcs' & H' & _). eauto.
Qed.

(** Every reachable accumulator has its sources. *)
Lemma sourced_passes passes :
  exists srcs, sourced engine platform srcs (runPasses engine platform fresh passes).
Proof.
  rewrite runPasses_observe. apply (sourced_observe []), sourced_fresh.
Qed.

Lemma sourced_orders srcs s :
  sourced engine platform srcs s ->
  Message.order <$> capturedMessages s = seq 0 (length (capturedMessages s)).
Proof.
  intros (-> & _). rewrite fmap_imap, length_imap.
  rewrite <- (list_fmap_id (seq 0 (length srcs))), <- (imap_seq_0 srcs id).
  apply imap_ext. reflexivity.
Qed.

Lemma sourced_lookup srcs s i msg :
  sourced engine platform srcs s ->
  capturedMessages s !! i = Some msg ->
  exists el, srcs !! i = Some el /\ msg = extract el platform i
             /\ trim (extractContent el platform) <> [].
Proof.
  intros (Hcap & _ & Hall) Hi. rewrite Hcap, list_lookup_imap in Hi.
  destruct (srcs !! i) as [el|] eqn:E; simpl in Hi; [|discriminate].
  injection Hi as <-. exists el. repeat split.
  apply (Hall el). eapply list_elem_of_lookup_2, E.
Qed.


End Accumulation.

(* --------------------------------------------------------------------- *)
(** ** Finalisation: sort, content deduplication, renumbering *)

Section Finalisation.

Lemma insertByOrder_head m l :
  (forall x, head l = Some x -> (Message.order m <= Message.order x)%nat) ->
  insertByOrder m l = m :: l.
Proof.
  destruct l as [|x l]; intros H; simpl; [reflexivity|].
  rewrite (proj2 (Nat.leb_le _ _)); [reflexivity | now apply H].
Qed.

(** A list whose orders are [0, 1, 2, ...] from some start is left as it
    is by the sort. *)
Lemma sortByOrder_seq l k :
  Message.order <$> l = seq k (length l) -> sortByOrder l = l.
Proof.
  revert k. induction l as [|m l IH]; intros k H; simpl; [reflexivity|].
  simpl in H. injection H as Hm Hl. rewrite (IH (S k) Hl).
  apply insertByOrder_head. intros x Hx. destruct l as [|y l]; [discriminate|].
  injection Hx as ->. simpl in Hl. injection Hl as -> _. lia.
Qed.

Lemma insertByOrder_perm m l : insertByOrder m l ≡ₚ m :: l.
Proof.
  induction l as [|x l IH]; simpl; [reflexivity|].
  destruct (Message.order m <=? Message.order x)%nat; [reflexivity|].
  rewrite IH. apply Permutation_swap.
Qed.

Lemma sortByOrder_perm l : sortByOrder l ≡ₚ l.
Proof.
  induction l as [|m l IH]; simpl; [reflexivity|].
  now rewrite insertByOrder_perm, IH.
Qed.

Lemma dedup_from l :
  forall unique contentHashes,
    fst (fold_left dedupStep l (unique, contentHashes))
    = unique ++ dedupFrom contentHashes l.
Proof.
  induction l as [|m l IH]; intros u H; cbn [fold_left dedupFrom].
  - simpl. now rewrite app_nil_r.
  - unfold dedupStep at 2.
    destruct (negb (bool_decide (contentHashOf m ∈ H))
              && (0 <? length (trim (Message.content m)))%nat).
    + rewrite IH, <- app_assoc. reflexivity.
    + apply IH.
Qed.

Lemma dedup_dedupFrom l : dedup l = dedupFrom ∅ l.
Proof. unfold dedup. now rewrite dedup_from. Qed.

Lemma dedupFrom_sublist H l : dedupFrom H l `sublist_of` l.
Proof.
  revert H. induction l as [|m l IH]; intros H; simpl; [constructor|].
  destruct (_ && _); [apply sublist_skip | apply sublist_cons]; apply IH.
Qed.

Lemma dedupFrom_elem H l m :
  m ∈ dedupFrom H l -> (contentHashOf m ∉ H) /\ hasText m.
Proof.
  revert H. induction l as [|x l IH]; intros H Hm; simpl in Hm; [inversion Hm|].
  destruct (negb (bool_decide (contentHashOf x ∈ H))) eqn:E1;
    destruct (0 <? length (trim (Message.content x)))%nat eqn:E2; simpl in Hm;
    try (now apply IH).
  apply elem_of_cons in Hm as [-> | Hm].
  - apply negb_true_iff, bool_decide_eq_false in E1. apply Nat.ltb_lt in E2.
    split; [assumption|]. unfold hasText. destruct (trim _); simpl in E2; [lia | discriminate].
  - pose proof (IH _ Hm) as [Hn Ht]. split; [|assumption].
    intros Hin. apply Hn. now apply elem_of_union_r.
Qed.

Lemma dedupFrom_NoDup H l : NoDup (contentHashOf <$> dedupFrom H l).
Proof.
  revert H. induction l as [|x l IH]; intros H; simpl; [apply NoDup_nil_2|].
  destruct (_ && _); [|apply IH].
  rewrite fmap_cons. apply NoDup_cons_2; [|apply IH].
  intros Hin. apply list_elem_of_fmap in Hin as (m & Hm & Hin).
  apply dedupFrom_elem in Hin as [Hin _]. rewrite <- Hm in Hin. set_solver.
Qed.

(** A message with text is represented: its content hash was already
    emitted, or one kept message carries it. *)
Lemma dedupFrom_covers H l m :
  m ∈ l -> hasText m ->
  contentHashOf m ∈ H
  \/ exists m', m' ∈ dedupFrom H l /\ contentHashOf m' = contentHashOf m.
Proof.
  revert H. induction l as [|x l IH]; intros H Hm Ht; [inversion Hm|].
  simpl. apply elem_of_cons in Hm as [-> | Hm].
  - destruct (decide (contentHashOf x ∈ H)) as [Hin|Hin]; [now left|right].
    rewrite (bool_decide_eq_false_2 _ Hin). simpl negb.
    assert ((0 <? length (trim (Message.content x)))%nat = true) as ->.
    { apply Nat.ltb_lt. unfold hasText in Ht. destruct (trim _); [congruence | simpl; lia]. }
    simpl. exists x. split; [left | reflexivity].
  - destruct (_ && _).
    + destruct (IH ({[contentHashOf x]} ∪ H) Hm Ht) as [Hin | (m' & Hm' & He)].
      * apply elem_of_union in Hin as [Hin | Hin]; [|now left].
        apply elem_of_singleton in Hin. right. exists x. split; [left | now symmetry].
      * right. exists m'. split; [now right | assumption].
    + now apply IH.
Qed.

Lemma renumber_id i m : Message.id (renumber i m) = Message.id m.
Proof. reflexivity. Qed.

Lemma renumber_content i m : Message.content (renumber i m) = Message.content m.
Proof. reflexivity. Qed.


Lemma renumber_fingerprint h i m : hasFingerprint h (renumber i m) <-> hasFingerprint h m.
Proof. reflexivity. Qed.

Lemma imap_renumber_orders l : Message.order <$> imap renumber l = seq 0 (length l).
Proof.
  rewrite fmap_imap.
  rewrite <- (list_fmap_id (seq 0 (length l))), <- (imap_seq_0 l id).
  apply imap_ext. reflexivity.
Qed.

Lemma imap_renumber_hashes l : contentHashOf <$> imap renumber l = contentHashOf <$> l.
Proof. rewrite fmap_imap, <- imap_const. apply imap_ext. reflexivity. Qed.

Lemma elem_of_imap_renumber m l :
  m ∈ imap renumber l -> exists i m0, l !! i = Some m0 /\ m = renumber i m0.
Proof.
  intros H. apply elem_of_lookup_imap in H as (i & m0 & -> & H). eauto.
Qed.

(** What [processMessages] returns, for any accumulator: the messages kept
    by the content pass over the sorted accumulator, renumbered. *)
Lemma processMessages_kept s :
  processMessages s = imap renumber (dedupFrom ∅ (sortByOrder (capturedMessages s))).
Proof. unfold processMessages. now rewrite dedup_dedupFrom. Qed.

Lemma processMessages_elem s m :
  m ∈ processMessages s ->
  exists m0, m0 ∈ capturedMessages s /\ hasText m0 /\ m = renumber (Message.order m) m0.
Proof.
  rewrite processMessages_kept. intros H.
  apply elem_of_imap_renumber in H as (i & m0 & Hi & ->).
  apply list_elem_of_lookup_2 in Hi. exists m0.
  pose proof (dedupFrom_elem _ _ _ Hi) as [_ Ht].
  split; [|split; [assumption | reflexivity]].
  rewrite <- (sortByOrder_perm (capturedMessages s)).
  eapply elem_of_sublist; [exact Hi | apply dedupFrom_sublist].
Qed.

End Finalisation.

(* --------------------------------------------------------------------- *)
(** ** The store across the two phases *)

Section Stores.
Context {W : Type} (page : Page W) (engine : Engine) (platform : Platform).

Lemma step_store s t el :
  store s = store t ->
  store (captureElement engine platform s el) = store (captureElement engine platform t el).
Proof.
  unfold store. intros H. injection H as Hc Hs.
  unfold captureElement, captureCounting. rewrite Hs.
  destruct (negb _); [|simpl; congruence].
  simpl capturedMessages. rewrite Hc.
  destruct (_ && _); simpl; congruence.
Qed.

Lemma observe_store s t els :
  store s = store t ->
  store (observe engine platform s els) = store (observe engine platform t els).
Proof.
  revert s t. induction els as [|el els IH]; intros s t H; simpl; [assumption|].
  apply IH, step_store, H.
Qed.

Lemma reached_fresh : reached engine platform fresh.
Proof. exists []. reflexivity. Qed.

Lemma reached_pass s els :
  reached engine platform s ->
  reached engine platform (snd (capturePass engine platform s els)).
Proof.
  intros [passes H]. exists (passes ++ [els]).
  unfold runPasses. rewrite fold_left_app. simpl.
  rewrite !capturePass_observe. now apply observe_store.
Qed.

Lemma reached_store s t :
  store s = store t -> reached engine platform t -> reached engine platform s.
Proof. intros H [passes Ht]. exists passes. congruence. Qed.

Lemma store_stop s : store (stop s) = store s.
Proof. reflexivity. Qed.

Lemma store_setAttempts n s : store (setAttempts n s) = store s.
Proof. reflexivity. Qed.

Lemma store_waitFor ms (m : Machine W) :
  store (scraper (waitFor page ms m)) = store (scraper m).
Proof. unfold waitFor. destruct (wait page ms (world m)) as [w []]; reflexivity. Qed.

Lemma store_report p (m : Machine W) :
  store (scraper (report page p m)) = store (scraper m).
Proof. unfold report. destruct (onProgress page p (world m)) as [w []]; reflexivity. Qed.

Lemma store_tryClick (m : Machine W) :
  store (scraper (snd (tryClickLoadMore page engine platform m))) = store (scraper m).
Proof. unfold tryClickLoadMore. destruct (findLoadMore _ _ _); reflexivity. Qed.

Lemma reached_capture (m : Machine W) :
  reached engine platform (scraper m) ->
  reached engine platform (scraper (capture page engine platform m)).
Proof. intros H. simpl. unfold captureVisibleMessages. now apply reached_pass. Qed.

Lemma store_topBody v (m : Machine W) :
  store (scraper (snd (topBody page engine platform v m))) = store (scraper m).
Proof.
  unfold topBody.
  destruct (tryClickLoadMore page engine platform (onScraper (setAttempts (S (iteration v))) m))
    as [clicked m1] eqn:E.
  assert (store (scraper m1) = store (scraper m)) as H1.
  { change m1 with (snd (clicked, m1)). rewrite <- E, store_tryClick. reflexivity. }
  cbv zeta.
  repeat match goal with
         | |- context [if ?b then _ else _] => destruct b
         end;
    cbn [snd]; rewrite ?store_report; unfold triggerScrollEvents; cbn [fold_left onWorld scraper];
    rewrite ?store_waitFor; exact H1.
Qed.

Lemma store_topLoop fuel v (m : Machine W) :
  store (scraper (snd (topLoop page engine fuel platform v m))) = store (scraper m).
Proof.
  revert v m. induction fuel as [|fuel IH]; intros v m; simpl;
    destruct (_ && _); try reflexivity.
  pose proof (store_topBody v m) as Hb.
  destruct (topBody page engine platform v m) as [[broke v'] m'].
  simpl in Hb. destruct broke; [exact Hb|]. now rewrite IH.
Qed.

Lemma store_scrollToAbsoluteTop fuel (m : Machine W) :
  store (scraper (snd (scrollToAbsoluteTop page engine fuel platform m))) = store (scraper m).
Proof.
  unfold scrollToAbsoluteTop. cbv zeta. rewrite store_topLoop, store_waitFor. reflexivity.
Qed.

Lemma reached_sweepAdvance scrollStep v (m : Machine W) :
  reached engine platform (scraper m) ->
  reached engine platform (scraper (snd (sweepAdvance page engine platform scrollStep v m))).
Proof.
  intros H. unfold sweepAdvance. cbv zeta. cbn [snd].
  eapply reached_store; [apply store_report|].
  apply reached_capture.
  eapply reached_store; [apply store_waitFor|].
  unfold triggerScrollEvents. cbn [fold_left onWorld scraper].
  eapply reached_store; [apply store_waitFor|]. exact H.
Qed.

Lemma reached_sweepBody scrollStep v (m : Machine W) :
  reached engine platform (scraper m) ->
  reached engine platform (scraper (snd (sweepBody page engine platform scrollStep v m))).
Proof.
  intros H. unfold sweepBody.
  pose proof (reached_sweepAdvance scrollStep v m H) as Ha.
  destruct (sweepAdvance page engine platform scrollStep v m) as [total m1].
  cbn [snd] in Ha. cbv zeta.
  destruct (atBottomOf page (world m1)).
  - cbn [snd]. apply reached_capture.
    eapply reached_store; [apply store_waitFor|]. cbn [onWorld scraper].
    apply (reached_capture (waitFor page 500 m1)).
    eapply reached_store; [apply store_waitFor|]. exact Ha.
  - destruct (_ && _); exact Ha.
Qed.

Lemma reached_sweepLoop fuel scrollStep v (m : Machine W) :
  reached engine platform (scraper m) ->
  reached engine platform (scraper (snd (sweepLoop page engine fuel platform scrollStep v m))).
Proof.
  revert v m. induction fuel as [|fuel IH]; intros v m H; simpl;
    destruct (isCapturing (scraper m)); try exact H.
  pose proof (reached_sweepBody scrollStep v m H) as Hb.
  destruct (sweepBody page engine platform scrollStep v m) as [[[e|] v'] m'];
    cbn [snd] in *; [exact Hb | now apply IH].
Qed.

Lemma reached_scrollAndCaptureAll fuel (m : Machine W) :
  reached engine platform (scraper m) ->
  reached engine platform (scraper (snd (scrollAndCaptureAll page engine fuel platform m))).
Proof.
  intros H. unfold scrollAndCaptureAll. cbv zeta. apply reached_sweepLoop.
  apply reached_capture. eapply reached_store; [apply store_waitFor|]. exact H.
Qed.

Lemma processMessages_store s t :
  store s = store t -> processMessages s = processMessages t.
Proof. unfold store, processMessages. intros H. injection H as -> _. reflexivity. Qed.

(** Whatever [captureFullHistory] returns is the finalisation of the store
    some sequence of capture passes leaves. *)
Lemma captureFullHistory_reached fuel (w : W) out m :
  captureFullHistory page engine fuel platform w = Some (Returned out, m) ->
  exists passes, out = processMessages (runPasses engine platform fresh passes).
Proof.
  unfold captureFullHistory. cbv zeta.
  set (m0 := report page _ {| scraper := fresh; world := w; trace := [] |}).
  destruct (findChatContainer platform (document page (world m0))); [|discriminate].
  set (m1 := report page _ m0).
  pose proof (store_scrollToAbsoluteTop fuel m1) as H1.
  destruct (scrollToAbsoluteTop page engine fuel platform m1) as [[[] v1] m2]; [|discriminate].
  cbn [snd] in H1.
  set (m3 := report page _ m2).
  assert (reached engine platform (scraper m3)) as H3.
  { eapply reached_store; [|apply reached_fresh].
    unfold m3. rewrite store_report, H1. unfold m1. rewrite store_report.
    unfold m0. rewrite store_report. reflexivity. }
  pose proof (reached_scrollAndCaptureAll fuel m3 H3) as H4.
  destruct (scrollAndCaptureAll page engine fuel platform m3) as [[[ex|] v2] m4]; [|discriminate].
  cbn [snd] in H4. intros H. injection H as <- _.
  destruct H4 as [passes Hp]. exists passes.
  apply processMessages_store. now rewrite store_report.
Qed.

End Stores.

(* --------------------------------------------------------------------- *)
(** ** Deduplication, order and empty content *)

Section Output.
Context (engine : Engine) (platform : Platform).

Local Abbreviation extract := (extractMessage engine).




Lemma passes_sorted passes :
  sortByOrder (capturedMessages (runPasses engine platform fresh passes))
  = capturedMessages (runPasses engine platform fresh passes).
Proof.
  destruct (sourced_passes engine platform passes) as [srcs H].
  eapply sortByOrder_seq, sourced_orders, H.
Qed.

Lemma passes_hasText passes m :
  m ∈ capturedMessages (runPasses engine platform fresh passes) -> hasText m.
Proof.
  destruct (sourced_passes engine platform passes) as [srcs H]. intros Hm.
  apply list_elem_of_lookup in Hm as [i Hi].
  destruct (sourced_lookup _ _ _ _ _ _ H Hi) as (el & _ & -> & Ht). exact Ht.
Qed.



End Output.


Section Order.
Context (engine : Engine) (platform : Platform).

Lemma processMessages_dense s : dense (processMessages s).
Proof.
  unfold dense. rewrite processMessages_kept, length_imap. apply imap_renumber_orders.
Qed.

(** C2: the orders of the output are 0..N-1 in this order (no gap, no
    repeat, ascending), for any accumulator.  After any sequence of capture
    passes the accumulator already carries the capture-time orders 0, 1, 2,
    ... in sequence, the output is the renumbering of a sublist of it, so
    the retained messages keep their capture-time order, and every message
    left out has its content hash carried by a retained one.  The same
    holds for whatever [captureFullHistory] returns. *)
Theorem order_density :
  (forall s, dense (processMessages s))
  /\ (forall passes,
        let s := runPasses engine platform fresh passes in
        Message.order <$> capturedMessages s = seq 0 (length (capturedMessages s))
        /\ exists kept,
             kept `sublist_of` capturedMessages s
             /\ processMessages s = imap renumber kept
             /\ forall msg, msg ∈ capturedMessages s ->
                  exists msg', msg' ∈ kept /\ contentHashOf msg' = contentHashOf msg)
  /\ (forall W (page : Page W) fuel w out m,
        captureFullHistory page engine fuel platform w = Some (Returned out, m) ->
        dense out).
Proof.
  split; [apply processMessages_dense|]. split.
  - intros passes s.
    destruct (sourced_passes engine platform passes) as [srcs Hsrc]. fold s in Hsrc.
    split; [eapply sourced_orders, Hsrc|].
    exists (dedupFrom ∅ (capturedMessages s)). split; [apply dedupFrom_sublist|].
    split.
    + rewrite processMessages_kept. unfold s. now rewrite passes_sorted.
    + intros msg Hmsg.
      destruct (dedupFrom_covers ∅ (capturedMessages s) msg Hmsg
                  (passes_hasText engine platform passes msg Hmsg)) as [Hin | H];
        [now apply not_elem_of_empty in Hin | exact H].
  - intros W page fuel w out m H.
    apply captureFullHistory_reached in H as [passes ->]. apply processMessages_dense.
Qed.

(** C5: an element whose extracted content trims to the empty string is
    not appended by [captureVisibleMessages], no message made from it is in
    what [processMessages] returns, whatever the accumulator, and so none
    is in what [captureFullHistory] returns. *)
Theorem empty_content_excluded (el : Element) :
  trim (extractContent el platform) = [] ->
  (forall s, capturedMessages (captureElement engine platform s el) = capturedMessages s)
  /\ (forall s k i, renumber i (extractMessage engine el platform k) ∉ processMessages s)
  /\ (forall W (page : Page W) fuel w out m,
        captureFullHistory page engine fuel platform w = Some (Returned out, m) ->
        forall k i, renumber i (extractMessage engine el platform k) ∉ out).
Proof.
  intros Hempty.
  assert (forall s k i, renumber i (extractMessage engine el platform k) ∉ processMessages s)
    as Hout.
  { intros s k i Hin. apply processMessages_elem in Hin as (m0 & _ & Ht & E).
    apply Ht. apply (f_equal Message.content) in E.
    rewrite !renumber_content, extract_content in E. now rewrite <- E. }
  split; [|split; [exact Hout|]].
  - intros s.
    destruct (step_cases engine platform s el) as [[-> _]|[[-> _]|[_ (_ & Hc)]]];
      try reflexivity. contradiction.
  - intros W page fuel w out m H.
    apply captureFullHistory_reached in H as [passes ->]. apply Hout.
Qed.

End Order.

Lemma empty_content_excluded_witness :
  trim (extractContent Sample.pending Sample.generic) = []
  /\ exists out m,
       captureFullHistory (Sample.still [Sample.pending; Sample.messageElement 1])
                          Sample.engine 300 Sample.generic 0%Q = Some (Returned out, m)
       /\ forall k i,
            renumber i (extractMessage Sample.engine Sample.pending Sample.generic k) ∉ out.
Proof.
  split; [reflexivity|]. eexists _, _. split; [vm_compute; reflexivity|].
  eapply (proj2 (proj2 (empty_content_excluded Sample.engine Sample.generic Sample.pending
                          eq_refl))
            Q (Sample.still [Sample.pending; Sample.messageElement 1]) 300%nat 0%Q).
  vm_compute. reflexivity.
Defined.

Lemma order_density_witness :
  exists out m,
    captureFullHistory (Sample.still (Sample.rendered 3)) Sample.engine 300
                       Sample.generic 0%Q = Some (Returned out, m)
    /\ dense out.
Proof.
  eexists _, _. split; [vm_compute; reflexivity|].
  eapply (proj2 (proj2 (order_density Sample.engine Sample.generic))
            Q (Sample.still (Sample.rendered 3)) 300%nat 0%Q).
  vm_compute. reflexivity.
Defined.

(* --------------------------------------------------------------------- *)
(** ** A fingerprint first seen on an empty element *)

Section Marked.
Context (engine : Engine) (platform : Platform).

Local Abbreviation extract := (extractMessage engine).
Local Abbreviation step := (captureElement engine platform).
Local Abbreviation observe := (observe engine platform).

(** Where the seen-set and the accumulator of an observation come from. *)
Lemma observe_origin observed : forall s,
  (forall h, h ∈ seenMessageHashes (observe s observed) ->
             h ∈ seenMessageHashes s \/ exists e, e ∈ observed /\ fingerprint e = h)
  /\ (forall m, m ∈ capturedMessages (observe s observed) ->
                m ∈ capturedMessages s
                \/ exists e k, e ∈ observed /\ m = extract e platform k).
Proof.
  induction observed as [|el observed IH]; intros s; simpl; [split; auto|].
  destruct (IH (step s el)) as [IHs IHm]. split.
  - intros h Hh. destruct (IHs h Hh) as [Hin | (e & He & Hf)].
    + assert (h ∈ {[fingerprint el]} ∪ seenMessageHashes s) as Hin'.
      { destruct (step_cases engine platform s el) as [[E _]|[[E _]|[E _]]];
          rewrite E in Hin; simpl in Hin; [now apply elem_of_union_r | exact Hin | exact Hin]. }
      apply elem_of_union in Hin' as [Hin'|Hin']; [|now left].
      apply elem_of_singleton in Hin'. right. exists el. split; [left | now symmetry].
    + right. exists e. split; [now right | assumption].
  - intros m Hm. destruct (IHm m Hm) as [Hin | (e & k & He & Hk)].
    + destruct (step_cases engine platform s el) as [[E _]|[[E _]|[E _]]];
        rewrite E in Hin; simpl in Hin; auto.
      apply elem_of_app in Hin as [Hin|Hin]; [now left|].
      apply list_elem_of_singleton in Hin. right. exists el, (length (capturedMessages s)).
      split; [left | assumption].
    + right. exists e, k. split; [now right | assumption].
Qed.

(** Once a fingerprint is in the seen-set without a message of its own, no
    later observation gives it one. *)
Lemma observe_excluded h observed : forall s,
  h ∈ seenMessageHashes s ->
  (forall m, m ∈ capturedMessages s -> ~ hasFingerprint h m) ->
  forall m, m ∈ capturedMessages (observe s observed) -> ~ hasFingerprint h m.
Proof.
  induction observed as [|el observed IH]; intros s Hs Hnone; simpl; [exact Hnone|].
  apply IH; [now apply step_seen_mono|].
  intros m Hm.
  destruct (step_cases engine platform s el) as [[E _]|[[E _]|[E (Hunseen & _)]]];
    rewrite E in Hm; simpl in Hm; auto.
  apply elem_of_app in Hm as [Hm|Hm]; [auto|].
  apply list_elem_of_singleton in Hm as ->. intros Hf.
  assert (fingerprint el = h)
    by (eapply hasFingerprint_unique; [eexists; apply extract_id | exact Hf]).
  subst h. contradiction.
Qed.

(** Later observations under a fingerprint of the seen-set are skipped. *)
Lemma observe_skips h observed : forall s,
  h ∈ seenMessageHashes s ->
  observe s observed = observe s (filter (fun e => fingerprint e <> h) observed).
Proof.
  induction observed as [|el observed IH]; intros s Hs; [reflexivity|].
  destruct (decide (fingerprint el <> h)) as [E|E].
  - rewrite filter_cons_True by exact E. simpl. apply IH. now apply step_seen_mono.
  - rewrite filter_cons_False by exact E. simpl.
    apply dec_stable in E. rewrite step_seen by now rewrite E. now apply IH.
Qed.

(** C9: the fingerprint enters the seen-set before the content is looked
    at.  So when the first observation of a fingerprint finds empty
    content, the fingerprint is marked without a message, every later
    observation under it is skipped (the passes go as if those elements
    were not there), and neither the accumulator nor the final output ever
    holds a message with this fingerprint. *)
Theorem first_seen_empty_excluded (passes : list (list Element))
  (before after : list Element) (el : Element) :
  concat passes = before ++ el :: after ->
  (forall e, e ∈ before -> fingerprint e <> fingerprint el) ->
  trim (extractContent el platform) = [] ->
  let s := runPasses engine platform fresh passes in
  fingerprint el ∈ seenMessageHashes (observe fresh (before ++ [el]))
  /\ capturedMessages (observe fresh (before ++ [el])) = capturedMessages (observe fresh before)
  /\ s = observe (observe fresh (before ++ [el]))
                 (filter (fun e => fingerprint e <> fingerprint el) after)
  /\ (forall m, m ∈ capturedMessages s -> ~ hasFingerprint (fingerprint el) m)
  /\ (forall m, m ∈ processMessages s -> ~ hasFingerprint (fingerprint el) m).
Proof.
  intros Hpasses Hfirst Hempty s.
  set (s1 := observe fresh before).
  destruct (observe_origin before fresh) as [Hseen Hmsgs]. fold s1 in Hseen, Hmsgs.
  assert (fingerprint el ∉ seenMessageHashes s1) as Hunseen.
  { intros Hin. destruct (Hseen _ Hin) as [Hin' | (e & He & Hf)].
    - simpl in Hin'. now apply not_elem_of_empty in Hin'.
    - now apply (Hfirst e He). }
  assert (forall m, m ∈ capturedMessages s1 -> ~ hasFingerprint (fingerprint el) m) as Hnone.
  { intros m Hm Hf. destruct (Hmsgs m Hm) as [Hin | (e & k & He & ->)].
    - simpl in Hin. inversion Hin.
    - apply (Hfirst e He).
      eapply hasFingerprint_unique; [eexists; apply extract_id | exact Hf]. }
  assert (observe fresh (before ++ [el]) = markSeen (fingerprint el) s1) as E2.
  { rewrite observe_app. simpl. now apply step_dropped. }
  assert (fingerprint el ∈ seenMessageHashes (markSeen (fingerprint el) s1)) as Hmarked.
  { simpl. apply elem_of_union_l. now apply elem_of_singleton. }
  assert (s = observe (markSeen (fingerprint el) s1) after) as Es.
  { unfold s. rewrite runPasses_observe, Hpasses.
    change (before ++ el :: after) with (before ++ [el] ++ after).
    now rewrite app_assoc, observe_app, E2. }
  assert (forall m, m ∈ capturedMessages s -> ~ hasFingerprint (fingerprint el) m) as Hs.
  { rewrite Es. apply observe_excluded; [exact Hmarked | exact Hnone]. }
  rewrite E2. repeat split; try assumption.
  - rewrite Es. now apply observe_skips.
  - intros m Hm Hf. apply processMessages_elem in Hm as (m0 & Hm0 & _ & E).
    apply (Hs m0 Hm0). rewrite E in Hf. exact Hf.
Qed.

End Marked.

Lemma first_seen_empty_excluded_witness :
  concat [[Sample.pending]; [Sample.arrived]] = [] ++ Sample.pending :: [Sample.arrived]
  /\ trim (extractContent Sample.pending Sample.generic) = []
  /\ fingerprint Sample.arrived = fingerprint Sample.pending
  /\ trim (extractContent Sample.arrived Sample.generic) <> []
  /\ forall m,
       m ∈ processMessages (runPasses Sample.engine Sample.generic fresh
                                      [[Sample.pending]; [Sample.arrived]]) ->
       ~ hasFingerprint (fingerprint Sample.pending) m.
Proof.
  split; [reflexivity|]. split; [reflexivity|]. split; [reflexivity|].
  split; [vm_compute; discriminate|].
  apply (first_seen_empty_excluded Sample.engine Sample.generic
           [[Sample.pending]; [Sample.arrived]] [] [Sample.arrived] Sample.pending).
  - reflexivity.
  - intros e He. inversion He.
  - reflexivity.
Defined.

(* --------------------------------------------------------------------- *)
(** ** Phase 1 ends within its cap *)

Section TopOfHistory.
Context {W : Type} (page : Page W) (engine : Engine) (platform : Platform).

Lemma topBody_iteration v (m : Machine W) :
  iteration (snd (fst (topBody page engine platform v m))) = S (iteration v).
Proof.
  unfold topBody.
  destruct (tryClickLoadMore page engine platform (onScraper (setAttempts (S (iteration v))) m))
    as [clicked m1].
  cbv zeta.
  repeat match goal with
         | |- context [if ?b then _ else _] => destruct b
         end; reflexivity.
Qed.

(** With fuel for the turns that the cap leaves, the loop ends, and the
    counter stays under the cap. *)
Lemma topLoop_ends fuel : forall v (m : Machine W),
  (maxScrollAttempts - iteration v <= fuel)%nat ->
  (iteration v <= maxScrollAttempts)%nat ->
  exists v' m',
    topLoop page engine fuel platform v m = (true, v', m')
    /\ (iteration v <= iteration v' <= maxScrollAttempts)%nat.
Proof.
  induction fuel as [|fuel IH]; intros v m Hfuel Hcap; cbn [topLoop].
  - destruct (iteration v <? maxScrollAttempts)%nat eqn:E.
    + apply Nat.ltb_lt in E. lia.
    + simpl. eauto.
  - destruct (iteration v <? maxScrollAttempts)%nat eqn:E; [|simpl; eauto].
    apply Nat.ltb_lt in E. simpl andb.
    destruct (isCapturing (scraper m)); [|eauto].
    pose proof (topBody_iteration v m) as Hit.
    destruct (topBody page engine platform v m) as [[broke v1] m1]. simpl in Hit.
    destruct broke.
    + exists v1, m1. split; [reflexivity | lia].
    + destruct (IH v1 m1) as (v' & m' & Hrun & Hbound); [lia | lia |].
      exists v', m'. split; [exact Hrun | lia].
Qed.

(** C3: whatever the page does, phase 1 ends: given fuel for 300 turns its
    loop runs to its end, having gone through at most
    [maxScrollAttempts = 300] turns. *)
Theorem scrollToAbsoluteTop_terminates fuel (m : Machine W) :
  (maxScrollAttempts <= fuel)%nat ->
  exists v' m',
    scrollToAbsoluteTop page engine fuel platform m = (true, v', m')
    /\ (iteration v' <= maxScrollAttempts)%nat
    /\ maxScrollAttempts = 300%nat.
Proof.
  intros Hfuel. unfold scrollToAbsoluteTop. cbv zeta.
  match goal with
  | |- context [topLoop _ _ _ _ ?v ?m0] =>
      destruct (topLoop_ends fuel v m0) as (v' & m' & Hrun & Hbound)
  end.
  - simpl iteration. lia.
  - simpl iteration. lia.
  - exists v', m'. split; [exact Hrun|]. split; [lia | reflexivity].
Qed.

End TopOfHistory.

(** A page whose scroll height differs at every observation and whose
    load-more button never goes away takes all the 300 turns. *)
Lemma restless_page_takes_all_turns :
  exists v' m',
    scrollToAbsoluteTop Sample.restless Sample.engine 300 Sample.generic (Sample.start 0%nat)
    = (true, v', m')
    /\ iteration v' = 300%nat /\ scrollAttempts (scraper m') = 300%nat.
Proof. eexists _, _. split; [vm_compute; reflexivity|]. split; reflexivity. Qed.

Lemma scrollToAbsoluteTop_terminates_witness :
  (maxScrollAttempts <= 300)%nat
  /\ exists v' m',
       scrollToAbsoluteTop Sample.restless Sample.engine 300 Sample.generic
                           (Sample.start 0%nat) = (true, v', m')
       /\ (iteration v' <= maxScrollAttempts)%nat
       /\ maxScrollAttempts = 300%nat.
Proof.
  split; [unfold maxScrollAttempts; lia|].
  apply (scrollToAbsoluteTop_terminates Sample.restless Sample.engine Sample.generic
           300%nat (Sample.start 0%nat)).
  unfold maxScrollAttempts. lia.
Defined.

(* --------------------------------------------------------------------- *)
(** ** The progress percentages *)

Section Percentages.
Local Open Scope Q_scope.

Lemma Qle_const_2_45 : 2 <= 45. Proof. discriminate. Qed.
Lemma Qle_const_0_45 : 0 <= 45. Proof. discriminate. Qed.
Lemma Qle_const_0_43 : 0 <= 43. Proof. discriminate. Qed.

Lemma Qdiv_nat_nonneg (k n : nat) :
  0 <= inject_Z (Z.of_nat k) / inject_Z (Z.of_nat (S n)).
Proof.
  apply Qle_shift_div_l.
  - change 0 with (inject_Z 0). rewrite <- Zlt_Qlt. lia.
  - rewrite Qmult_0_l. change 0 with (inject_Z 0). rewrite <- Zle_Qle. lia.
Qed.

Lemma topProgress_range k : 2 <= topProgress k <= 45.
Proof.
  unfold topProgress. split; [|apply Q.le_min_l].
  apply Q.min_glb; [exact Qle_const_2_45|].
  rewrite <- (Qplus_0_r 2) at 1. apply Qplus_le_r.
  apply Qmult_le_0_compat; [apply Qdiv_nat_nonneg | exact Qle_const_0_43].
Qed.

Lemma topProgress_mono k k' : (k <= k')%nat -> topProgress k <= topProgress k'.
Proof.
  intros H. unfold topProgress. apply Q.min_le_compat_l, Qplus_le_r.
  apply Qmult_le_compat_r; [|exact Qle_const_0_43].
  unfold Qdiv. apply Qmult_le_compat_r.
  - rewrite <- Zle_Qle. lia.
  - discriminate.
Qed.

Lemma sweepProgress_upper ts sh : sweepProgress ts sh <= 95.
Proof.
  unfold sweepProgress. apply Qle_trans with (50 + 45); [|discriminate].
  apply Qplus_le_r. destruct (sh =? 0)%N; [apply Qle_refl | apply Q.le_min_l].
Qed.

Lemma inject_N_pos sh : (sh =? 0)%N = false -> 0 < inject_Z (Z.of_N sh).
Proof.
  intros H%N.eqb_neq. change 0 with (inject_Z 0). rewrite <- Zlt_Qlt. lia.
Qed.

Lemma Qdiv_nonneg a b : 0 <= a -> 0 < b -> 0 <= a / b.
Proof.
  intros Ha Hb. apply Qle_shift_div_l; [exact Hb|]. now rewrite Qmult_0_l.
Qed.

Lemma sweepProgress_lower ts sh : 0 <= ts -> 50 <= sweepProgress ts sh.
Proof.
  intros Hts. unfold sweepProgress.
  rewrite <- (Qplus_0_r 50) at 1. apply Qplus_le_r.
  destruct (sh =? 0)%N eqn:E; [exact Qle_const_0_45|].
  apply Q.min_glb; [exact Qle_const_0_45|].
  apply Qmult_le_0_compat; [|exact Qle_const_0_45].
  apply Qdiv_nonneg; [exact Hts | now apply inject_N_pos].
Qed.

(** More scrolled over a page that is not higher gives no less progress. *)
Lemma sweepProgress_mono ts ts' sh sh' :
  0 <= ts -> ts <= ts' -> (sh' <= sh)%N ->
  sweepProgress ts sh <= sweepProgress ts' sh'.
Proof.
  intros Hts Hle Hsh.
  destruct (sh' =? 0)%N eqn:E'.
  { apply Qle_trans with 95; [apply sweepProgress_upper|].
    unfold sweepProgress. rewrite E'. discriminate. }
  assert ((sh =? 0)%N = false) as E.
  { apply N.eqb_neq. apply N.eqb_neq in E'. lia. }
  unfold sweepProgress. rewrite E, E'.
  apply Qplus_le_r, Q.min_le_compat_l.
  apply Qmult_le_compat_r; [|exact Qle_const_0_45].
  pose proof (inject_N_pos sh E) as Hp. pose proof (inject_N_pos sh' E') as Hp'.
  apply Qle_shift_div_r; [exact Hp|].
  apply Qle_trans with ts'; [exact Hle|].
  apply Qle_trans with (ts' / inject_Z (Z.of_N sh') * inject_Z (Z.of_N sh')).
  - rewrite Qmult_comm, Qmult_div_r; [apply Qle_refl|].
    intros H0. rewrite H0 in Hp'. now apply Qlt_irrefl in Hp'.
  - rewrite !(Qmult_comm (ts' / _)). apply Qmult_le_compat_r.
    + rewrite <- Zle_Qle. lia.
    + apply Qdiv_nonneg; [|exact Hp']. now apply Qle_trans with ts.
Qed.

Lemma scrollStepOf_pos ch : 0 <= scrollStepOf ch.
Proof.
  unfold scrollStepOf. apply Qle_trans with 200; [discriminate | apply Q.le_max_l].
Qed.

End Percentages.

(* --------------------------------------------------------------------- *)
(** ** The progress events of the two phases *)

Section Events.
Context {W : Type} (page : Page W) (engine : Engine) (platform : Platform).


Lemma ascending_constant c events :
  Forall (fun p => progress p = c) events -> ascending events.
Proof.
  unfold ascending. induction 1 as [|p l Hp Hl IH]; constructor; [exact IH|].
  eapply Forall_impl; [exact Hl|]. intros q Hq. simpl in Hq. rewrite Hp, Hq. apply Qle_refl.
Qed.

Lemma trace_report p (m : Machine W) : trace (report page p m) = trace m ++ [p].
Proof. unfold report. destruct (onProgress page p (world m)). reflexivity. Qed.

Lemma trace_waitFor ms (m : Machine W) : trace (waitFor page ms m) = trace m.
Proof. unfold waitFor. destruct (wait page ms (world m)). reflexivity. Qed.

Lemma trace_tryClick (m : Machine W) :
  trace (snd (tryClickLoadMore page engine platform m)) = trace m.
Proof. unfold tryClickLoadMore. destruct (findLoadMore _ _ _); reflexivity. Qed.

Lemma trace_trigger (m : Machine W) : trace (triggerScrollEvents page m) = trace m.
Proof. reflexivity. Qed.

(** A turn of phase 1 emits nothing, or one event of phase [scrolling] with
    the percentage of its turn. *)
Lemma topBody_events v (m : Machine W) :
  exists added,
    trace (snd (topBody page engine platform v m)) = trace m ++ added
    /\ Forall (fun p => phase p = scrolling
                        /\ progress p = topProgress (S (iteration v))) added.
Proof.
  unfold topBody.
  destruct (tryClickLoadMore page engine platform (onScraper (setAttempts (S (iteration v))) m))
    as [clicked m1] eqn:E.
  assert (trace m1 = trace m) as H1.
  { change m1 with (snd (clicked, m1)). rewrite <- E, trace_tryClick. reflexivity. }
  cbv zeta.
  repeat match goal with
         | |- context [if ?b then _ else _] => destruct b
         end;
    cbn [snd]; rewrite ?trace_report, trace_trigger, trace_waitFor; cbn [onWorld trace];
    rewrite H1;
    first [ exists []; split; [now rewrite app_nil_r | constructor]
          | eexists [_]; split; [reflexivity | repeat constructor] ].
Qed.

Lemma topLoop_events fuel : forall v (m : Machine W),
  exists added,
    trace (snd (topLoop page engine fuel platform v m)) = trace m ++ added
    /\ ascending added
    /\ Forall (fun p => phase p = scrolling
                        /\ exists k, (iteration v < k)%nat /\ progress p = topProgress k)
              added.
Proof.
  induction fuel as [|fuel IH]; intros v m; cbn [topLoop];
    destruct (_ && _);
    try (exists []; rewrite app_nil_r; repeat split; constructor).
  destruct (topBody_events v m) as (a1 & Ht1 & Ha1).
  pose proof (topBody_iteration page engine platform v m) as Hit.
  destruct (topBody page engine platform v m) as [[broke v1] m1]. cbn [snd fst] in *.
  assert (Forall (fun p => phase p = scrolling
                           /\ exists k, (iteration v < k)%nat /\ progress p = topProgress k) a1)
    as Ha1'.
  { eapply Forall_impl; [exact Ha1|]. intros p [Hp Hq]. split; [exact Hp|].
    exists (S (iteration v)). split; [lia | exact Hq]. }
  assert (ascending a1) as Hs1.
  { apply (ascending_constant (topProgress (S (iteration v)))).
    eapply Forall_impl; [exact Ha1|]. now intros p [_ Hp]. }
  destruct broke.
  - exists a1. cbn [snd]. auto.
  - destruct (IH v1 m1) as (a2 & Ht2 & Hs2 & Ha2).
    exists (a1 ++ a2). rewrite Ht2, Ht1, app_assoc. split; [reflexivity|]. split.
    + apply StronglySorted_app. split; [|split; [exact Hs1 | exact Hs2]].
      intros p q Hp Hq.
      rewrite list.Forall_forall in Ha1, Ha2.
      destruct (Ha1 p Hp) as [_ ->]. destruct (Ha2 q Hq) as [_ (k & Hk & ->)].
      apply topProgress_mono. lia.
    + apply Forall_app. split; [exact Ha1'|].
      eapply Forall_impl; [exact Ha2|]. intros p [Hp (k & Hk & Hq)].
      split; [exact Hp|]. exists k. split; [lia | exact Hq].
Qed.

End Events.

Section SweepEvents.
Context {W : Type} (page : Page W) (engine : Engine) (platform : Platform).

Local Abbreviation height := (fun m : Machine W => scrollHeight page (world m)).

Lemma height_waitFor ms (m : Machine W) :
  neverGrows page -> (height (waitFor page ms m) <= height m)%N.
Proof.
  intros H. destruct (H (world m)) as (_ & _ & _ & _ & _ & Hw & _). specialize (Hw ms).
  unfold waitFor. destruct (wait page ms (world m)). exact Hw.
Qed.

Lemma height_report p (m : Machine W) :
  neverGrows page -> (height (report page p m) <= height m)%N.
Proof.
  intros H. destruct (H (world m)) as (_ & _ & _ & _ & _ & _ & Hp). specialize (Hp p).
  unfold report. destruct (onProgress page p (world m)). exact Hp.
Qed.

Lemma height_scrollBy q (m : Machine W) :
  neverGrows page -> (height (onWorld (scrollBy page q) m) <= height m)%N.
Proof. intros H. destruct (H (world m)) as (_ & _ & Hb & _). apply Hb. Qed.

Lemma height_dispatch e (m : Machine W) :
  neverGrows page -> (height (onWorld (dispatchEvent page e) m) <= height m)%N.
Proof. intros H. destruct (H (world m)) as (_ & _ & _ & Hd & _). apply Hd. Qed.

Lemma height_trigger (m : Machine W) :
  neverGrows page -> (height (triggerScrollEvents page m) <= height m)%N.
Proof.
  intros H. unfold triggerScrollEvents. cbn [fold_left].
  eapply N.le_trans; [apply height_dispatch, H|].
  eapply N.le_trans; [apply height_dispatch, H|]. apply height_dispatch, H.
Qed.

Lemma sweepAdvance_events scrollStep v (m : Machine W) :
  fst (sweepAdvance page engine platform scrollStep v m) = (totalScrolled v + scrollStep)%Q
  /\ exists p sh,
       trace (snd (sweepAdvance page engine platform scrollStep v m)) = trace m ++ [p]
       /\ phase p = extracting
       /\ progress p = sweepProgress (totalScrolled v + scrollStep) sh
       /\ (neverGrows page ->
           (height (snd (sweepAdvance page engine platform scrollStep v m)) <= sh)%N
           /\ (sh <= height m)%N).
Proof.
  unfold sweepAdvance. cbv zeta. cbn [fst snd]. split; [reflexivity|].
  eexists _, _. split.
  { rewrite trace_report. cbn [capture onScraper trace].
    rewrite trace_waitFor, trace_trigger, trace_waitFor. reflexivity. }
  split; [reflexivity|]. split; [reflexivity|].
  intros H. split; [apply height_report, H|].
  cbn [capture onScraper world].
  eapply N.le_trans; [apply height_waitFor, H|].
  eapply N.le_trans; [apply height_trigger, H|].
  eapply N.le_trans; [apply height_waitFor, H|]. apply height_scrollBy, H.
Qed.

Lemma sweepBody_events scrollStep v (m : Machine W) :
  totalScrolled (snd (fst (sweepBody page engine platform scrollStep v m)))
  = (totalScrolled v + scrollStep)%Q
  /\ exists p sh,
       trace (snd (sweepBody page engine platform scrollStep v m)) = trace m ++ [p]
       /\ phase p = extracting
       /\ progress p = sweepProgress (totalScrolled v + scrollStep) sh
       /\ (neverGrows page ->
           (height (snd (sweepBody page engine platform scrollStep v m)) <= sh)%N
           /\ (sh <= height m)%N).
Proof.
  unfold sweepBody.
  destruct (sweepAdvance_events scrollStep v m) as (Hts & p & sh & Ht & Hp & Hq & Hh).
  destruct (sweepAdvance page engine platform scrollStep v m) as [ts m1].
  cbn [fst snd] in *. subst ts. cbv zeta.
  destruct (atBottomOf page (world m1)).
  - cbn [fst snd totalScrolled]. split; [reflexivity|]. exists p, sh.
    split.
    { repeat first [ rewrite trace_waitFor
                   | progress cbn [capture onScraper onWorld trace] ].
      exact Ht. }
    split; [exact Hp|]. split; [exact Hq|].
    intros H. destruct (Hh H) as [H1 H2]. split; [|exact H2].
    cbn [capture onScraper world].
    eapply N.le_trans; [apply height_waitFor, H|].
    eapply N.le_trans; [apply height_scrollBy, H|].
    cbn [capture onScraper world].
    eapply N.le_trans; [apply height_waitFor, H|]. exact H1.
  - destruct (_ && _); cbn [fst snd totalScrolled]; (split; [reflexivity|]);
      exists p, sh; auto.
Qed.

Lemma sweepLoop_events fuel scrollStep : forall v (m : Machine W),
  (0 <= scrollStep)%Q -> (0 <= totalScrolled v)%Q ->
  exists added,
    trace (snd (sweepLoop page engine fuel platform scrollStep v m)) = trace m ++ added
    /\ Forall (fun p => phase p = extracting
                        /\ (50 <= progress p <= 95)%Q
                        /\ exists ts sh, (0 <= ts)%Q /\ progress p = sweepProgress ts sh)
              added
    /\ (neverGrows page ->
        ascending added
        /\ Forall (fun p => (sweepProgress (totalScrolled v) (height m) <= progress p)%Q)
                  added).
Proof.
  induction fuel as [|fuel IH]; intros v m Hstep Hts; cbn [sweepLoop];
    destruct (isCapturing (scraper m));
    try (exists []; rewrite app_nil_r; repeat split; constructor).
  destruct (sweepBody_events scrollStep v m) as (Hts1 & p & sh & Ht & Hp & Hq & Hh).
  destruct (sweepBody page engine platform scrollStep v m) as [[exit v1] m1].
  cbn [fst snd] in *.
  assert (totalScrolled v <= totalScrolled v + scrollStep)%Q as Hgrow.
  { rewrite <- (Qplus_0_r (totalScrolled v)) at 1. now apply Qplus_le_r. }
  assert (0 <= totalScrolled v + scrollStep)%Q as Hts' by (eapply Qle_trans; eassumption).
  assert (phase p = extracting
          /\ (50 <= progress p <= 95)%Q
          /\ exists ts sh, (0 <= ts)%Q /\ progress p = sweepProgress ts sh) as Hfirst.
  { split; [exact Hp|]. rewrite Hq. split.
    - split; [now apply sweepProgress_lower | apply sweepProgress_upper].
    - eauto. }
  assert (neverGrows page ->
          (sweepProgress (totalScrolled v) (height m) <= progress p)%Q) as Hlow.
  { intros H. destruct (Hh H) as [_ H2]. rewrite Hq. now apply sweepProgress_mono. }
  destruct exit as [e|].
  - exists [p]. cbn [snd]. split; [exact Ht|]. split; [now constructor|].
    intros H. split; [repeat constructor | constructor; [now apply Hlow | constructor]].
  - destruct (IH v1 m1 Hstep) as (a2 & Ht2 & Ha2 & Hs2).
    { now rewrite Hts1. }
    exists (p :: a2). rewrite Ht2, Ht, <- app_assoc. split; [reflexivity|].
    split; [now constructor|].
    intros H. destruct (Hs2 H) as [Hasc Hlow2]. destruct (Hh H) as [H1 H2].
    rewrite Hts1 in Hlow2. split.
    + constructor; [exact Hasc|].
      eapply Forall_impl; [exact Hlow2|]. intros q Hq'. simpl in Hq'.
      eapply Qle_trans; [|exact Hq']. rewrite Hq.
      apply sweepProgress_mono; [exact Hts' | apply Qle_refl | exact H1].
    + constructor; [now apply Hlow|].
      eapply Forall_impl; [exact Hlow2|]. intros q Hq'. simpl in Hq'.
      eapply Qle_trans; [|exact Hq'].
      apply sweepProgress_mono; [exact Hts | exact Hgrow |].
      eapply N.le_trans; eassumption.
Qed.

End SweepEvents.

Section ProgressClaim.
Context {W : Type} (page : Page W) (engine : Engine) (platform : Platform).


End ProgressClaim.




(* --------------------------------------------------------------------- *)
(** ** How phase 2 ends, and when it does not *)

Section Sweep.
Context {W : Type} (page : Page W) (engine : Engine) (platform : Platform).



Lemma isCapturing_step s el :
  isCapturing (captureElement engine platform s el) = isCapturing s.
Proof.
  destruct (step_cases engine platform s el) as [[-> _]|[[-> _]|[-> _]]]; reflexivity.
Qed.

Lemma isCapturing_capture (m : Machine W) :
  isCapturing (scraper (capture page engine platform m)) = isCapturing (scraper m).
Proof.
  cbn [capture onScraper scraper]. unfold captureVisibleMessages.
  rewrite capturePass_observe. unfold observe.
  generalize (findMessageElements platform (document page (world m))) (scraper m).
  induction l as [|el l IH]; intros s; simpl; [reflexivity|].
  now rewrite IH, isCapturing_step.
Qed.

Context (inv : W -> Prop) (Hinv : undisturbed page inv).

Lemma live_waitFor ms (m : Machine W) : live inv m -> live inv (waitFor page ms m).
Proof.
  intros [Hw Hc]. destruct (Hinv _ Hw) as (_ & _ & _ & _ & _ & Hwait & _).
  destruct (Hwait ms) as [Hi Hs]. unfold waitFor, live.
  destruct (wait page ms (world m)) as [w stopped]. simpl in *. subst stopped. auto.
Qed.

Lemma live_report p (m : Machine W) : live inv m -> live inv (report page p m).
Proof.
  intros [Hw Hc]. destruct (Hinv _ Hw) as (_ & _ & _ & _ & _ & _ & Hrep).
  destruct (Hrep p) as [Hi Hs]. unfold report, live.
  destruct (onProgress page p (world m)) as [w stopped]. simpl in *. subst stopped. auto.
Qed.

Lemma live_scrollBy q (m : Machine W) : live inv m -> live inv (onWorld (scrollBy page q) m).
Proof. intros [Hw Hc]. split; [|exact Hc]. now apply Hinv. Qed.

Lemma live_setScrollTop q (m : Machine W) :
  live inv m -> live inv (onWorld (setScrollTop page q) m).
Proof. intros [Hw Hc]. split; [|exact Hc]. now apply Hinv. Qed.

Lemma live_trigger (m : Machine W) : live inv m -> live inv (triggerScrollEvents page m).
Proof.
  intros [Hw Hc]. split; [|exact Hc]. unfold triggerScrollEvents. cbn [fold_left onWorld world].
  repeat apply Hinv. exact Hw.
Qed.

Lemma live_capture (m : Machine W) : live inv m -> live inv (capture page engine platform m).
Proof. intros [Hw Hc]. split; [exact Hw | now rewrite isCapturing_capture]. Qed.


Context (Hnever : forall w, inv w -> atBottomOf page w = false).



End Sweep.

Section SweepClaim.
Context {W : Type} (page : Page W) (engine : Engine) (platform : Platform).


End SweepClaim.




(* --------------------------------------------------------------------- *)
(** ** The platform content selector does not fall through *)

(** C6 at its failing input.  The platform's content selector [.body]
    finds an element whose cleaned text is empty; [extractContent] returns
    this empty text at once, although the generic selectors would have
    found the paragraph and the element's own text is not empty either.
    The element is then left out of the capture. *)
Theorem platform_selector_does_not_fall_through :
  let el := Sample.hollow in
  (exists contentEl,
     querySelector [one (cls "body")] el = Some contentEl /\ getCleanText contentEl = [])
  /\ extractContent el Sample.withBody = []
  /\ genericContent el contentSelectors = Some (js "Hello")
  /\ getCleanText el = js "Hello"
  /\ extractContent el Sample.generic = js "Hello"
  /\ capturedMessages (captureElement Sample.engine Sample.withBody fresh el) = []
  /\ length (capturedMessages (captureElement Sample.engine Sample.generic fresh el)) = 1%nat.
Proof.
  intros el. split; [eexists; split; vm_compute; reflexivity|].
  repeat split; vm_compute; reflexivity.
Qed.

(* --------------------------------------------------------------------- *)
(** ** Scenario A: a page at rest *)

Section AtRest.
Context {W : Type} (page : Page W) (engine : Engine) (platform : Platform).
Context (inv atTop : W -> Prop) (height : N).
Context (Hrest : atRest page engine platform inv atTop height).

Lemma atRest_undisturbed : undisturbed page inv.
Proof. exact (proj1 Hrest). Qed.

Local Abbreviation Hinv := atRest_undisturbed.

Lemma live_scrollTo q (m : Machine W) : live inv m -> live inv (onWorld (scrollTo page q) m).
Proof. intros [Hw Hc]. split; [|exact Hc]. now apply Hinv. Qed.

Lemma live_setAttempts n (m : Machine W) : live inv m -> live inv (onScraper (setAttempts n) m).
Proof. intros [Hw Hc]. split; assumption. Qed.

(** A turn of phase 1 on a page at rest: nothing is clicked, the height is
    compared with the one of the turn before, and the loop is left once
    the stable-counter is at 3. *)
Lemma topBody_atRest v (m : Machine W) :
  live inv m -> (stableCount v < 4)%nat ->
  exists top m',
    live inv m'
    /\ scrollAttempts (scraper m') = S (iteration v)
    /\ let count := if Z.of_N height =? previousScrollHeight v
                    then S (stableCount v) else 0%nat in
       topBody page engine platform v m
       = ((3 <=? count)%nat,
          {| previousScrollHeight := Z.of_N height; previousScrollTop := top;
             stableCount := count; iteration := S (iteration v) |},
          m').
Proof.
  intros Hlive Hcount. pose proof (proj1 (proj2 Hrest)) as Hquiet.
  pose proof (proj2 (proj2 Hrest)) as Hstays.
  unfold topBody, tryClickLoadMore. cbn [onScraper world].
  pose proof (Hquiet _ (proj1 Hlive)) as (Hnone & _). rewrite Hnone.
  set (m1 := {| scraper := setAttempts (S (iteration v)) (scraper m);
                world := world m; trace := trace m |}).
  assert (live inv m1) as H1 by (destruct Hlive; split; assumption).
  cbv zeta.
  set (m2 := triggerScrollEvents page _).
  assert (live inv m2 /\ scrollAttempts (scraper m2) = S (iteration v)) as [H2 A2].
  { split.
    - apply (live_trigger page inv Hinv), (live_waitFor page inv Hinv),
        live_scrollTo, (live_setScrollTop page inv Hinv), live_scrollTo, H1.
    - unfold m2, triggerScrollEvents. cbn [fold_left onWorld scraper].
      unfold waitFor. destruct (wait page _ _) as [w []]; reflexivity. }
  assert (atTop (world m2)) as T2.
  { unfold m2, triggerScrollEvents. cbn [fold_left onWorld world].
    repeat apply Hstays. unfold waitFor.
    match goal with
    | |- context [wait page ?ms ?w] =>
        pose proof (proj1 (Hstays w ltac:(apply Hquiet; repeat apply Hinv; apply H1)) ms) as Tw;
        destruct (wait page ms w)
    end.
    exact Tw. }
  pose proof (Hquiet _ (proj1 H2)) as (_ & _ & Hheight & _).
  pose proof (Hstays _ T2) as (_ & _ & Htop). rewrite Hheight, Htop.
  set (m3 := if (S (iteration v) mod 10 =? 0)%nat then report page _ m2 else m2).
  assert (live inv m3 /\ scrollAttempts (scraper m3) = S (iteration v)) as [H3 A3].
  { unfold m3. destruct (_ =? _)%nat; [|auto]. split.
    - now apply (live_report page inv Hinv).
    - unfold report. destruct (onProgress page _ _) as [w []]; exact A2. }
  pose proof (Hquiet _ (proj1 H3)) as (_ & Hnobutton & _). rewrite Hnobutton.
  exists (scrollTop page (world m2)), m3. split; [exact H3|]. split; [exact A3|].
  cbn [negb andb]. rewrite !andb_true_r.
  destruct (Z.of_N height =? previousScrollHeight v).
  - cbn [andb]. assert ((5 <=? S (stableCount v))%nat = false) as ->
        by (apply Nat.leb_gt; lia).
    destruct (3 <=? S (stableCount v))%nat; reflexivity.
  - reflexivity.
Qed.

(** On a page at rest phase 1 is left on its fourth turn: the first turn
    only records the height. *)
Lemma scrollToAbsoluteTop_atRest fuel (m : Machine W) :
  live inv m -> (4 <= fuel)%nat ->
  exists v' m',
    scrollToAbsoluteTop page engine fuel platform m = (true, v', m')
    /\ iteration v' = 4%nat /\ stableCount v' = 3%nat
    /\ scrollAttempts (scraper m') = 4%nat
    /\ live inv m'.
Proof.
  intros Hlive Hfuel.
  destruct fuel as [|[|[|[|fuel]]]]; try lia.
  unfold scrollToAbsoluteTop. cbv zeta.
  set (m0 := waitFor page 300 _).
  assert (live inv m0) as H0
      by (apply (live_waitFor page inv Hinv), (live_setScrollTop page inv Hinv), Hlive).
  assert ((Z.of_N height =? -1) = false) as Hneq by (apply Z.eqb_neq; lia).
  (* turn 1 *)
  cbn [topLoop iteration]. rewrite (proj2 H0). cbn [andb Nat.ltb Nat.leb maxScrollAttempts].
  destruct (topBody_atRest {| previousScrollHeight := -1; previousScrollTop := -1;
                              stableCount := 0; iteration := 0 |} m0 H0)
    as (t1 & m1 & H1 & _ & E1); [simpl; lia|].
  cbn [previousScrollHeight stableCount iteration] in E1. rewrite Hneq in E1.
  rewrite E1. cbn [Nat.leb].
  (* turn 2 *)
  cbn [iteration]. rewrite (proj2 H1). cbn [andb Nat.ltb Nat.leb maxScrollAttempts].
  destruct (topBody_atRest {| previousScrollHeight := Z.of_N height; previousScrollTop := t1;
                              stableCount := 0; iteration := 1 |} m1 H1)
    as (t2 & m2 & H2 & _ & E2); [simpl; lia|].
  cbn [previousScrollHeight stableCount iteration] in E2. rewrite Z.eqb_refl in E2.
  rewrite E2. cbn [Nat.leb].
  (* turn 3 *)
  cbn [iteration]. rewrite (proj2 H2). cbn [andb Nat.ltb Nat.leb maxScrollAttempts].
  destruct (topBody_atRest {| previousScrollHeight := Z.of_N height; previousScrollTop := t2;
                              stableCount := 1; iteration := 2 |} m2 H2)
    as (t3 & m3 & H3 & _ & E3); [simpl; lia|].
  cbn [previousScrollHeight stableCount iteration] in E3. rewrite Z.eqb_refl in E3.
  rewrite E3. cbn [Nat.leb].
  (* turn 4 *)
  cbn [iteration]. rewrite (proj2 H3). cbn [andb Nat.ltb Nat.leb maxScrollAttempts].
  destruct (topBody_atRest {| previousScrollHeight := Z.of_N height; previousScrollTop := t3;
                              stableCount := 2; iteration := 3 |} m3 H3)
    as (t4 & m4 & H4 & A4 & E4); [simpl; lia|].
  cbn [previousScrollHeight stableCount iteration] in E4, A4. rewrite Z.eqb_refl in E4.
  rewrite E4. cbn [Nat.leb].
  eexists _, m4. split; [reflexivity|]. repeat split; try reflexivity; try assumption.
  - apply H4.
  - apply H4.
Qed.

End AtRest.

Section SamePass.
Context (engine : Engine) (platform : Platform).

Local Abbreviation extract := (extractMessage engine).
Local Abbreviation observe := (observe engine platform).

Lemma observe_seen_mono observed : forall s h,
  h ∈ seenMessageHashes s -> h ∈ seenMessageHashes (observe s observed).
Proof.
  induction observed as [|el observed IH]; intros s h H; simpl; [exact H|].
  now apply IH, step_seen_mono.
Qed.

Lemma observe_marks_all observed : forall s e,
  e ∈ observed -> fingerprint e ∈ seenMessageHashes (observe s observed).
Proof.
  induction observed as [|el observed IH]; intros s e He; [inversion He|].
  simpl. apply elem_of_cons in He as [-> | He].
  - apply observe_seen_mono, step_marks.
  - now apply IH.
Qed.

(** A pass over elements all seen changes nothing. *)
Lemma observe_all_seen observed : forall s,
  (forall e, e ∈ observed -> fingerprint e ∈ seenMessageHashes s) ->
  observe s observed = s.
Proof.
  induction observed as [|el observed IH]; intros s H; simpl; [reflexivity|].
  rewrite step_seen by (apply H; left). apply IH. intros e He. apply H. now right.
Qed.

Lemma observe_twice s observed : observe (observe s observed) observed = observe s observed.
Proof. apply observe_all_seen. intros e He. now apply observe_marks_all. Qed.

(** A first pass over elements that differ in fingerprint and have text
    appends the message of each. *)
Lemma observe_all_kept observed : forall s,
  NoDup (fingerprint <$> observed) ->
  (forall e, e ∈ observed ->
             (fingerprint e ∉ seenMessageHashes s) /\ trim (extractContent e platform) <> []) ->
  capturedMessages (observe s observed)
  = capturedMessages s
    ++ imap (fun i e => extract e platform (length (capturedMessages s) + i)) observed.
Proof.
  induction observed as [|el observed IH]; intros s Hnd H; simpl.
  - now rewrite app_nil_r.
  - rewrite fmap_cons in Hnd. apply NoDup_cons in Hnd as [Hel Hnd].
    destruct (H el) as [Hs Hc]; [left|].
    rewrite (step_kept engine platform s el Hs Hc), IH; [|exact Hnd|].
    + simpl. rewrite <- app_assoc, length_app. simpl. f_equal.
      rewrite Nat.add_0_r. f_equal. apply imap_ext. intros i e _. simpl. f_equal. lia.
    + intros e He. destruct (H e) as [Hs' Hc']; [now right|]. split; [|exact Hc'].
      simpl. intros Hin. apply elem_of_union in Hin as [Hin|Hin]; [|contradiction].
      apply elem_of_singleton in Hin. apply Hel. rewrite <- Hin.
      apply list_elem_of_fmap. eauto.
Qed.

Lemma dedupFrom_all l : forall H,
  NoDup (contentHashOf <$> l) ->
  (forall m, m ∈ l -> hasText m /\ (contentHashOf m ∉ H)) ->
  dedupFrom H l = l.
Proof.
  induction l as [|x l IH]; intros H Hnd Hall; simpl; [reflexivity|].
  rewrite fmap_cons in Hnd. apply NoDup_cons in Hnd as [Hx Hnd].
  destruct (Hall x) as [Ht Hn]; [left|].
  rewrite (bool_decide_eq_false_2 _ Hn). simpl negb.
  assert ((0 <? length (trim (Message.content x)))%nat = true) as ->.
  { apply Nat.ltb_lt. unfold hasText in Ht. destruct (trim _); [congruence | simpl; lia]. }
  simpl. f_equal. apply IH; [exact Hnd|].
  intros m Hm. destruct (Hall m) as [Ht' Hn']; [now right|]. split; [exact Ht'|].
  intros Hin. apply elem_of_union in Hin as [Hin|Hin]; [|contradiction].
  apply elem_of_singleton in Hin. apply Hx. rewrite <- Hin. apply list_elem_of_fmap. eauto.
Qed.

(** The output of a capture whose passes all found the same distinct
    elements: the message of each element, in order. *)
Lemma processMessages_distinct els :
  distinctMessages platform els ->
  processMessages (observe fresh els)
  = imap renumber (imap (fun i e => extract e platform i) els).
Proof.
  intros (Hfp & Hch & Htext).
  assert (capturedMessages (observe fresh els) = imap (fun i e => extract e platform i) els)
    as Hcap.
  { rewrite observe_all_kept; [reflexivity | exact Hfp |].
    intros e He. split; [apply not_elem_of_empty | now apply Htext]. }
  rewrite processMessages_kept, Hcap. f_equal.
  rewrite (sortByOrder_seq _ 0).
  - apply dedupFrom_all.
    + rewrite fmap_imap.
      rewrite <- (imap_const (fun e => hashElement (OfPlain (extractContent e platform)))) in Hch.
      erewrite imap_ext; [exact Hch|]. reflexivity.
    + intros m Hm. apply elem_of_lookup_imap in Hm as (i & e & -> & He).
      split; [|apply not_elem_of_empty].
      apply Htext. eapply list_elem_of_lookup_2, He.
  - rewrite fmap_imap, length_imap.
    rewrite <- (list_fmap_id (seq 0 (length els))), <- (imap_seq_0 els id).
    apply imap_ext. reflexivity.
Qed.

End SamePass.

Section AtRestCapture.
Context {W : Type} (page : Page W) (engine : Engine) (platform : Platform).
Context (inv atTop : W -> Prop) (height : N) (els : list Element).
Context (Hrest : atRest page engine platform inv atTop height).
Context (Hrend : rendersOnly page platform inv els).

Local Abbreviation Hinv := (atRest_undisturbed page engine platform inv atTop height Hrest).

Local Abbreviation settled := (settled engine platform inv els).

Lemma capture_settles (m : Machine W) :
  live inv m ->
  store (scraper m) = store fresh \/ store (scraper m) = store (observe engine platform fresh els) ->
  settled (capture page engine platform m).
Proof.
  intros Hlive Hstore. split; [now apply live_capture|].
  cbn [capture onScraper scraper]. unfold captureVisibleMessages.
  rewrite (Hrend _ (proj1 Hlive)), capturePass_observe.
  destruct Hstore as [H|H].
  - now apply observe_store.
  - transitivity (store (observe engine platform (observe engine platform fresh els) els)).
    + now apply observe_store.
    + now rewrite observe_twice.
Qed.

Lemma settled_waitFor ms (m : Machine W) : settled m -> settled (waitFor page ms m).
Proof.
  intros [Hl Hs]. split; [now apply (live_waitFor page inv Hinv)|].
  now rewrite store_waitFor.
Qed.

Lemma settled_report p (m : Machine W) : settled m -> settled (report page p m).
Proof.
  intros [Hl Hs]. split; [now apply (live_report page inv Hinv)|].
  now rewrite store_report.
Qed.

Lemma settled_scrollBy q (m : Machine W) : settled m -> settled (onWorld (scrollBy page q) m).
Proof. intros [Hl Hs]. split; [now apply (live_scrollBy page inv Hinv) | exact Hs]. Qed.

Lemma settled_trigger (m : Machine W) : settled m -> settled (triggerScrollEvents page m).
Proof. intros [Hl Hs]. split; [now apply (live_trigger page inv Hinv) | exact Hs]. Qed.

Lemma settled_capture (m : Machine W) : settled m -> settled (capture page engine platform m).
Proof. intros [Hl Hs]. apply capture_settles; auto. Qed.

Lemma settled_sweepBody scrollStep v (m : Machine W) :
  settled m -> settled (snd (sweepBody page engine platform scrollStep v m)).
Proof.
  intros H. unfold sweepBody, sweepAdvance. cbv zeta.
  set (m1 := report page _ _).
  assert (settled m1) as H1.
  { apply settled_report, settled_capture, settled_waitFor, settled_trigger,
      settled_waitFor, settled_scrollBy, H. }
  destruct (atBottomOf page (world m1)).
  - cbn [snd].
    apply settled_capture, settled_waitFor, settled_scrollBy, settled_capture,
      settled_waitFor, H1.
  - destruct (_ && _); exact H1.
Qed.

Lemma settled_sweepLoop fuel scrollStep : forall v (m : Machine W),
  settled m -> settled (snd (sweepLoop page engine fuel platform scrollStep v m)).
Proof.
  induction fuel as [|fuel IH]; intros v m H; cbn [sweepLoop];
    destruct (isCapturing (scraper m)); try exact H.
  pose proof (settled_sweepBody scrollStep v m H) as Hb.
  destruct (sweepBody page engine platform scrollStep v m) as [[[e|] v1] m1];
    cbn [snd] in *; [exact Hb | now apply IH].
Qed.

(** C7, as the code runs it.  On a page at rest, with no load-more
    control, a stable scroll height and the position at the top, whose 40
    rendered messages differ in fingerprint and content: the first turn of
    phase 1 meets the initial [previousScrollHeight = -1] and only records
    the height, the stable-counter is 1, 2, 3 on the turns 2, 3, 4, and
    the loop is left on the fourth turn; what the capture then returns is
    the message of each of the 40 elements, in order, with the orders
    0..39. *)
Theorem scenario_A_four_turns fuel (w : W) :
  distinctMessages platform els -> length els = 40%nat ->
  inv w -> (4 <= fuel)%nat ->
  (forall m : Machine W,
     live inv m ->
     exists v' m',
       scrollToAbsoluteTop page engine fuel platform m = (true, v', m')
       /\ iteration v' = 4%nat /\ stableCount v' = 3%nat
       /\ scrollAttempts (scraper m') = 4%nat)
  /\ (forall out mf,
        captureFullHistory page engine fuel platform w = Some (Returned out, mf) ->
        out = imap renumber (imap (fun i e => extractMessage engine e platform i) els)
        /\ length out = 40%nat
        /\ Message.order <$> out = seq 0 40
        /\ Message.id <$> out = imap (fun i e => msgId (fingerprint e) i) els
        /\ NoDup (fingerprint <$> els)).
Proof.
  intros Hdistinct Hlen Hw Hfuel. split.
  { intros m Hm.
    destruct (scrollToAbsoluteTop_atRest page engine platform inv atTop height Hrest fuel m
                Hm Hfuel) as (v' & m' & E & H1 & H2 & H3 & _).
    exists v', m'. auto. }
  intros out mf. unfold captureFullHistory. cbv zeta.
  set (m0 := report page _ {| scraper := fresh; world := w; trace := [] |}).
  assert (live inv m0 /\ store (scraper m0) = store fresh) as [L0 S0].
  { split; [apply (live_report page inv Hinv); split; [exact Hw | reflexivity]|].
    unfold m0. now rewrite store_report. }
  destruct (findChatContainer platform (document page (world m0))); [|discriminate].
  set (m1 := report page _ m0).
  assert (live inv m1 /\ store (scraper m1) = store fresh) as [L1 S1].
  { split; [now apply (live_report page inv Hinv)|]. unfold m1. now rewrite store_report. }
  destruct (scrollToAbsoluteTop_atRest page engine platform inv atTop height Hrest fuel m1
              L1 Hfuel) as (v2 & m2 & E2 & _ & _ & _ & L2).
  pose proof (store_scrollToAbsoluteTop page engine platform fuel m1) as S2.
  rewrite E2 in S2 |- *. cbn [snd] in S2.
  set (m3 := report page _ m2).
  assert (live inv m3 /\ store (scraper m3) = store fresh) as [L3 S3].
  { split; [now apply (live_report page inv Hinv)|].
    unfold m3. rewrite store_report. congruence. }
  assert (settled (snd (scrollAndCaptureAll page engine fuel platform m3))) as [_ S4].
  { unfold scrollAndCaptureAll. cbv zeta. apply settled_sweepLoop.
    apply capture_settles.
    - apply (live_waitFor page inv Hinv), (live_setScrollTop page inv Hinv), L3.
    - left. now rewrite store_waitFor. }
  destruct (scrollAndCaptureAll page engine fuel platform m3) as [[[ex|] v4] m4];
    [|discriminate].
  cbn [snd] in S4. intros [= <- _].
  assert (processMessages (scraper (report page
            {| phase := finalizing;
               message := js "Crystallizing message data structures...";
               progress := 95; count := None |} m4))
          = imap renumber (imap (fun i e => extractMessage engine e platform i) els)) as ->.
  { rewrite <- (processMessages_distinct engine platform els Hdistinct).
    apply processMessages_store. now rewrite store_report. }
  split; [reflexivity|]. split; [now rewrite !length_imap|].
  split; [rewrite imap_renumber_orders, length_imap; now rewrite Hlen|].
  split; [|apply Hdistinct].
  apply list_eq. intros i.
  rewrite list_lookup_fmap, !list_lookup_imap. now destruct (els !! i).
Qed.

End AtRestCapture.

Lemma still_atRest messages :
  findLoadMore Sample.engine Sample.generic (Sample.documentOf messages) = None ->
  hasLoadMoreButton Sample.engine Sample.generic (Sample.documentOf messages) = false ->
  atRest (Sample.still messages) Sample.engine Sample.generic
         (fun _ => True) (fun w => Qle_bool w 5 = true) 4000.
Proof.
  intros Hnone Hno. split; [|split].
  - intros w _. repeat split.
  - intros w _. split; [exact Hnone|]. split; [exact Hno|]. split; reflexivity.
  - intros w Hw. split; [intros ms; exact Hw|]. split; [intros e; exact Hw | exact Hw].
Qed.

Lemma scenario_A_four_turns_witness :
  atRest (Sample.still (Sample.rendered 40)) Sample.engine Sample.generic
         (fun _ => True) (fun w => Qle_bool w 5 = true) 4000
  /\ rendersOnly (Sample.still (Sample.rendered 40)) Sample.generic (fun _ => True)
                 (Sample.rendered 40)
  /\ distinctMessages Sample.generic (Sample.rendered 40)
  /\ length (Sample.rendered 40) = 40%nat
  /\ (4 <= 300)%nat
  /\ exists out mf,
       captureFullHistory (Sample.still (Sample.rendered 40)) Sample.engine 300
                          Sample.generic 0%Q = Some (Returned out, mf)
       /\ length out = 40%nat
       /\ Message.order <$> out = seq 0 40.
Proof.
  assert (atRest (Sample.still (Sample.rendered 40)) Sample.engine Sample.generic
                 (fun _ => True) (fun w => Qle_bool w 5 = true) 4000) as Hrest
      by (apply still_atRest; vm_compute; reflexivity).
  assert (rendersOnly (Sample.still (Sample.rendered 40)) Sample.generic (fun _ => True)
                      (Sample.rendered 40)) as Hrend
      by (intros w _; vm_compute; reflexivity).
  assert (distinctMessages Sample.generic (Sample.rendered 40)) as Hdistinct.
  { split; [|split].
    - apply (bool_decide_unpack (NoDup (fingerprint <$> Sample.rendered 40))).
      vm_compute. exact I.
    - apply (bool_decide_unpack
               (NoDup ((fun e => hashElement (OfPlain (extractContent e Sample.generic)))
                         <$> Sample.rendered 40))).
      vm_compute. exact I.
    - apply list.Forall_forall.
      apply (bool_decide_unpack
               (Forall (fun e => trim (extractContent e Sample.generic) <> [])
                       (Sample.rendered 40))).
      vm_compute. exact I. }
  assert (4 <= 300)%nat as Hfuel by lia.
  split; [exact Hrest|]. split; [exact Hrend|]. split; [exact Hdistinct|].
  split; [reflexivity|]. split; [exact Hfuel|].
  eexists _, _. split; [vm_compute; reflexivity|].
  match goal with
  | |- length ?out = _ /\ _ =>
      destruct (proj2 (scenario_A_four_turns (Sample.still (Sample.rendered 40)) Sample.engine
                         Sample.generic (fun _ => True) (fun w => Qle_bool w 5 = true) 4000
                         (Sample.rendered 40) Hrest Hrend 300 0%Q Hdistinct eq_refl I Hfuel)
                      out _ ltac:(vm_compute; reflexivity))
        as (_ & Hl & Ho & _)
  end.
  split; [exact Hl | exact Ho].
Defined.

(* --------------------------------------------------------------------- *)
(** ** Scenario A on the sample page *)

(** The run on the sample page with forty messages: phase 1 is left on
    its fourth turn with the stable-counter at 3, and the capture returns
    the forty messages with the orders 0..39. *)
Lemma still_forty_run :
  let page := Sample.still (Sample.rendered 40) in
  (exists v' m',
     scrollToAbsoluteTop page Sample.engine 300 Sample.generic (Sample.start 0%Q)
     = (true, v', m')
     /\ iteration v' = 4%nat /\ stableCount v' = 3%nat)
  /\ hasLoadMoreButton Sample.engine Sample.generic (document page 0%Q) = false
  /\ NoDup (fingerprint <$> Sample.rendered 40)
  /\ exists out m,
       captureFullHistory page Sample.engine 300 Sample.generic 0%Q = Some (Returned out, m)
       /\ scrollAttempts (scraper m) = 4%nat
       /\ length out = 40%nat
       /\ Message.order <$> out = seq 0 40
       /\ Message.id <$> out
          = imap (fun i el => msgId (fingerprint el) i) (Sample.rendered 40).
Proof.
  intros page. split.
  { eexists _, _. split; [vm_compute; reflexivity|]. split; reflexivity. }
  split; [vm_compute; reflexivity|].
  split.
  { apply (bool_decide_unpack (NoDup (fingerprint <$> Sample.rendered 40))).
    vm_compute. exact I. }
  eexists _, _. split; [vm_compute; reflexivity|].
  repeat split; vm_compute; reflexivity.
Qed.

(** C7 as stated fails: the loop of phase 1 is not left after three
    turns. *)
Lemma scenario_A_not_three_turns :
  iteration (snd (fst (scrollToAbsoluteTop (Sample.still (Sample.rendered 40)) Sample.engine
                         300 Sample.generic (Sample.start 0%Q)))) <> 3%nat.
Proof. vm_compute. discriminate. Qed.

(* ===================================================================== *)
(** * Further properties *)
(* ===================================================================== *)

(* --------------------------------------------------------------------- *)
(** ** Fingerprints: the two namespaces *)

Section Namespaces.

Lemma hexDigits_alphabet u c : c ∈ hexDigits u -> isHexChar c.
Proof.
  unfold isHexChar. induction u; simpl; intros H;
    try (apply elem_of_cons in H as [-> | H]; [lia | auto]).
  inversion H.
Qed.

Lemma toString16_alphabet z c : c ∈ toString16 z -> isHexChar c.
Proof.
  unfold toString16. destruct (z <? 0); intros H.
  - apply elem_of_cons in H as [-> | H]; [left; reflexivity | eapply hexDigits_alphabet, H].
  - eapply hexDigits_alphabet, H.
Qed.

Lemma hashLoop_snoc str c : hashLoop (str ++ [c]) = hashStep (hashLoop str) c.
Proof. unfold hashLoop. now rewrite fold_left_app. Qed.

(** X1: the number [hashString] renders is a signed 32-bit integer, and the
    rendering holds only the minus sign and the lower-case hexadecimal
    digits. *)
Theorem hashString_int32 (str : jsstring) :
  - 2 ^ 31 <= hashLoop str < 2 ^ 31
  /\ hashString str = toString16 (hashLoop str)
  /\ Forall isHexChar (hashString str).
Proof.
  split; [|split; [reflexivity | apply list.Forall_forall, toString16_alphabet]].
  induction str as [|c s _] using rev_ind.
  - unfold hashLoop. simpl. lia.
  - rewrite hashLoop_snoc, hashStep_wraps. apply toInt32_range.
Qed.

Lemma fingerprint_of_id el :
  stableId el <> [] -> fingerprint el = js "id_" ++ stableId el.
Proof.
  unfold fingerprint, hashElement, stableId. intros H.
  destruct (attrOr "data-message-id" el (attrOr "data-id" el [])); [congruence | reflexivity].
Qed.

(** X2: an element with a stable id has the fingerprint [id_] + id, whatever
    its text and class; two such fingerprints are equal exactly when the
    ids are; and no fingerprint made from an id equals one made by hashing
    the content. *)
Theorem fingerprint_namespaces (el el' : Element) :
  stableId el <> [] ->
  fingerprint el = js "id_" ++ stableId el
  /\ (stableId el' <> [] -> (fingerprint el = fingerprint el' <-> stableId el = stableId el'))
  /\ (noStableId el' -> fingerprint el <> fingerprint el').
Proof.
  intros Hid. pose proof (fingerprint_of_id el Hid) as E. split; [exact E|]. split.
  - intros Hid'. rewrite E, (fingerprint_of_id el' Hid'). split.
    + now intros H%app_inv_head.
    + now intros ->.
  - intros Hno H. rewrite E in H. unfold fingerprint in H.
    rewrite (hashElement_content el' Hno) in H.
    assert (isHexChar 105%N) as Hc.
    { apply (toString16_alphabet (hashLoop (trim (slice0 300 (textContent el'))
                                                 ++ slice0 50 (className el')))).
      fold (hashString (trim (slice0 300 (textContent el')) ++ slice0 50 (className el'))).
      rewrite <- H. left. }
    unfold isHexChar in Hc. lia.
Qed.

End Namespaces.

Lemma fingerprint_namespaces_witness :
  stableId (Sample.messageElement 1) <> []
  /\ stableId (Sample.messageElement 2) <> []
  /\ noStableId Sample.padded
  /\ fingerprint (Sample.messageElement 1) <> fingerprint (Sample.messageElement 2)
  /\ fingerprint (Sample.messageElement 1) <> fingerprint Sample.padded.
Proof.
  assert (stableId (Sample.messageElement 1) <> []) as H1 by (vm_compute; discriminate).
  assert (stableId (Sample.messageElement 2) <> []) as H2 by (vm_compute; discriminate).
  assert (noStableId Sample.padded) as H3 by reflexivity.
  destruct (fingerprint_namespaces (Sample.messageElement 1) (Sample.messageElement 2) H1)
    as (_ & Hiff & _).
  destruct (fingerprint_namespaces (Sample.messageElement 1) Sample.padded H1)
    as (_ & _ & Hne).
  repeat split; try assumption.
  - intros E. apply (Hiff H2) in E. vm_compute in E. discriminate.
  - now apply Hne.
Defined.

(* --------------------------------------------------------------------- *)
(** ** Extracted content is trimmed *)

Section Trimmed.

Lemma trimStart_head s c t : trimStart s = c :: t -> isWhiteSpace c = false.
Proof.
  induction s as [|a s IH]; simpl; [discriminate|].
  destruct (isWhiteSpace a) eqn:E; [exact IH|]. now intros [= <- _].
Qed.

Lemma trimStart_fixed c t : isWhiteSpace c = false -> trimStart (c :: t) = c :: t.
Proof. intros H. simpl. now rewrite H. Qed.

Lemma trimStart_idem s : trimStart (trimStart s) = trimStart s.
Proof.
  destruct (trimStart s) as [|c t] eqn:E; [reflexivity|].
  apply trimStart_fixed. eapply trimStart_head, E.
Qed.

Lemma trimEnd_idem s : trimEnd (trimEnd s) = trimEnd s.
Proof. unfold trimEnd. now rewrite rev_involutive, trimStart_idem. Qed.

Lemma trimStart_snoc l c :
  trimStart (l ++ [c]) = trimStart l ++ [c]
  \/ (trimStart l = [] /\ trimStart (l ++ [c]) = trimStart [c]).
Proof.
  induction l as [|a l IH]; [right; split; reflexivity|].
  simpl. destruct (isWhiteSpace a); [exact IH | left; reflexivity].
Qed.

(** Trimming the end leaves the first character where it is. *)
Lemma trimEnd_cons c t : trimEnd (c :: t) = [] \/ exists r, trimEnd (c :: t) = c :: r.
Proof.
  unfold trimEnd. simpl rev.
  destruct (trimStart_snoc (rev t) c) as [-> | [_ ->]].
  - right. rewrite rev_app_distr. simpl. eauto.
  - simpl. destruct (isWhiteSpace c); [left | right; exists []]; reflexivity.
Qed.

Lemma trim_idem s : trim (trim s) = trim s.
Proof.
  unfold trim. destruct (trimStart s) as [|c t] eqn:E; [reflexivity|].
  pose proof (trimStart_head s c t E) as Hc.
  destruct (trimEnd_cons c t) as [H | [r H]]; rewrite H.
  - reflexivity.
  - rewrite (trimStart_fixed c r Hc), <- H. apply trimEnd_idem.
Qed.

Lemma getCleanText_trimmed el : trim (getCleanText el) = getCleanText el.
Proof. unfold getCleanText. cbv zeta. rewrite orElse_nil. apply trim_idem. Qed.

Lemma genericContent_found el sels text :
  genericContent el sels = Some text ->
  exists selector contentEl,
    selector ∈ sels /\ querySelector selector el = Some contentEl
    /\ text = getCleanText contentEl /\ text <> [].
Proof.
  induction sels as [|selector sels IH]; simpl; [discriminate|].
  destruct (querySelector selector el) as [contentEl|] eqn:E.
  - destruct (0 <? length (getCleanText contentEl))%nat eqn:L.
    + intros [= <-]. exists selector, contentEl. repeat split; [left | exact E |].
      apply Nat.ltb_lt in L. intros H0. rewrite H0 in L. simpl in L. lia.
    + intros H. destruct (IH H) as (s & c & Hs & Hq & Ht & Hn).
      exists s, c. repeat split; try assumption. now right.
  - intros H. destruct (IH H) as (s & c & Hs & Hq & Ht & Hn).
    exists s, c. repeat split; try assumption. now right.
Qed.

(** X3: whatever [extractContent] returns is already trimmed, so the test
    of [captureVisibleMessages] on the trimmed content is a test for the
    empty string. *)
Theorem extractContent_trimmed (el : Element) (platform : Platform) :
  trim (extractContent el platform) = extractContent el platform
  /\ (keeps (extractContent el platform) = true <-> extractContent el platform <> []).
Proof.
  assert (trim (extractContent el platform) = extractContent el platform) as H.
  { unfold extractContent.
    destruct (override messageContent platform) as [sel|].
    - destruct (querySelector sel el) as [contentEl|]; [apply getCleanText_trimmed|].
      destruct (genericContent el contentSelectors) as [text|] eqn:G;
        [|apply getCleanText_trimmed].
      apply genericContent_found in G as (_ & c & _ & _ & -> & _). apply getCleanText_trimmed.
    - destruct (genericContent el contentSelectors) as [text|] eqn:G;
        [|apply getCleanText_trimmed].
      apply genericContent_found in G as (_ & c & _ & _ & -> & _). apply getCleanText_trimmed. }
  split; [exact H|]. rewrite keeps_true, H. reflexivity.
Qed.

(** X4: when the platform's content selector finds nothing in the element
    (or there is none), the content is the cleaned text of the first match
    of a generic selector that is not empty, or else the element's own
    cleaned text; so it is empty only if the element's own cleaned text
    is. *)
Theorem extractContent_generic (el : Element) (platform : Platform) :
  noPlatformContent el platform ->
  ((exists selector contentEl,
      selector ∈ contentSelectors /\ querySelector selector el = Some contentEl
      /\ extractContent el platform = getCleanText contentEl
      /\ getCleanText contentEl <> [])
   \/ (genericContent el contentSelectors = None
       /\ extractContent el platform = getCleanText el))
  /\ (extractContent el platform = [] -> getCleanText el = []).
Proof.
  unfold noPlatformContent, extractContent. intros Hno.
  assert (match override messageContent platform with
          | Some sel => match querySelector sel el with
                        | Some contentEl => Some (getCleanText contentEl)
                        | None => None
                        end
          | None => None
          end = None) as ->.
  { destruct (override messageContent platform); [now rewrite Hno | reflexivity]. }
  destruct (genericContent el contentSelectors) as [text|] eqn:G.
  - apply genericContent_found in G as (s & c & Hs & Hq & -> & Hn). split.
    + left. exists s, c. auto.
    + intros H. contradiction.
  - split; [right; auto | auto].
Qed.

End Trimmed.

Lemma extractContent_generic_witness :
  noPlatformContent Sample.hollow Sample.generic
  /\ (extractContent Sample.hollow Sample.generic = [] -> getCleanText Sample.hollow = []).
Proof.
  split; [exact I|].
  apply (extractContent_generic Sample.hollow Sample.generic). exact I.
Defined.

(* --------------------------------------------------------------------- *)
(** ** The message elements come from one selector *)

Section OneSelector.

Lemma firstNonEmpty_app l1 l2 document :
  firstNonEmpty (l1 ++ l2) document
  = match firstNonEmpty l1 document with
    | Some r => Some r
    | None => firstNonEmpty l2 document
    end.
Proof.
  induction l1 as [|s l1 IH]; simpl; [reflexivity|].
  destruct (querySelectorAll [s] document); [exact IH | reflexivity].
Qed.

Lemma firstNonEmpty_spec sels document :
  match firstNonEmpty sels document with
  | Some elements =>
      elements <> []
      /\ exists before selector after,
           sels = before ++ selector :: after
           /\ elements = querySelectorAll [selector] document
           /\ forall s, s ∈ before -> querySelectorAll [s] document = []
  | None => forall s, s ∈ sels -> querySelectorAll [s] document = []
  end.
Proof.
  induction sels as [|s sels IH]; simpl.
  - intros s H. inversion H.
  - destruct (querySelectorAll [s] document) as [|e r] eqn:E.
    + destruct (firstNonEmpty sels document) as [elements|].
      * destruct IH as (Hn & before & selector & after & -> & He & Hb).
        split; [exact Hn|]. exists (s :: before), selector, after.
        repeat split; [exact He|]. intros s' [-> | H]%elem_of_cons; auto.
      * intros s' [-> | H]%elem_of_cons; auto.
    + split; [discriminate|]. exists [], s, sels. repeat split; [now rewrite E|].
      intros s' H. inversion H.
Qed.

Lemma findMessageElements_first platform document :
  findMessageElements platform document
  = match firstNonEmpty (messageSelectors platform) document with
    | Some elements => elements
    | None => []
    end.
Proof.
  unfold findMessageElements, messageSelectors. rewrite firstNonEmpty_app.
  destruct (override chatMessage platform) as [sels|]; simpl.
  - destruct (firstNonEmpty sels document); reflexivity.
  - reflexivity.
Qed.

(** X5: [findMessageElements] returns the matches of one selector, the
    first of the platform's pieces and then of the generic list that
    matches anything; match sets are never merged, and the result is empty
    only when no selector matches. *)
Theorem findMessageElements_one_selector (platform : Platform) (document : Element) :
  (findMessageElements platform document = []
   /\ forall s, s ∈ messageSelectors platform -> querySelectorAll [s] document = [])
  \/ (findMessageElements platform document <> []
      /\ exists before selector after,
           messageSelectors platform = before ++ selector :: after
           /\ findMessageElements platform document = querySelectorAll [selector] document
           /\ forall s, s ∈ before -> querySelectorAll [s] document = []).
Proof.
  rewrite findMessageElements_first.
  pose proof (firstNonEmpty_spec (messageSelectors platform) document) as H.
  destruct (firstNonEmpty (messageSelectors platform) document) as [elements|].
  - right. exact H.
  - left. split; [reflexivity | exact H].
Qed.

End OneSelector.

(* --------------------------------------------------------------------- *)
(** ** No chat container *)

Section Container.
Context {W : Type} (page : Page W) (engine : Engine) (platform : Platform).


End Container.


(* --------------------------------------------------------------------- *)
(** ** What the load-more click hits *)

Section Clicked.
Context {W : Type} (page : Page W) (engine : Engine) (platform : Platform).

Lemma querySelectorAll_descendant sel root e :
  e ∈ querySelectorAll sel root -> e ∈ (snd <$> descendantsFrom [] root).
Proof.
  unfold querySelectorAll. intros H.
  apply list_elem_of_In, in_map_iff in H as ((anc & e') & <- & H).
  apply filter_In in H as [H _]. apply list_elem_of_fmap. exists (anc, e').
  split; [reflexivity | now apply list_elem_of_In].
Qed.

Lemma querySelector_descendant sel root e :
  querySelector sel root = Some e -> e ∈ (snd <$> descendantsFrom [] root).
Proof.
  unfold querySelector. intros H. apply (querySelectorAll_descendant sel).
  destruct (querySelectorAll sel root); [discriminate|]. injection H as ->. left.
Qed.

Lemma firstClickable_visible sels document e :
  firstClickable sels document = Some e ->
  isVisible e = true /\ disabled e = false /\ e ∈ (snd <$> descendantsFrom [] document).
Proof.
  induction sels as [|s sels IH]; simpl; [discriminate|].
  destruct (querySelector s document) as [c|] eqn:E; [|exact IH].
  destruct (isVisible c && negb (disabled c)) eqn:V; [|exact IH].
  intros [= <-]. apply andb_true_iff in V as [V D]. apply negb_true_iff in D.
  repeat split; try assumption. eapply querySelector_descendant, E.
Qed.

Lemma labelledLoadMore_visible e : labelledLoadMore engine e = true -> isVisible e = true.
Proof.
  unfold labelledLoadMore. intros H. apply existsb_exists in H as (p & _ & H).
  now apply andb_true_iff in H as [_ H].
Qed.

Lemma findLoadMore_visible document e :
  findLoadMore engine platform document = Some e ->
  isVisible e = true /\ e ∈ (snd <$> descendantsFrom [] document).
Proof.
  unfold findLoadMore.
  pose proof (firstClickable_visible loadMorePatterns document) as HF.
  pose proof (fun s => querySelector_descendant s document) as HQ.
  pose proof (fun x => querySelectorAll_descendant clickableSelector document x) as HA.
  generalize dependent (firstClickable loadMorePatterns document).
  generalize dependent (querySelectorAll clickableSelector document).
  intros candidates HA first HF.
  assert (match first with
          | Some element => Some element
          | None => List.find (labelledLoadMore engine) candidates
          end = Some e ->
          isVisible e = true /\ e ∈ (snd <$> descendantsFrom [] document)) as Hrest.
  { destruct first as [c|].
    - intros [= <-]. destruct (HF c eq_refl) as (? & _ & ?). now split.
    - intros H. apply find_some in H as [Hin Hl]. split.
      + now apply labelledLoadMore_visible.
      + apply HA, list_elem_of_In, Hin. }
  destruct (override loadMoreButton platform) as [sel|]; [|exact Hrest].
  specialize (HQ sel). destruct (querySelector sel document) as [btn|]; [|exact Hrest].
  destruct (isVisible btn && negb (disabled btn)) eqn:V; [|exact Hrest].
  intros [= <-]. apply andb_true_iff in V as [V _]. split; [exact V | now apply HQ].
Qed.

(** X7: whatever [tryClickLoadMore] clicks is an element of the document
    that [isVisible] accepts; when it finds nothing it reports [false] and
    leaves the page as it is; a click changes neither the scraper nor the
    progress events. *)
Theorem tryClickLoadMore_clicks_visible (m : Machine W) :
  match findLoadMore engine platform (document page (world m)) with
  | Some element =>
      isVisible element = true
      /\ element ∈ (snd <$> descendantsFrom [] (document page (world m)))
      /\ tryClickLoadMore page engine platform m
         = (true, {| scraper := scraper m; world := click page element (world m);
                     trace := trace m |})
  | None => tryClickLoadMore page engine platform m = (false, m)
  end.
Proof.
  unfold tryClickLoadMore.
  pose proof (findLoadMore_visible (document page (world m))) as H.
  destruct (findLoadMore engine platform (document page (world m))) as [element|];
    [|reflexivity].
  destruct (H element eq_refl). repeat split; assumption.
Qed.

End Clicked.

(* --------------------------------------------------------------------- *)
(** ** A capture pass counts what it appends *)

Section Passes.
Context (engine : Engine) (platform : Platform).

Local Abbreviation step := (captureElement engine platform).
Local Abbreviation observe := (observe engine platform).

Lemma captureCounting_count n s el :
  (length (capturedMessages (snd (captureCounting engine platform (n, s) el)))
   + n = length (capturedMessages s) + fst (captureCounting engine platform (n, s) el))%nat.
Proof.
  unfold captureCounting.
  repeat match goal with |- context [if ?b then _ else _] => destruct b end;
    simpl; rewrite ?length_app; simpl; lia.
Qed.

Lemma fold_captureCounting_count els : forall n s,
  (length (capturedMessages (snd (fold_left (captureCounting engine platform) els (n, s))))
   + n
   = length (capturedMessages s)
     + fst (fold_left (captureCounting engine platform) els (n, s)))%nat.
Proof.
  induction els as [|el els IH]; intros n s; cbn [fold_left]; [simpl; lia|].
  pose proof (captureCounting_count n s el) as H.
  destruct (captureCounting engine platform (n, s) el) as [n' s']. cbn [fst snd] in H.
  specialize (IH n' s'). lia.
Qed.

(** X8: the number [captureVisibleMessages] returns is the number of
    messages it appended to the accumulator. *)
Theorem captureVisibleMessages_count (document : Element) (s : ChatScraper) :
  length (capturedMessages (snd (captureVisibleMessages engine platform document s)))
  = (length (capturedMessages s)
     + fst (captureVisibleMessages engine platform document s))%nat.
Proof.
  unfold captureVisibleMessages, capturePass.
  pose proof (fold_captureCounting_count (findMessageElements platform document) 0 s). lia.
Qed.

Lemma step_extends s el :
  capturedMessages s `prefix_of` capturedMessages (step s el)
  /\ seenMessageHashes s ⊆ seenMessageHashes (step s el)
  /\ isCapturing (step s el) = isCapturing s
  /\ scrollAttempts (step s el) = scrollAttempts s.
Proof.
  destruct (step_cases engine platform s el) as [[-> _]|[[-> _]|[-> _]]]; simpl;
    repeat split; try reflexivity; try (apply union_subseteq_r);
    try (now exists []; rewrite app_nil_r); try (now eexists).
Qed.

Lemma observe_extends els : forall s,
  capturedMessages s `prefix_of` capturedMessages (observe s els)
  /\ seenMessageHashes s ⊆ seenMessageHashes (observe s els)
  /\ isCapturing (observe s els) = isCapturing s
  /\ scrollAttempts (observe s els) = scrollAttempts s.
Proof.
  induction els as [|el els IH]; intros s; simpl.
  - repeat split; reflexivity.
  - destruct (IH (step s el)) as (H1 & H2 & H3 & H4).
    destruct (step_extends s el) as (G1 & G2 & G3 & G4).
    repeat split; [etransitivity; eassumption | etransitivity; eassumption
                  | congruence | congruence].
Qed.

(** X9: a capture pass only appends: the accumulator before the pass is a
    prefix of the accumulator after it, no fingerprint leaves the seen-set,
    and [isCapturing] and [scrollAttempts] are not touched. *)
Theorem captureVisibleMessages_appends (document : Element) (s : ChatScraper) :
  let s' := snd (captureVisibleMessages engine platform document s) in
  capturedMessages s `prefix_of` capturedMessages s'
  /\ seenMessageHashes s ⊆ seenMessageHashes s'
  /\ isCapturing s' = isCapturing s
  /\ scrollAttempts s' = scrollAttempts s.
Proof.
  intros s'. unfold s', captureVisibleMessages. rewrite capturePass_observe.
  apply observe_extends.
Qed.

Lemma observe_seen els : forall s,
  seenMessageHashes (observe s els)
  = list_to_set (fingerprint <$> els) ∪ seenMessageHashes s.
Proof.
  induction els as [|el els IH]; intros s; simpl.
  - now rewrite union_empty_l_L.
  - rewrite IH.
    assert (seenMessageHashes (step s el) = {[fingerprint el]} ∪ seenMessageHashes s) as ->.
    { destruct (step_cases engine platform s el) as [[-> H]|[[-> _]|[-> _]]]; simpl;
        try reflexivity. apply set_eq. intros x. rewrite elem_of_union, elem_of_singleton.
      split; [auto | intros [-> | ?]; auto]. }
    apply set_eq. intros x. rewrite !elem_of_union. tauto.
Qed.

(** X10: after any sequence of capture passes the seen-set is the set of
    the fingerprints of all the elements the passes went over, and the
    accumulator holds no more messages than there are fingerprints in it. *)
Theorem seen_set_of_passes (passes : list (list Element)) :
  let s := runPasses engine platform fresh passes in
  seenMessageHashes s = list_to_set (fingerprint <$> concat passes)
  /\ (length (capturedMessages s) <= size (seenMessageHashes s))%nat.
Proof.
  intros s. split.
  - unfold s. rewrite runPasses_observe, observe_seen. simpl. now rewrite union_empty_r_L.
  - destruct (sourced_passes engine platform passes) as (srcs & Hcap & Hnd & Hall).
    fold s in Hcap, Hall. rewrite Hcap, length_imap, <- (length_fmap fingerprint).
    rewrite <- (size_list_to_set (C := gset jsstring) _ Hnd).
    apply subseteq_size. intros h Hh. apply elem_of_list_to_set in Hh.
    apply list_elem_of_fmap in Hh as (e & -> & He). now apply Hall.
Qed.

End Passes.

(* --------------------------------------------------------------------- *)
(** ** The final list is a fixed point, and the first capture wins *)

Section Final.
Context (engine : Engine) (platform : Platform).

Lemma imap_renumber_twice l : imap renumber (imap renumber l) = imap renumber l.
Proof.
  apply list_eq. intros i. rewrite !list_lookup_imap.
  destruct (l !! i); reflexivity.
Qed.

Lemma dedupFrom_hasText H l : Forall hasText (dedupFrom H l).
Proof.
  apply list.Forall_forall. intros m Hm. now apply dedupFrom_elem in Hm.
Qed.

Lemma processMessages_length s :
  (length (processMessages s) <= length (capturedMessages s))%nat.
Proof.
  rewrite processMessages_kept, length_imap.
  rewrite <- (Permutation_length (sortByOrder_perm (capturedMessages s))).
  apply sublist_length, dedupFrom_sublist.
Qed.

(** X11: [processMessages] gives a fixed point: run on its own result it
    changes nothing.  Every message of the result has text, none carries
    [rawHtml], and there are no more of them than in the accumulator. *)
Theorem processMessages_idempotent (s : ChatScraper) :
  let out := processMessages s in
  processMessages (withMessages out s) = out
  /\ Forall (fun m => hasText m /\ Message.rawHtml m = None) out
  /\ (length out <= length (capturedMessages s))%nat.
Proof.
  intros out. unfold out. split; [|split].
  - rewrite (processMessages_kept (withMessages _ s)). cbn [withMessages capturedMessages].
    rewrite processMessages_kept.
    set (kept := dedupFrom ∅ (sortByOrder (capturedMessages s))).
    rewrite (sortByOrder_seq _ 0); [|now rewrite imap_renumber_orders, length_imap].
    rewrite dedupFrom_all; [apply imap_renumber_twice| |].
    + rewrite imap_renumber_hashes. apply dedupFrom_NoDup.
    + intros m Hm. apply elem_of_imap_renumber in Hm as (i & m0 & Hi & ->).
      split; [|apply not_elem_of_empty]. unfold hasText. rewrite renumber_content.
      apply list_elem_of_lookup_2 in Hi. now apply dedupFrom_elem in Hi.
  - rewrite processMessages_kept. apply list.Forall_forall. intros m Hm.
    apply elem_of_imap_renumber in Hm as (i & m0 & Hi & ->). split; [|reflexivity].
    unfold hasText. rewrite renumber_content.
    apply list_elem_of_lookup_2 in Hi. now apply dedupFrom_elem in Hi.
  - apply processMessages_length.
Qed.

Lemma dedupFrom_first l : forall H m,
  m ∈ dedupFrom H l ->
  exists before after,
    l = before ++ m :: after
    /\ Forall (fun x => hasText x -> contentHashOf x <> contentHashOf m) before.
Proof.
  induction l as [|msg l IH]; intros H m; simpl; [intros Hm; inversion Hm|].
  destruct (negb (bool_decide (contentHashOf msg ∈ H))
            && (0 <? length (trim (Message.content msg)))%nat) eqn:E.
  - intros Hm. apply elem_of_cons in Hm as [-> | Hm].
    + exists [], l. split; [reflexivity | constructor].
    + pose proof (proj1 (dedupFrom_elem _ _ _ Hm)) as Hnot.
      apply IH in Hm as (before & after & -> & Hb).
      exists (msg :: before), after. split; [reflexivity|]. constructor; [|exact Hb].
      intros _ Heq. apply Hnot. rewrite <- Heq. apply elem_of_union_l, elem_of_singleton.
      reflexivity.
  - intros Hm. pose proof (proj1 (dedupFrom_elem _ _ _ Hm)) as Hnot.
    apply IH in Hm as (before & after & -> & Hb).
    exists (msg :: before), after. split; [reflexivity|]. constructor; [|exact Hb].
    intros Ht Heq. apply andb_false_iff in E as [E | E].
    + apply negb_false_iff, bool_decide_eq_true in E. apply Hnot. now rewrite <- Heq.
    + apply Nat.ltb_ge in E. apply Ht. apply nil_length_inv. lia.
Qed.

(** X12: of the captured messages with one content the first capture is
    the one that stays.  Each message of the final list is, up to its new
    [order], a message [m0] of the accumulator before which no message has
    the same content hash; [m0] was made from an element at the index at
    which it stands, so the final id carries the fingerprint and the index
    of that first capture. *)
Theorem first_capture_wins (passes : list (list Element)) :
  let s := runPasses engine platform fresh passes in
  Forall (fun m =>
            exists before m0 after el,
              capturedMessages s = before ++ m0 :: after
              /\ m = renumber (Message.order m) m0
              /\ m0 = extractMessage engine el platform (length before)
              /\ Message.id m = msgId (fingerprint el) (length before)
              /\ Forall (fun x => contentHashOf x <> contentHashOf m0) before)
         (processMessages s).
Proof.
  intros s. apply list.Forall_forall. intros m Hm.
  rewrite processMessages_kept in Hm. unfold s in Hm. rewrite passes_sorted in Hm. fold s in Hm.
  apply elem_of_imap_renumber in Hm as (i & m0 & Hi & ->).
  apply list_elem_of_lookup_2, dedupFrom_first in Hi as (before & after & Hcap & Hb).
  destruct (sourced_passes engine platform passes) as (srcs & Hsrc). fold s in Hsrc.
  assert (capturedMessages s !! length before = Some m0) as Hl.
  { rewrite Hcap. now apply list_lookup_middle. }
  destruct (sourced_lookup engine platform srcs s _ _ Hsrc Hl) as (el & _ & Hm0 & _).
  exists before, m0, after, el. repeat split; try assumption.
  - rewrite renumber_id, Hm0. apply extract_id.
  - apply list.Forall_forall. intros x Hx. apply (proj1 (list.Forall_forall _ _) Hb x Hx).
    apply (passes_hasText engine platform passes). fold s. rewrite Hcap.
    apply elem_of_app. now left.
Qed.

End Final.

Lemma remounted_message_kept_once :
  Message.id <$> processMessages (runPasses Sample.engine Sample.generic fresh
                                            [[Cases.remountA]; [Cases.remountB]])
  = [msgId (fingerprint Cases.remountA) 0].
Proof. vm_compute. reflexivity. Qed.

(* --------------------------------------------------------------------- *)
(** ** A run that is stopped *)

Section Stopped.
Context {W : Type} (page : Page W) (engine : Engine) (platform : Platform).

Lemma stop_stopped s : isCapturing s = false -> stop s = s.
Proof. destruct s; simpl; intros ->; reflexivity. Qed.

Lemma waitFor_stopped ms (m : Machine W) :
  isCapturing (scraper m) = false -> scraper (waitFor page ms m) = scraper m.
Proof.
  intros H. unfold waitFor. destruct (wait page ms (world m)) as [w []]; simpl;
    [now apply stop_stopped | reflexivity].
Qed.

Lemma report_stopped p (m : Machine W) :
  isCapturing (scraper m) = false -> scraper (report page p m) = scraper m.
Proof.
  intros H. unfold report. destruct (onProgress page p (world m)) as [w []]; simpl;
    [now apply stop_stopped | reflexivity].
Qed.

Lemma topLoop_stopped fuel v (m : Machine W) :
  isCapturing (scraper m) = false -> topLoop page engine fuel platform v m = (true, v, m).
Proof. intros H. destruct fuel; simpl; rewrite H, andb_false_r; reflexivity. Qed.

Lemma sweepLoop_stopped fuel scrollStep v (m : Machine W) :
  isCapturing (scraper m) = false ->
  sweepLoop page engine fuel platform scrollStep v m = (Some Cancelled, v, m).
Proof. intros H. destruct fuel; simpl; rewrite H; reflexivity. Qed.

Lemma scrollToAbsoluteTop_stopped fuel (m : Machine W) :
  isCapturing (scraper m) = false ->
  exists m', scrollToAbsoluteTop page engine fuel platform m = (true, firstTurn, m')
             /\ scraper m' = scraper m /\ trace m' = trace m.
Proof.
  intros H. unfold scrollToAbsoluteTop. cbv zeta. eexists. split.
  - apply topLoop_stopped. rewrite waitFor_stopped; exact H.
  - split; [rewrite waitFor_stopped; [reflexivity | exact H] | rewrite trace_waitFor; reflexivity].
Qed.

Lemma scrollAndCaptureAll_stopped fuel (m : Machine W) :
  isCapturing (scraper m) = false ->
  exists v m' w',
    scrollAndCaptureAll page engine fuel platform m = (Some Cancelled, v, m')
    /\ scraper m'
       = snd (captureVisibleMessages engine platform (document page w') (scraper m))
    /\ trace m' = trace m.
Proof.
  intros H. unfold scrollAndCaptureAll. cbv zeta.
  set (m1 := waitFor page 500 (onWorld (setScrollTop page 0) m)).
  assert (scraper m1 = scraper m) as H1.
  { unfold m1. rewrite waitFor_stopped; [reflexivity | exact H]. }
  eexists _, _, (world m1). split.
  - apply sweepLoop_stopped. rewrite isCapturing_capture, H1. exact H.
  - split; [cbn [capture onScraper scraper]; now rewrite H1|].
    cbn [capture onScraper trace]. unfold m1. rewrite trace_waitFor. reflexivity.
Qed.

(** X13: a [stop()] at the first progress event does not abort the call.
    For any bound on the loops it returns: phase 1 makes no turn, phase 2
    makes its first capture pass and no scroll step, and the messages of
    this one pass are finalised and returned, after the five events the
    function emits itself. *)
Theorem stop_at_first_event fuel (w : W) :
  snd (onProgress page eventInitializing w) = true ->
  is_Some (findChatContainer platform
             (document page (fst (onProgress page eventInitializing w)))) ->
  exists out m w',
    captureFullHistory page engine fuel platform w = Some (Returned out, m)
    /\ out = processMessages
               (snd (captureVisibleMessages engine platform (document page w') (stop fresh)))
    /\ trace m = [eventInitializing; eventScrolling; eventExtracting; eventFinalizing;
                  eventComplete (length out)]
    /\ scrollAttempts (scraper m) = 0%nat.
Proof.
  intros Hstop [c Hc]. unfold captureFullHistory. cbv zeta.
  set (m0 := report page _ {| scraper := fresh; world := w; trace := [] |}).
  assert (scraper m0 = stop fresh /\ trace m0 = [eventInitializing]
          /\ world m0 = fst (onProgress page eventInitializing w)) as (S0 & T0 & W0).
  { unfold m0, report. cbn [world scraper trace]. fold eventInitializing.
    destruct (onProgress page eventInitializing w) as [w0 b]. simpl in Hstop. subst b.
    repeat split. }
  rewrite W0, Hc.
  set (m1 := report page _ m0).
  assert (scraper m1 = stop fresh) as S1.
  { unfold m1. rewrite report_stopped; rewrite S0; reflexivity. }
  destruct (scrollToAbsoluteTop_stopped fuel m1) as (m2 & -> & S2 & T2);
    [now rewrite S1|].
  set (m3 := report page _ m2).
  assert (scraper m3 = stop fresh) as S3.
  { unfold m3. rewrite report_stopped; rewrite S2, S1; reflexivity. }
  destruct (scrollAndCaptureAll_stopped fuel m3) as (v & m4 & w' & -> & S4 & T4);
    [now rewrite S3|].
  rewrite S3 in S4.
  assert (isCapturing (scraper m4) = false) as C4.
  { rewrite S4. unfold captureVisibleMessages. rewrite capturePass_observe.
    now rewrite (proj1 (proj2 (proj2 (observe_extends engine platform _ _)))). }
  set (m5 := report page _ m4).
  assert (scraper m5 = scraper m4) as S5 by (now apply report_stopped).
  rewrite S5, S4. eexists _, _, w'. split; [reflexivity|]. split; [reflexivity|].
  split.
  - cbn [onScraper trace]. rewrite trace_report. unfold m5. rewrite trace_report, T4.
    unfold m3. rewrite trace_report, T2. unfold m1. rewrite trace_report, T0. reflexivity.
  - cbn [onScraper scraper stop scrollAttempts]. rewrite report_stopped.
    + rewrite S5, S4. unfold captureVisibleMessages. rewrite capturePass_observe.
      now rewrite (proj2 (proj2 (proj2 (observe_extends engine platform _ _)))).
    + now rewrite S5.
Qed.

End Stopped.

Lemma stop_at_first_event_witness :
  exists out m w',
    captureFullHistory Cases.stopping Sample.engine 0 Sample.generic 0%Q
    = Some (Returned out, m)
    /\ out = processMessages
               (snd (captureVisibleMessages Sample.engine Sample.generic
                       (document Cases.stopping w') (stop fresh)))
    /\ trace m = [eventInitializing; eventScrolling; eventExtracting; eventFinalizing;
                  eventComplete (length out)]
    /\ scrollAttempts (scraper m) = 0%nat.
Proof.
  apply (stop_at_first_event Cases.stopping Sample.engine Sample.generic 0%nat 0%Q).
  - reflexivity.
  - vm_compute. eexists. reflexivity.
Defined.

(* --------------------------------------------------------------------- *)
(** ** Turns of phase 1 *)

Section Turns.
Context {W : Type} (page : Page W) (engine : Engine) (platform : Platform).

Lemma attempts_waitFor ms (m : Machine W) :
  scrollAttempts (scraper (waitFor page ms m)) = scrollAttempts (scraper m).
Proof. unfold waitFor. destruct (wait page ms (world m)) as [w []]; reflexivity. Qed.

Lemma attempts_report p (m : Machine W) :
  scrollAttempts (scraper (report page p m)) = scrollAttempts (scraper m).
Proof. unfold report. destruct (onProgress page p (world m)) as [w []]; reflexivity. Qed.

Lemma attempts_tryClick (m : Machine W) :
  scrollAttempts (scraper (snd (tryClickLoadMore page engine platform m)))
  = scrollAttempts (scraper m).
Proof. unfold tryClickLoadMore. destruct (findLoadMore _ _ _); reflexivity. Qed.

Lemma topBody_turn v (m : Machine W) :
  behind v ->
  let r := topBody page engine platform v m in
  scrollAttempts (scraper (snd r)) = S (iteration v)
  /\ iteration (snd (fst r)) = S (iteration v)
  /\ (stableCount (snd (fst r)) < iteration (snd (fst r)))%nat
  /\ (fst (fst r) = true -> (3 <= stableCount (snd (fst r)))%nat).
Proof.
  intros Hb r. unfold r, topBody.
  destruct (tryClickLoadMore page engine platform (onScraper (setAttempts (S (iteration v))) m))
    as [clicked m1] eqn:E.
  assert (scrollAttempts (scraper m1) = S (iteration v)) as H1.
  { change m1 with (snd (clicked, m1)). rewrite <- E, attempts_tryClick. reflexivity. }
  cbv zeta.
  set (m2 := triggerScrollEvents page _).
  assert (scrollAttempts (scraper m2) = S (iteration v)) as H2.
  { unfold m2, triggerScrollEvents. cbn [fold_left onWorld scraper].
    rewrite attempts_waitFor. exact H1. }
  set (m3 := if (S (iteration v) mod 10 =? 0)%nat then report page _ m2 else m2).
  assert (scrollAttempts (scraper m3) = S (iteration v)) as H3.
  { unfold m3. destruct (_ =? _)%nat; [rewrite attempts_report|]; exact H2. }
  set (heightStable := Z.of_N (scrollHeight page (world m2)) =? previousScrollHeight v).
  set (stable := heightStable && Qle_bool (scrollTop page (world m2)) 5 && negb clicked).
  assert (stable = true -> (stableCount v < iteration v)%nat) as Hst.
  { intros Hs. destruct Hb as [Hb | (_ & _ & Hneg)]; [exact Hb|].
    unfold stable, heightStable in Hs.
    apply andb_true_iff in Hs as [Hs _]. apply andb_true_iff in Hs as [Hs _].
    apply Z.eqb_eq in Hs. lia. }
  destruct stable eqn:Es.
  - specialize (Hst eq_refl). cbn [andb].
    destruct (5 <=? S (stableCount v))%nat eqn:E5.
    + cbn [fst snd stableCount iteration]. apply Nat.leb_le in E5.
      repeat split; try assumption; lia.
    + destruct ((3 <=? S (stableCount v))%nat
                && negb (hasLoadMoreButton engine platform (document page (world m3))))
        eqn:E3; cbn [fst snd stableCount iteration];
        repeat split; try assumption; try lia; try discriminate.
      intros _. apply andb_true_iff in E3 as [E3 _]. now apply Nat.leb_le in E3.
  - cbn [andb]. cbn [Nat.leb]. cbn [andb]. cbn [fst snd stableCount iteration].
    repeat split; try assumption; try lia; discriminate.
Qed.

Lemma topLoop_turns fuel : forall v (m : Machine W) b v' m',
  behind v -> (iteration v <> 0%nat -> scrollAttempts (scraper m) = iteration v) ->
  topLoop page engine fuel platform v m = (b, v', m') ->
  behind v'
  /\ (iteration v' <> 0%nat -> scrollAttempts (scraper m') = iteration v')
  /\ (iteration v <= iteration v')%nat
  /\ (b = true -> isCapturing (scraper m') = true ->
      (iteration v' < maxScrollAttempts)%nat ->
      (iteration v < iteration v')%nat /\ (3 <= stableCount v')%nat).
Proof.
  induction fuel as [|fuel IH]; intros v m b v' m' Hb Ha; cbn [topLoop];
    destruct ((iteration v <? maxScrollAttempts)%nat && isCapturing (scraper m)) eqn:Ec;
    try (intros [= <- <- <-]; split; [exact Hb|]; split; [exact Ha|]; split; [lia|];
         first [ discriminate
               | intros _ Hcap Hlt; apply Nat.ltb_lt in Hlt; rewrite Hlt, Hcap in Ec;
                 discriminate Ec ]).
  pose proof (topBody_turn v m Hb) as (T1 & T2 & T3 & T4).
  destruct (topBody page engine platform v m) as [[broke v1] m1]. cbn [fst snd] in *.
  destruct broke.
  - intros [= <- <- <-]. split; [now left|]. split; [intros _; lia|]. split; [lia|].
    intros _ _ _. split; [lia | now apply T4].
  - intros Hl. apply IH in Hl as (I1 & I2 & I3 & I4); [| now left | intros _; lia].
    split; [exact I1|]. split; [exact I2|]. split; [lia|].
    intros Hb' Hcap Hlt. destruct (I4 Hb' Hcap Hlt). split; [lia | assumption].
Qed.

(** X14: phase 1 never ends by one of its two [break]s before its fourth
    turn.  The stability counter is always behind the turn counter, since
    the first turn compares the scroll height with -1; so a call that ends
    with the scraper still capturing and fewer than 300 turns made has a
    stability counter of 3 or more and has made 4 turns or more.  And
    [scrollAttempts] is the number of turns made. *)
Theorem scrollToAbsoluteTop_no_early_break fuel (m : Machine W) b v' m' :
  scrollToAbsoluteTop page engine fuel platform m = (b, v', m') ->
  (iteration v' <> 0%nat -> scrollAttempts (scraper m') = iteration v')
  /\ (iteration v' <> 0%nat -> (stableCount v' < iteration v')%nat)
  /\ (b = true -> isCapturing (scraper m') = true ->
      (iteration v' < maxScrollAttempts)%nat ->
      (3 <= stableCount v')%nat /\ (4 <= iteration v')%nat).
Proof.
  unfold scrollToAbsoluteTop. cbv zeta. intros H.
  apply topLoop_turns in H as (Hb & Ha & _ & Hbreak).
  - split; [exact Ha|]. split.
    + intros Hne. destruct Hb as [Hb | (Hz & _)]; [exact Hb | contradiction].
    + intros B C L. destruct (Hbreak B C L) as [_ H3]. split; [exact H3|].
      destruct Hb as [Hb | (Hz & Hs & _)]; lia.
  - right. cbn. repeat split.
  - cbn. intros Hne. now contradiction Hne.
Qed.

End Turns.

Lemma scrollToAbsoluteTop_no_early_break_witness :
  let r := scrollToAbsoluteTop (Sample.still (Sample.rendered 3)) Sample.engine 300
                               Sample.generic (Sample.start 0%Q) in
  fst (fst r) = true
  /\ isCapturing (scraper (snd r)) = true
  /\ (iteration (snd (fst r)) < maxScrollAttempts)%nat
  /\ (3 <= stableCount (snd (fst r)))%nat /\ (4 <= iteration (snd (fst r)))%nat.
Proof.
  intros r.
  assert (fst (fst r) = true) as Hb by (vm_compute; reflexivity).
  assert (isCapturing (scraper (snd r)) = true) as Hc by (vm_compute; reflexivity).
  assert (iteration (snd (fst r)) < maxScrollAttempts)%nat as Hi by (vm_compute; lia).
  split; [exact Hb|]. split; [exact Hc|]. split; [exact Hi|].
  refine (proj2 (proj2 (scrollToAbsoluteTop_no_early_break
                          (Sample.still (Sample.rendered 3)) Sample.engine Sample.generic
                          300 (Sample.start 0%Q) (fst (fst r)) (snd (fst r)) (snd r) _))
                Hb Hc Hi).
  vm_compute. reflexivity.
Defined.

(* --------------------------------------------------------------------- *)
(** ** The events of a whole run *)

Section RunEvents.
Context {W : Type} (page : Page W) (engine : Engine) (platform : Platform).

Local Abbreviation held := (fun m : Machine W => length (capturedMessages (scraper m))).

Lemma held_waitFor ms (m : Machine W) : held (waitFor page ms m) = held m.
Proof. unfold waitFor. destruct (wait page ms (world m)) as [w []]; reflexivity. Qed.

Lemma held_report p (m : Machine W) : held (report page p m) = held m.
Proof. unfold report. destruct (onProgress page p (world m)) as [w []]; reflexivity. Qed.

Lemma held_capture (m : Machine W) : (held m <= held (capture page engine platform m))%nat.
Proof.
  cbn [capture onScraper scraper]. unfold captureVisibleMessages.
  rewrite capturePass_observe.
  apply prefix_length, (observe_extends engine platform).
Qed.

Lemma topBody_uncounted v (m : Machine W) :
  exists added,
    trace (snd (topBody page engine platform v m)) = trace m ++ added
    /\ Forall (fun p => count p = None) added.
Proof.
  unfold topBody.
  destruct (tryClickLoadMore page engine platform (onScraper (setAttempts (S (iteration v))) m))
    as [clicked m1] eqn:E.
  assert (trace m1 = trace m) as H1.
  { change m1 with (snd (clicked, m1)). rewrite <- E, trace_tryClick. reflexivity. }
  cbv zeta.
  repeat match goal with
         | |- context [if ?b then _ else _] => destruct b
         end;
    cbn [snd]; rewrite ?trace_report, trace_trigger, trace_waitFor; cbn [onWorld trace];
    rewrite H1;
    first [ exists []; split; [now rewrite app_nil_r | constructor]
          | eexists [_]; split; [reflexivity | repeat constructor] ].
Qed.

Lemma topLoop_uncounted fuel : forall v (m : Machine W),
  exists added,
    trace (snd (topLoop page engine fuel platform v m)) = trace m ++ added
    /\ Forall (fun p => count p = None) added.
Proof.
  induction fuel as [|fuel IH]; intros v m; cbn [topLoop];
    destruct (_ && _);
    try (exists []; rewrite app_nil_r; split; [reflexivity | constructor]).
  destruct (topBody_uncounted v m) as (a1 & Ht1 & Ha1).
  destruct (topBody page engine platform v m) as [[broke v1] m1]. cbn [snd fst] in *.
  destruct broke.
  - exists a1. cbn [snd]. auto.
  - destruct (IH v1 m1) as (a2 & Ht2 & Ha2).
    exists (a1 ++ a2). rewrite Ht2, Ht1, app_assoc. split; [reflexivity|].
    apply Forall_app. now split.
Qed.

(** A turn of phase 2 reports the number of messages held at its capture. *)
Lemma sweepBody_counted scrollStep v (m : Machine W) :
  exists p,
    trace (snd (sweepBody page engine platform scrollStep v m)) = trace m ++ [p]
    /\ count p = Some (reported p)
    /\ message p = sweepMessage (reported p)
    /\ (held m <= reported p)%nat
    /\ (reported p <= held (snd (sweepBody page engine platform scrollStep v m)))%nat.
Proof.
  unfold sweepBody, sweepAdvance. cbv zeta.
  set (m1 := capture page engine platform _).
  set (p := {| phase := extracting; message := sweepMessage (held m1);
               progress := _; count := Some (held m1) |}).
  assert (held m <= held m1)%nat as Hm1.
  { unfold m1. etransitivity; [|apply held_capture].
    rewrite held_waitFor. unfold triggerScrollEvents. cbn [fold_left onWorld scraper].
    rewrite held_waitFor. reflexivity. }
  exists p. destruct (atBottomOf page (world (report page p m1))).
  - cbn [snd]. split; [|split; [reflexivity | split; [reflexivity | split; [exact Hm1|]]]].
    + repeat first [ rewrite trace_waitFor | rewrite trace_report
                   | progress cbn [capture onScraper onWorld trace] ].
      unfold m1. cbn [capture onScraper trace].
      rewrite trace_waitFor, trace_trigger, trace_waitFor. reflexivity.
    + cbn [reported count p].
      etransitivity; [|apply held_capture]. rewrite held_waitFor. cbn [onWorld scraper].
      etransitivity; [|apply held_capture]. rewrite held_waitFor, held_report. reflexivity.
  - destruct (_ && _); cbn [snd];
      (split; [|split; [reflexivity | split; [reflexivity | split; [exact Hm1|]]]]);
      try (rewrite trace_report; unfold m1; cbn [capture onScraper trace];
           rewrite trace_waitFor, trace_trigger, trace_waitFor; reflexivity);
      cbn [reported count p]; rewrite held_report; reflexivity.
Qed.

Lemma sweepLoop_held fuel scrollStep : forall v (m : Machine W),
  (held m <= held (snd (sweepLoop page engine fuel platform scrollStep v m)))%nat.
Proof.
  induction fuel as [|fuel IH]; intros v m; cbn [sweepLoop];
    destruct (isCapturing (scraper m)); cbn [snd]; try lia.
  destruct (sweepBody_counted scrollStep v m) as (p & _ & _ & _ & L1 & L2).
  destruct (sweepBody page engine platform scrollStep v m) as [[[e|] v1] m1];
    cbn [snd] in *; [lia|]. specialize (IH v1 m1). lia.
Qed.

Lemma sweepLoop_counted fuel scrollStep : forall v (m : Machine W),
  exists added,
    trace (snd (sweepLoop page engine fuel platform scrollStep v m)) = trace m ++ added
    /\ StronglySorted (fun p q => (reported p <= reported q)%nat) added
    /\ Forall (fun p =>
                 count p = Some (reported p)
                 /\ message p = sweepMessage (reported p)
                 /\ (held m <= reported p)%nat
                 /\ (reported p
                     <= held (snd (sweepLoop page engine fuel platform scrollStep v m)))%nat)
              added.
Proof.
  induction fuel as [|fuel IH]; intros v m; cbn [sweepLoop];
    destruct (isCapturing (scraper m));
    try (exists []; rewrite app_nil_r; repeat split; constructor).
  destruct (sweepBody_counted scrollStep v m) as (p & Ht & Hc & Hm & Hlo & Hhi).
  pose proof (fun v1 m1 => sweepLoop_held fuel scrollStep v1 m1) as Hmono.
  destruct (sweepBody page engine platform scrollStep v m) as [[exit v1] m1].
  cbn [fst snd] in *. destruct exit as [e|].
  - exists [p]. cbn [snd]. split; [exact Ht|]. split; [repeat constructor|].
    constructor; [auto | constructor].
  - destruct (IH v1 m1) as (a2 & Ht2 & Hs2 & Ha2). specialize (Hmono v1 m1).
    exists (p :: a2). rewrite Ht2, Ht, <- app_assoc. split; [reflexivity|].
    assert (Forall (fun q => (reported p <= reported q)%nat) a2) as Hle.
    { eapply Forall_impl; [exact Ha2|]. intros q (_ & _ & Hq & _). simpl in Hq. lia. }
    split; [now constructor|]. constructor.
    + split; [exact Hc|]. split; [exact Hm|]. split; [exact Hlo|]. lia.
    + eapply Forall_impl; [exact Ha2|]. intros q (Q1 & Q2 & Q3 & Q4).
      split; [exact Q1|]. split; [exact Q2|]. split; [simpl in Q3; lia | exact Q4].
Qed.

(** X15: the message counts reported during phase 2 never go down.  Each
    event of the phase carries the number of messages the accumulator
    holds at that moment, in its [count] and in its text, and these
    numbers lie between what the accumulator held before the phase and
    what it holds after it. *)
Theorem counts_never_go_down fuel (m : Machine W) :
  let m' := snd (scrollAndCaptureAll page engine fuel platform m) in
  exists added,
    trace m' = trace m ++ added
    /\ StronglySorted (fun p q => (reported p <= reported q)%nat) added
    /\ Forall (fun p =>
                 count p = Some (reported p)
                 /\ message p = sweepMessage (reported p)
                 /\ (held m <= reported p <= held m')%nat)
              added.
Proof.
  intros m'. unfold m', scrollAndCaptureAll. cbv zeta.
  set (m1 := capture page engine platform _).
  destruct (sweepLoop_counted fuel (scrollStepOf (clientHeight page (world m1)))
              {| totalScrolled := 0; previousMessageCount := 0; sweepStableCount := 0 |} m1)
    as (added & Ht & Hs & Ha).
  exists added. split; [|split; [exact Hs|]].
  - rewrite Ht. unfold m1. cbn [capture onScraper trace]. rewrite trace_waitFor. reflexivity.
  - eapply Forall_impl; [exact Ha|]. intros p (P1 & P2 & P3 & P4).
    split; [exact P1|]. split; [exact P2|]. split; [|exact P4]. simpl in P3.
    etransitivity; [|exact P3].
    unfold m1. etransitivity; [|apply held_capture]. rewrite held_waitFor. reflexivity.
Qed.

End RunEvents.

Section WholeRun.
Context {W : Type} (page : Page W) (engine : Engine) (platform : Platform).

Lemma scrollToAbsoluteTop_trace fuel (m : Machine W) :
  exists added,
    trace (snd (scrollToAbsoluteTop page engine fuel platform m)) = trace m ++ added
    /\ Forall (fun p => phase p = scrolling /\ (2 <= progress p <= 45)%Q /\ count p = None)
              added.
Proof.
  unfold scrollToAbsoluteTop. cbv zeta.
  set (m1 := waitFor page 300 (onWorld (setScrollTop page 0) m)).
  set (v := {| previousScrollHeight := -1; previousScrollTop := -1;
               stableCount := 0; iteration := 0 |}).
  assert (trace m1 = trace m) as H1 by (unfold m1; now rewrite trace_waitFor).
  destruct (topLoop_events page engine platform fuel v m1) as (a & Ha & _ & Hp).
  destruct (topLoop_uncounted page engine platform fuel v m1) as (a' & Ha' & Hc).
  assert (a' = a) as -> by (apply (app_inv_head (trace m1)); now rewrite <- Ha, <- Ha').
  exists a. rewrite Ha, H1. split; [reflexivity|].
  apply list.Forall_forall. intros p Hin.
  destruct (proj1 (list.Forall_forall _ _) Hp p Hin) as (P1 & k & _ & ->).
  split; [exact P1|]. split; [apply topProgress_range|].
  apply (proj1 (list.Forall_forall _ _) Hc p Hin).
Qed.

Lemma scrollAndCaptureAll_trace fuel (m : Machine W) :
  let m' := snd (scrollAndCaptureAll page engine fuel platform m) in
  exists added,
    trace m' = trace m ++ added
    /\ Forall (fun p => phase p = extracting /\ (50 <= progress p <= 95)%Q
                        /\ count p = Some (reported p)
                        /\ (reported p <= length (capturedMessages (scraper m')))%nat)
              added.
Proof.
  intros m'. unfold m', scrollAndCaptureAll. cbv zeta.
  set (m1 := capture page engine platform _).
  set (v := {| totalScrolled := 0; previousMessageCount := 0; sweepStableCount := 0 |}).
  set (step := scrollStepOf (clientHeight page (world m1))).
  assert (trace m1 = trace m) as H1.
  { unfold m1. cbn [capture onScraper trace]. now rewrite trace_waitFor. }
  destruct (sweepLoop_events page engine platform fuel step v m1) as (a & Ha & Hp & _);
    [apply scrollStepOf_pos | apply Qle_refl |].
  destruct (sweepLoop_counted page engine platform fuel step v m1) as (a' & Ha' & _ & Hc).
  assert (a' = a) as -> by (apply (app_inv_head (trace m1)); now rewrite <- Ha, <- Ha').
  exists a. rewrite Ha, H1. split; [reflexivity|].
  apply list.Forall_forall. intros p Hin.
  destruct (proj1 (list.Forall_forall _ _) Hp p Hin) as (P1 & P2 & _).
  destruct (proj1 (list.Forall_forall _ _) Hc p Hin) as (C1 & _ & _ & C4).
  auto.
Qed.

(** The course of a call that returns. *)
Lemma captureFullHistory_run fuel (w : W) out m :
  captureFullHistory page engine fuel platform w = Some (Returned out, m) ->
  exists a1 a2,
    trace m = [eventInitializing; eventScrolling] ++ a1 ++ [eventExtracting] ++ a2
              ++ [eventFinalizing; eventComplete (length out)]
    /\ Forall (fun p => phase p = scrolling /\ (2 <= progress p <= 45)%Q /\ count p = None) a1
    /\ Forall (fun p => phase p = extracting /\ (50 <= progress p <= 95)%Q
                        /\ count p = Some (reported p)
                        /\ (reported p <= length (capturedMessages (scraper m)))%nat) a2
    /\ reached engine platform (scraper m)
    /\ out = processMessages (scraper m)
    /\ isCapturing (scraper m) = false.
Proof.
  unfold captureFullHistory. cbv zeta.
  set (m0 := report page _ {| scraper := fresh; world := w; trace := [] |}).
  destruct (findChatContainer platform (document page (world m0))); [|discriminate].
  set (m1 := report page _ m0).
  pose proof (store_scrollToAbsoluteTop page engine platform fuel m1) as H1.
  destruct (scrollToAbsoluteTop_trace fuel m1) as (a1 & T1 & F1).
  destruct (scrollToAbsoluteTop page engine fuel platform m1) as [[[] v1] m2]; [|discriminate].
  cbn [snd] in H1, T1.
  set (m3 := report page _ m2).
  assert (reached engine platform (scraper m3)) as H3.
  { eapply reached_store; [|apply reached_fresh].
    unfold m3. rewrite store_report, H1. unfold m1. rewrite store_report.
    unfold m0. rewrite store_report. reflexivity. }
  pose proof (reached_scrollAndCaptureAll page engine platform fuel m3 H3) as H4.
  destruct (scrollAndCaptureAll_trace fuel m3) as (a2 & T2 & F2).
  destruct (scrollAndCaptureAll page engine fuel platform m3) as [[[ex|] v2] m4]; [|discriminate].
  cbn [snd] in H4, T2, F2. intros H. injection H as <- <-.
  set (m5 := report page _ m4).
  set (out := processMessages (scraper m5)).
  set (m6 := report page _ m5).
  assert (store (scraper (onScraper stop m6)) = store (scraper m4)) as S6.
  { cbn [onScraper scraper]. rewrite store_stop. unfold m6. rewrite store_report.
    unfold m5. now rewrite store_report. }
  assert (capturedMessages (scraper (onScraper stop m6)) = capturedMessages (scraper m4))
    as C6 by (unfold store in S6; now injection S6).
  exists a1, a2. split; [|split; [exact F1 | split; [|split; [|split]]]].
  - cbn [onScraper trace]. unfold m6. rewrite trace_report. unfold m5. rewrite trace_report.
    rewrite T2. unfold m3. rewrite trace_report, T1. unfold m1. rewrite trace_report.
    unfold m0. rewrite trace_report. cbn [trace]. rewrite <- !app_assoc. reflexivity.
  - rewrite C6. exact F2.
  - eapply reached_store; [exact S6 | exact H4].
  - unfold out. apply processMessages_store. rewrite S6. unfold m5. now rewrite store_report.
  - reflexivity.
Qed.

Lemma Qle_const_0_2 : (0 <= 2)%Q. Proof. discriminate. Qed.
Lemma Qle_const_45_100 : (45 <= 100)%Q. Proof. discriminate. Qed.
Lemma Qle_const_0_50 : (0 <= 50)%Q. Proof. discriminate. Qed.
Lemma Qle_const_95_100 : (95 <= 100)%Q. Proof. discriminate. Qed.

(** X16: the events of a call that returns.  After [initializing] at 0 and
    [scrolling] at 2 come the events of phase 1, all [scrolling] within
    2..45 and without a count; then [extracting] at 50 and the events of
    phase 2, all [extracting] within 50..95; then [finalizing] at 95 and
    [complete] at 100 with the length of the returned list as its count.
    So every percentage is within 0..100, and the scraper is left with
    [isCapturing] false. *)
Theorem captureFullHistory_events fuel (w : W) out m :
  captureFullHistory page engine fuel platform w = Some (Returned out, m) ->
  (exists a1 a2,
     trace m = [eventInitializing; eventScrolling] ++ a1 ++ [eventExtracting] ++ a2
               ++ [eventFinalizing; eventComplete (length out)]
     /\ Forall (fun p => phase p = scrolling /\ (2 <= progress p <= 45)%Q /\ count p = None)
               a1
     /\ Forall (fun p => phase p = extracting /\ (50 <= progress p <= 95)%Q) a2)
  /\ Forall (fun p => (0 <= progress p <= 100)%Q) (trace m)
  /\ isCapturing (scraper m) = false.
Proof.
  intros H. destruct (captureFullHistory_run fuel w out m H)
    as (a1 & a2 & T & F1 & F2 & _ & _ & C).
  assert (Forall (fun p => phase p = extracting /\ (50 <= progress p <= 95)%Q) a2) as F2'.
  { eapply Forall_impl; [exact F2|]. intros p (? & ? & _). auto. }
  split; [exists a1, a2; auto|]. split; [|exact C].
  rewrite T. repeat (apply Forall_app; split); repeat constructor;
    try discriminate.
  - eapply Forall_impl; [exact F1|]. intros p (_ & [L U] & _). split.
    + eapply Qle_trans; [apply Qle_const_0_2 | exact L].
    + eapply Qle_trans; [exact U | apply Qle_const_45_100].
  - eapply Forall_impl; [exact F2'|]. intros p (_ & [L U]). split.
    + eapply Qle_trans; [apply Qle_const_0_50 | exact L].
    + eapply Qle_trans; [exact U | apply Qle_const_95_100].
Qed.

Lemma reached_nothing s :
  reached engine platform s -> processMessages s = [] -> capturedMessages s = [].
Proof.
  intros [passes Hst] Hout.
  rewrite (processMessages_store s _ Hst), processMessages_kept, passes_sorted in Hout.
  assert (capturedMessages s = capturedMessages (runPasses engine platform fresh passes))
    as -> by (unfold store in Hst; now injection Hst).
  destruct (capturedMessages (runPasses engine platform fresh passes)) as [|x l] eqn:E;
    [reflexivity|].
  assert (x ∈ capturedMessages (runPasses engine platform fresh passes)) as Hx
    by (rewrite E; left).
  pose proof (passes_hasText engine platform passes x Hx) as Ht.
  rewrite E in Hx.
  destruct (dedupFrom_covers ∅ (x :: l) x Hx Ht) as [Hin | (m' & Hin & _)].
  - now apply not_elem_of_empty in Hin.
  - apply (f_equal length) in Hout. rewrite length_imap in Hout.
    apply nil_length_inv in Hout. rewrite Hout in Hin. inversion Hin.
Qed.

Lemma stat_unchanged events : forall view,
  Forall (fun p => reported p = 0%nat) events ->
  Overlay.statMessages (fold_left Overlay.onCaptureProgress events view)
  = Overlay.statMessages view.
Proof.
  induction events as [|p events IH]; intros view Hall; [reflexivity|].
  inversion Hall as [|? ? Hp Hrest]; subst. cbn [fold_left]. rewrite IH by exact Hrest.
  unfold Overlay.onCaptureProgress, reported in *. cbn [Overlay.statMessages].
  destruct (count p) as [n|]; [|reflexivity]. now subst n.
Qed.

(** X17: what the overlay shows after the capture.  The callback of
    [startCapture], run over the events of a call that returns, leaves the
    phase message at the completion text and the Messages stat at the
    number of returned messages; only when nothing was captured is the stat
    left as it was before the call, since the callback skips a count of 0. *)
Theorem overlay_after_capture fuel (w : W) out m :
  captureFullHistory page engine fuel platform w = Some (Returned out, m) ->
  forall view,
    let view' := fold_left Overlay.onCaptureProgress (trace m) view in
    Overlay.phaseMessage view' = completeMessage (length out)
    /\ Overlay.statMessages view'
       = match out with
         | [] => Overlay.statMessages view
         | _ :: _ => decimal (N.of_nat (length out))
         end.
Proof.
  intros H view view'. destruct (captureFullHistory_run fuel w out m H)
    as (a1 & a2 & T & F1 & F2 & R & O & _).
  unfold view'. rewrite T, !app_assoc.
  change [eventFinalizing; eventComplete (length out)]
    with ([eventFinalizing] ++ [eventComplete (length out)]).
  rewrite app_assoc, fold_left_app. cbn [fold_left].
  split; [reflexivity|].
  destruct out as [|x out'] eqn:Eo; [|reflexivity].
  cbn [Overlay.onCaptureProgress Overlay.statMessages count eventComplete length Nat.eqb].
  apply stat_unchanged.
  assert (capturedMessages (scraper m) = []) as Hc by (apply reached_nothing; auto).
  rewrite Hc in F2.
  repeat (apply Forall_app; split); repeat constructor.
  - eapply Forall_impl; [exact F1|]. intros p (_ & _ & Hn). unfold reported. now rewrite Hn.
  - eapply Forall_impl; [exact F2|]. intros p (_ & _ & _ & Hn). simpl in Hn. lia.
Qed.

End WholeRun.

Lemma captureFullHistory_events_witness :
  exists out m,
    captureFullHistory (Sample.still (Sample.rendered 3)) Sample.engine 300 Sample.generic 0%Q
    = Some (Returned out, m)
    /\ Forall (fun p => (0 <= progress p <= 100)%Q) (trace m)
    /\ isCapturing (scraper m) = false.
Proof.
  eexists _, _. split; [vm_compute; reflexivity|].
  eapply (fun H => proj2 (captureFullHistory_events (Sample.still (Sample.rendered 3))
                            Sample.engine Sample.generic 300 0%Q _ _ H)).
  vm_compute. reflexivity.
Defined.

Lemma overlay_after_capture_witness :
  let view := {| Overlay.phaseMessage := []; Overlay.statMessages := js "0" |} in
  exists out m,
    captureFullHistory (Sample.still (Sample.rendered 3)) Sample.engine 300 Sample.generic 0%Q
    = Some (Returned out, m)
    /\ Overlay.statMessages (fold_left Overlay.onCaptureProgress (trace m) view)
       = match out with
         | [] => Overlay.statMessages view
         | _ :: _ => decimal (N.of_nat (length out))
         end.
Proof.
  intros view. eexists _, _. split; [vm_compute; reflexivity|].
  eapply (fun H => proj2 (overlay_after_capture (Sample.still (Sample.rendered 3))
                            Sample.engine Sample.generic 300 0%Q _ _ H view)).
  vm_compute. reflexivity.
Defined.

(* --------------------------------------------------------------------- *)
(** ** The scrollable element *)

Section Scrollable.
Context (layout : Layout).

Lemma find_app {A} (f : A -> bool) (l1 l2 : list A) :
  List.find f (l1 ++ l2)
  = match List.find f l1 with Some x => Some x | None => List.find f l2 end.
Proof. induction l1 as [|x l1 IH]; simpl; [reflexivity|]. now destruct (f x). Qed.

Local Abbreviation shallow :=
  (fun l : list (nat * Element) => List.map snd (List.filter (fun p => (fst p <=? 4)%nat) l)).

Lemma descendantsToDepth_levels (el : Element) :
  forall d, Forall (fun p => (d < fst p)%nat) (descendantsToDepth el d).
Proof.
  induction el as [t a b cs IH] using Element_tree_ind. intros d. cbn [descendantsToDepth].
  induction cs as [|[txt|c] cs IHcs]; [constructor| |].
  - inversion IH; subst. now apply IHcs.
  - inversion IH as [|? ? Hc Hrest]; subst. constructor; [cbn; lia|].
    apply Forall_app. split; [|now apply IHcs].
    eapply Forall_impl; [apply (Hc (S d))|]. intros p Hp. simpl in Hp. lia.
Qed.

Lemma shallow_deep (el : Element) d :
  (3 < d)%nat -> shallow (descendantsToDepth el d) = [].
Proof.
  intros Hd. pose proof (descendantsToDepth_levels el d) as H.
  induction H as [|p l Hp _ IH]; [reflexivity|]. cbn [List.filter].
  destruct (Nat.leb_spec (fst p) 4); [lia | exact IH].
Qed.

(** The recursion with its depth bound is a search, in document order,
    through the descendants of the first four levels. *)
Lemma checkChildren_find (el : Element) :
  forall depth,
    checkChildren layout el depth
    = List.find (isScrollable layout) (shallow (descendantsToDepth el depth)).
Proof.
  induction el as [t a b cs IH] using Element_tree_ind. intros d.
  destruct (Nat.ltb_spec 3 d) as [Hd | Hd].
  - rewrite shallow_deep by exact Hd. cbn [checkChildren].
    destruct (Nat.ltb_spec 3 d); [reflexivity | lia].
  - cbn [checkChildren childNodes descendantsToDepth].
    destruct (Nat.ltb_spec 3 d); [lia|].
    induction cs as [|[txt|c] cs IHcs]; [reflexivity| |].
    + inversion IH; subst. now apply IHcs.
    + inversion IH as [|? ? Hc Hrest]; subst. cbn [List.filter fst].
      destruct (Nat.leb_spec (S d) 4); [|lia]. cbn [List.map List.find snd].
      destruct (isScrollable layout c); [reflexivity|].
      rewrite List.filter_app, List.map_app, find_app, <- (Hc (S d)).
      destruct (checkChildren layout c (S d)); [reflexivity|]. now apply IHcs.
Qed.

(** X18: [findScrollableElement] returns the first scrollable element of:
    the container, its descendants of the first four levels in document
    order, its ancestors from the nearest on; and the container when none
    of them scrolls.  (The bound [depth > 3] lets the search reach the
    great-great-grandchildren.) *)
Theorem findScrollableElement_order (container : Element) (parents : list Element) :
  findScrollableElement layout container parents
  = match List.find (isScrollable layout)
            (container
             :: List.map snd (List.filter (fun p => (fst p <=? 4)%nat)
                                          (descendantsToDepth container 0))
             ++ parents)
    with
    | Some scrollable => scrollable
    | None => container
    end.
Proof.
  unfold findScrollableElement. cbn [List.find].
  destruct (isScrollable layout container); [reflexivity|].
  rewrite find_app, <- checkChildren_find.
  destruct (checkChildren layout container 0); reflexivity.
Qed.

End Scrollable.

(* --------------------------------------------------------------------- *)
(** ** The log of the overlay *)

Lemma keepLast_drop entries :
  Overlay.keepLast entries = drop (length entries - 50) entries.
Proof.
  induction entries as [|x l IH]; [reflexivity|].
  cbn [Overlay.keepLast]. destruct (Nat.ltb_spec 50 (length (x :: l))) as [H | H].
  - rewrite IH. cbn [length] in *. replace (S (length l) - 50)%nat with (S (length l - 50)) by lia.
    reflexivity.
  - cbn [length] in *. replace (S (length l) - 50)%nat with 0%nat by lia. reflexivity.
Qed.

(** X19: [addLog] keeps the last 50 entries: the log after it is the old
    log with the new entry at its end, cut at the front to 50 entries; the
    new entry is always the last one. *)
Theorem addLog_keeps_last_50 (message : jsstring) (logContent : list jsstring) :
  Overlay.addLog message logContent
  = drop (length logContent + 1 - 50) (logContent ++ [message])
  /\ length (Overlay.addLog message logContent) = Nat.min 50 (length logContent + 1)
  /\ last (Overlay.addLog message logContent) = Some message.
Proof.
  unfold Overlay.addLog. rewrite keepLast_drop, length_app. cbn [length].
  split; [reflexivity|]. split.
  - rewrite length_drop, length_app. cbn [length]. lia.
  - destruct (Nat.le_gt_cases (length logContent + 1 - 50) (length logContent)) as [H | H].
    + rewrite drop_app_le by exact H. apply last_snoc.
    + lia.
Qed.

(* --------------------------------------------------------------------- *)
(** ** Code blocks and timestamps *)

Section Blocks.

Lemma codeLabel_inj i j : codeLabel i = codeLabel j -> i = j.
Proof.
  unfold codeLabel. intros H. apply app_inv_head in H. apply decimal_inj in H. lia.
Qed.

Lemma orElse_nonempty a b : b <> [] -> orElse a b <> [].
Proof. unfold orElse. destruct a; simpl; [auto | discriminate]. Qed.

Lemma attrOr_nonempty name e other : other <> [] -> attrOr name e other <> [].
Proof.
  intros H. unfold attrOr. destruct (getAttribute name e); [now apply orElse_nonempty | exact H].
Qed.

Lemma languageOf_nonempty s w : languageOf s = Some w -> w <> [].
Proof.
  induction s as [|c s IH]; [discriminate|]. cbn [languageOf].
  destruct (startsWith (js "language-") (c :: s)); [|exact IH].
  destruct (takeWhile isWordChar (skipn 9 (c :: s))) eqn:E; [exact IH|].
  intros [= <-]. discriminate.
Qed.

(** What [forEach] pushes of the code elements from index [k] on. *)
Lemma blocks_from {A} (f : nat -> A -> option CodeBlock.t) (l : list A) :
  (forall i a b, f i a = Some b -> CodeBlock.id b = codeLabel i) ->
  forall k,
  exists idxs,
    CodeBlock.id <$> omap (fun b => b) (imap (fun i => f (k + i)%nat) l) = codeLabel <$> idxs
    /\ StronglySorted lt idxs
    /\ Forall (fun i => (k <= i < k + length l)%nat) idxs.
Proof.
  intros Hf. induction l as [|a l IH]; intros k.
  - exists []. repeat split; constructor.
  - destruct (IH (S k)) as (idxs & Hids & Hs & Hr).
    assert (imap ((fun i => f (k + i)%nat) ∘ S) l = imap (fun i => f (S k + i)%nat) l) as Hshift.
    { apply imap_ext. intros i x _. cbn. f_equal. lia. }
    cbn [imap omap list_omap]. rewrite Hshift.
    destruct (f (k + 0)%nat a) as [b|] eqn:E.
    + exists (k :: idxs). cbn [fmap list_fmap]. rewrite <- Hids.
      apply Hf in E. rewrite Nat.add_0_r in E. split; [now rewrite E|]. split.
      * constructor; [exact Hs|]. eapply Forall_impl; [exact Hr|]. intros i Hi. simpl in Hi. lia.
      * constructor; [cbn [length]; lia|].
        eapply Forall_impl; [exact Hr|]. intros i Hi. simpl in Hi. cbn [length]. lia.
    + exists idxs. split; [exact Hids|]. split; [exact Hs|].
      eapply Forall_impl; [exact Hr|]. intros i Hi. simpl in Hi. cbn [length]. lia.
Qed.

Lemma StronglySorted_lt_NoDup (l : list nat) : StronglySorted lt l -> NoDup l.
Proof.
  induction 1 as [|x l Hs IH Hall]; constructor; [|exact IH].
  intros Hin. apply (proj1 (list.Forall_forall _ _) Hall) in Hin. lia.
Qed.

(** X20: the code blocks of a message.  The ids are [code_i] for strictly
    increasing [i] below the number of code-bearing elements (an element
    without text uses up its index), so no two blocks share an id; and
    every block has text, trimmed, and a non-empty language. *)
Theorem extractCodeBlocks_ids (el : Element) :
  (exists idxs,
     CodeBlock.id <$> extractCodeBlocks el = codeLabel <$> idxs
     /\ StronglySorted lt idxs
     /\ Forall (fun i => (i < length (querySelectorAll codeElementsSelector el))%nat) idxs)
  /\ NoDup (CodeBlock.id <$> extractCodeBlocks el)
  /\ Forall (fun b => CodeBlock.content b <> []
                      /\ trim (CodeBlock.content b) = CodeBlock.content b
                      /\ CodeBlock.language b <> [])
            (extractCodeBlocks el).
Proof.
  unfold extractCodeBlocks. cbv zeta.
  set (codeElements := List.filter _ (descendantsFrom [] el)).
  set (f := fun (i : nat) (p : list Element * Element) => _).
  assert (forall i a b, f i a = Some b ->
            CodeBlock.id b = codeLabel i
            /\ CodeBlock.content b <> []
            /\ trim (CodeBlock.content b) = CodeBlock.content b
            /\ CodeBlock.language b <> []) as Hf.
  { intros i p b. unfold f. rewrite orElse_nil.
    destruct (0 <? length (trim (textContent (snd p))))%nat eqn:E; [|discriminate].
    intros [= <-]. cbn [CodeBlock.id CodeBlock.content CodeBlock.language].
    split; [reflexivity|]. split.
    - apply Nat.ltb_lt in E. intros Hn. rewrite Hn in E. cbn in E. lia.
    - split; [apply trim_idem|]. apply attrOr_nonempty.
      destruct (languageOf (className (snd p))) as [w|] eqn:L;
        [now apply languageOf_nonempty in L|].
      destruct (closestPre (fst p) (snd p)); [apply attrOr_nonempty|]; discriminate. }
  destruct (blocks_from f codeElements (fun i a b H => proj1 (Hf i a b H)) 0)
    as (idxs & Hids & Hs & Hr).
  assert (imap (fun i => f (0 + i)%nat) codeElements = imap f codeElements) as Hz
    by (apply imap_ext; reflexivity).
  rewrite Hz in Hids. split; [|split].
  - exists idxs. split; [exact Hids|]. split; [exact Hs|].
    eapply Forall_impl; [exact Hr|]. intros i Hi. simpl in Hi.
    unfold querySelectorAll. rewrite length_map. fold codeElements. lia.
  - rewrite Hids. apply NoDup_fmap_2; [intros i j; apply codeLabel_inj|].
    now apply StronglySorted_lt_NoDup.
  - apply list.Forall_forall. intros b Hb.
    apply list_elem_of_omap in Hb as (ob & Hin & Hob). simpl in Hob. subst ob.
    apply list_elem_of_lookup in Hin as (i & Hi). rewrite list_lookup_imap in Hi.
    destruct (codeElements !! i) as [p|]; [|discriminate]. simpl in Hi. injection Hi as Hi.
    now apply Hf in Hi.
Qed.

Lemma timeOf_nonempty timeEl t : timeOf timeEl = Some t -> t <> [].
Proof.
  unfold timeOf. destruct (attrOr _ _ _) as [|c s]; [discriminate|].
  intros [= <-]. discriminate.
Qed.

Lemma firstTime_spec el sels :
  (firstTime el sels = None /\ Forall (fun s => querySelector s el = None) sels)
  \/ exists before s after timeEl,
       sels = before ++ s :: after
       /\ Forall (fun s => querySelector s el = None) before
       /\ querySelector s el = Some timeEl
       /\ firstTime el sels = timeOf timeEl.
Proof.
  induction sels as [|s sels IH]; [left; split; [reflexivity | constructor]|].
  cbn [firstTime]. destruct (querySelector s el) as [timeEl|] eqn:E.
  - right. exists [], s, sels, timeEl. repeat split; [constructor | exact E].
  - destruct IH as [[Hn Ha] | (before & s' & after & timeEl & -> & Hb & Hq & Hf)].
    + left. split; [exact Hn | now constructor].
    + right. exists (s :: before), s', after, timeEl. repeat split; try assumption.
      now constructor.
Qed.

(** X21: the timestamp comes from the first selector with a match, and
    from its first match only: a later selector is not tried, even when
    that element gives no time.  The result is never the empty string. *)
Theorem extractTimestamp_first_match (el : Element) :
  extractTimestamp el <> Some []
  /\ ((extractTimestamp el = None
       /\ Forall (fun s => querySelector s el = None) timeSelectors)
      \/ exists before s after timeEl,
           timeSelectors = before ++ s :: after
           /\ Forall (fun s => querySelector s el = None) before
           /\ querySelector s el = Some timeEl
           /\ extractTimestamp el = timeOf timeEl).
Proof.
  unfold extractTimestamp. split; [|apply firstTime_spec].
  destruct (firstTime_spec el timeSelectors) as [[-> _] | (_ & _ & _ & timeEl & _ & _ & _ & ->)];
    [discriminate|].
  intros H. now apply timeOf_nonempty in H.
Qed.

End Blocks.

(* --------------------------------------------------------------------- *)
(** ** The cleaning passes *)

Section Cleaning.

Local Abbreviation shown := (fun p : list Element * Element =>
                               matchesAny hiddenSelector (snd p) = false).

Lemma matchesAny_shell sel t a b cs cs' :
  matchesAny sel (Elem t a b cs) = matchesAny sel (Elem t a b cs').
Proof. reflexivity. Qed.

Lemma removeHidden_shell sel c : matchesAny sel (removeHidden c) = matchesAny sel c.
Proof. destruct c. apply matchesAny_shell. Qed.

Lemma removeNavigation_shell sel c : matchesAny sel (removeNavigation c) = matchesAny sel c.
Proof. destruct c. apply matchesAny_shell. Qed.

Lemma fenceCode_shell sel c : matchesAny sel (fenceCode c) = matchesAny sel c.
Proof. destruct c. apply matchesAny_shell. Qed.

(** The first pass leaves no hidden element. *)
Lemma removeHidden_shown (el : Element) :
  forall anc, Forall shown (descendantsFrom anc (removeHidden el)).
Proof.
  induction el as [t a b cs IH] using Element_tree_ind. intros anc.
  cbn [removeHidden descendantsFrom].
  generalize (Elem t a b
                ((fix go (cs0 : list Node) : list Node :=
                    match cs0 with
                    | [] => []
                    | TextNode d :: cs' => TextNode d :: go cs'
                    | ElemNode c :: cs' =>
                        if matchesAny hiddenSelector c then go cs'
                        else ElemNode (removeHidden c) :: go cs'
                    end) cs) :: anc) as up.
  intros up. induction cs as [|[txt|c] cs IHcs]; [constructor| |].
  - inversion IH; subst. now apply IHcs.
  - inversion IH as [|? ? Hc Hrest]; subst.
    destruct (matchesAny hiddenSelector c) eqn:E; [now apply IHcs|].
    constructor; [cbn [snd]; now rewrite removeHidden_shell|].
    apply Forall_app. split; [apply Hc | now apply IHcs].
Qed.

(** The later passes bring none back. *)
Lemma removeNavigation_shown (el : Element) :
  forall anc anc', Forall shown (descendantsFrom anc el) ->
                   Forall shown (descendantsFrom anc' (removeNavigation el)).
Proof.
  induction el as [t a b cs IH] using Element_tree_ind. intros anc anc'.
  cbn [removeNavigation descendantsFrom].
  generalize (Elem t a b cs :: anc) as up.
  generalize (Elem t a b
                ((fix go (cs0 : list Node) : list Node :=
                    match cs0 with
                    | [] => []
                    | TextNode d :: cs' => TextNode d :: go cs'
                    | ElemNode c :: cs' =>
                        if matchesAny navSelector c
                           && bool_decide (querySelector contentMarkers c = None)
                        then go cs'
                        else ElemNode (removeNavigation c) :: go cs'
                    end) cs) :: anc') as up'.
  intros up' up. induction cs as [|[txt|c] cs IHcs]; [constructor| |].
  - inversion IH; subst. now apply IHcs.
  - inversion IH as [|? ? Hc Hrest]; subst. intros H.
    inversion H as [|? ? Hhead Htail]; subst. apply Forall_app in Htail as [Hsub Hgo].
    destruct (matchesAny navSelector c && _); [now apply IHcs|].
    constructor; [cbn [snd] in *; now rewrite removeNavigation_shell|].
    apply Forall_app. split; [eapply Hc, Hsub | now apply IHcs].
Qed.

Lemma fenceCode_shown (el : Element) :
  forall anc anc', Forall shown (descendantsFrom anc el) ->
                   Forall shown (descendantsFrom anc' (fenceCode el)).
Proof.
  induction el as [t a b cs IH] using Element_tree_ind. intros anc anc'.
  cbn [fenceCode descendantsFrom].
  generalize (Elem t a b cs :: anc) as up.
  generalize (Elem t a b
                ((fix go (cs0 : list Node) : list Node :=
                    match cs0 with
                    | [] => []
                    | TextNode d :: cs' => TextNode d :: go cs'
                    | ElemNode c :: cs' =>
                        (if matchesAny codeSelector c
                         then ElemNode (Elem (tagName c) (attributes c) (box c)
                                             [TextNode (fenced c)])
                         else ElemNode (fenceCode c)) :: go cs'
                    end) cs) :: anc') as up'.
  intros up' up. induction cs as [|[txt|c] cs IHcs]; [constructor| |].
  - inversion IH; subst. now apply IHcs.
  - inversion IH as [|? ? Hc Hrest]; subst. intros H.
    inversion H as [|? ? Hhead Htail]; subst. apply Forall_app in Htail as [Hsub Hgo].
    cbn [snd] in Hhead. destruct (matchesAny codeSelector c).
    + constructor; [destruct c; exact Hhead|]. cbn [descendantsFrom app]. now apply IHcs.
    + constructor; [cbn [snd]; now rewrite fenceCode_shell|].
      apply Forall_app. split; [eapply Hc, Hsub | now apply IHcs].
Qed.

(** X22: no hidden element is left in the clone whose text
    [getCleanText] returns: the first pass removes every element that is
    [hidden], styled [display: none] or [aria-hidden="true"], and the two
    later passes bring none back. *)
Theorem getCleanText_drops_hidden (el : Element) :
  let clone := fenceCode (removeNavigation (removeHidden el)) in
  getCleanText el = trim (textContent clone)
  /\ Forall (fun p => matchesAny hiddenSelector (snd p) = false) (descendantsFrom [] clone).
Proof.
  intros clone. split; [unfold getCleanText; cbv zeta; apply orElse_nil|].
  unfold clone. apply (fenceCode_shown _ [] []), (removeNavigation_shown _ [] []).
  apply removeHidden_shown.
Qed.

Lemma removeHidden_fixed (el : Element) :
  forall anc, Forall shown (descendantsFrom anc el) -> removeHidden el = el.
Proof.
  induction el as [t a b cs IH] using Element_tree_ind. intros anc.
  cbn [removeHidden descendantsFrom]. generalize (Elem t a b cs :: anc) as up.
  intros up H. f_equal. induction cs as [|[txt|c] cs IHcs]; [reflexivity| |].
  - inversion IH; subst. f_equal. now apply IHcs.
  - inversion IH as [|? ? Hc Hrest]; subst.
    inversion H as [|? ? Hhead Htail]; subst. apply Forall_app in Htail as [Hsub Hgo].
    cbn [snd] in Hhead. rewrite Hhead. f_equal; [f_equal; eapply Hc, Hsub | now apply IHcs].
Qed.

Lemma removeNavigation_fixed (el : Element) :
  forall anc,
    Forall (fun p => matchesAny navSelector (snd p) = false) (descendantsFrom anc el) ->
    removeNavigation el = el.
Proof.
  induction el as [t a b cs IH] using Element_tree_ind. intros anc.
  cbn [removeNavigation descendantsFrom]. generalize (Elem t a b cs :: anc) as up.
  intros up H. f_equal. induction cs as [|[txt|c] cs IHcs]; [reflexivity| |].
  - inversion IH; subst. f_equal. now apply IHcs.
  - inversion IH as [|? ? Hc Hrest]; subst.
    inversion H as [|? ? Hhead Htail]; subst. apply Forall_app in Htail as [Hsub Hgo].
    cbn [snd] in Hhead. rewrite Hhead. cbn [andb].
    f_equal; [f_equal; eapply Hc, Hsub | now apply IHcs].
Qed.

Lemma fenceCode_fixed (el : Element) :
  forall anc,
    Forall (fun p => matchesAny codeSelector (snd p) = false) (descendantsFrom anc el) ->
    fenceCode el = el.
Proof.
  induction el as [t a b cs IH] using Element_tree_ind. intros anc.
  cbn [fenceCode descendantsFrom]. generalize (Elem t a b cs :: anc) as up.
  intros up H. f_equal. induction cs as [|[txt|c] cs IHcs]; [reflexivity| |].
  - inversion IH; subst. f_equal. now apply IHcs.
  - inversion IH as [|? ? Hc Hrest]; subst.
    inversion H as [|? ? Hhead Htail]; subst. apply Forall_app in Htail as [Hsub Hgo].
    cbn [snd] in Hhead. rewrite Hhead.
    f_equal; [f_equal; eapply Hc, Hsub | now apply IHcs].
Qed.

(** X23: on an element without hidden parts, navigation or code the
    cleaning passes change nothing, and the clean text is the trimmed
    [textContent]. *)
Theorem getCleanText_plain (el : Element) :
  plain el -> getCleanText el = trim (textContent el).
Proof.
  intros H. unfold getCleanText. cbv zeta. rewrite orElse_nil.
  rewrite (removeHidden_fixed el []), (removeNavigation_fixed el []), (fenceCode_fixed el []);
    try reflexivity;
    (eapply Forall_impl; [exact H|]; intros p (? & ? & ?); assumption).
Qed.

End Cleaning.

Lemma getCleanText_plain_witness :
  plain Cases.simple /\ getCleanText Cases.simple = trim (textContent Cases.simple).
Proof.
  assert (plain Cases.simple) as H by (vm_compute; repeat constructor).
  split; [exact H | exact (getCleanText_plain Cases.simple H)].
Defined.
